(** * Kaiju (kaijup.cpp): the read-ingestion pipeline of [main]

    A shallow embedding of [src/kaijup.cpp]: the character test [isalpha],
    the in-place filter [strip], the [std::ifstream] operations that [main]
    uses ([getline], [ignore], [peek], [seekg]), [std::stoi], the option
    loop, the start-up of the worker pool, format detection, the two record
    loops and the shutdown sequence.

    [main] is a computation in a state monad [M] over a [World]: the two
    input streams, the string variables of the record loops and the trace of
    what the main thread has done so far (messages, files opened, threads
    started and joined, Work Items pushed).  A computation either continues
    or stops: [exit] was called, or an operation was reached that has no
    defined result.  The [while] loops of the source run on an iteration
    budget; [run_main_never_starved] shows that the budgets [main] hands out
    are never exhausted.

    The library operations are modelled as the C++11 library behaves on a
    byte stream: [failbit] and [eofbit] as the standard sets them, string
    iterators as offsets into the buffer, [front()] of an empty string as
    the null character that ends the buffer.  [erase(begin())] on an empty
    string has no result and stops the run as [Undefined].  [getopt],
    [readIndexes], the queue and the worker threads are outside the file;
    the model takes the options [getopt] hands out as its input and records
    the calls to the others as events. *)

From Stdlib Require Import Ascii String ZArith Lia Bool Arith List.
Import ListNotations.

Local Open Scope Z_scope.

(** ** Characters and strings *)

(** A [std::string] is a list of characters. *)
Definition text := list ascii.

Definition str (s : string) : text := list_ascii_of_string s.

(** The value of a [char] once promoted to [int], for a signed 8-bit [char]. *)
Definition char_val (c : ascii) : Z :=
  let n := Z.of_N (N_of_ascii c) in
  if n <? 128 then n else n - 256.

(** [isalpha], lines 330-332. *)
Definition isalpha (c : ascii) : bool :=
  ((char_val "a" <=? char_val c) && (char_val c <=? char_val "z"))
  || ((char_val "A" <=? char_val c) && (char_val c <=? char_val "Z")).

(** [s.erase(it)] for an iterator at offset [i] inside the string. *)
Definition erase_at (s : text) (i : nat) : text :=
  firstn i s ++ skipn (S i) s.

(** [strip], lines 334-341.  The iterator is its offset from [s.begin()]; it
    is decremented below [s.begin()] when the first character is erased and
    is never read there, since [++it] comes first.  [None] is an exhausted
    iteration budget. *)
Fixpoint strip_loop (fuel : nat) (s : text) (it : Z) : option text :=
  match fuel with
  | O => None
  | S k =>
      if it =? Z.of_nat (length s) then Some s
      else match nth_error s (Z.to_nat it) with
           | Some c =>
               if isalpha c then strip_loop k s (it + 1)
               else strip_loop k (erase_at s (Z.to_nat it)) ((it - 1) + 1)
           | None => None
           end
  end.

Definition strip (s : text) : text :=
  match strip_loop (S (length s)) s 0 with
  | Some r => r
  | None => s
  end.

(** ** Input file streams

    A [std::ifstream] over a file: the bytes of the file, the bytes from the
    get position to the end, and the two state flags that the operations
    below set ([badbit] is never set by them). *)
Record ifstream := mk_ifstream {
  is_open : bool;
  content : text;
  rest : text;
  eofbit : bool;
  failbit : bool
}.

(** A default-constructed stream, not associated with a file. *)
Definition fresh_stream : ifstream := mk_ifstream false [] [] false false.

Definition good (s : ifstream) : bool := negb (eofbit s) && negb (failbit s).

Definition set_failbit (s : ifstream) : ifstream :=
  mk_ifstream (is_open s) (content s) (rest s) (eofbit s) true.

Definition at_end (s : ifstream) (fail : bool) : ifstream :=
  mk_ifstream (is_open s) (content s) [] true (failbit s || fail).

Definition advance (s : ifstream) (r : text) : ifstream :=
  mk_ifstream (is_open s) (content s) r (eofbit s) (failbit s).

(** [open]: on success the stream is at the start of the file with its state
    cleared; on failure [failbit] is set. *)
Definition ifstream_open (file : option text) (s : ifstream) : ifstream :=
  match file with
  | Some c => mk_ifstream true c c false false
  | None => set_failbit s
  end.

Definition ifstream_close (s : ifstream) : ifstream :=
  mk_ifstream false (content s) (rest s) (eofbit s) (failbit s).

Definition newline : ascii := "010"%char.

(** The characters up to the next newline, and what follows that newline;
    [None] when the data ends before a newline is found. *)
Fixpoint until_newline (r : text) : text * option text :=
  match r with
  | [] => ([], None)
  | c :: r' =>
      if Ascii.eqb c newline then ([], Some r')
      else let (l, o) := until_newline r' in (c :: l, o)
  end.

(** [std::getline(s, str)]: when the stream is not good the sentry sets
    [failbit] and [str] is left as it was; otherwise [str] is erased, the
    characters up to the newline are stored and the newline is dropped; at the
    end of the data [eofbit] is set, and [failbit] too when nothing at all was
    extracted. *)
Definition getline (s : ifstream) (str : text) : ifstream * text :=
  if good s then
    match until_newline (rest s) with
    | (l, Some r) => (advance s r, l)
    | (l, None) => (at_end s (match l with [] => true | _ => false end), l)
    end
  else (set_failbit s, str).

(** [s.ignore(numeric_limits<streamsize>::max(), '\n')]. *)
Definition ignore_line (s : ifstream) : ifstream :=
  if good s then
    match until_newline (rest s) with
    | (_, Some r) => advance s r
    | (_, None) => at_end s false
    end
  else set_failbit s.

Definition EOF : Z := -1.

(** [s.peek()]: the next character as an [int], or [EOF]. *)
Definition peek (s : ifstream) : ifstream * Z :=
  if good s then
    match rest s with
    | c :: _ => (s, Z.of_N (N_of_ascii c))
    | [] => (at_end s false, EOF)
    end
  else (set_failbit s, EOF).

(** [s.seekg(0, ios::beg)] (C++11): [eofbit] is cleared first; the position
    moves unless the stream has failed. *)
Definition seekg_beg (s : ifstream) : ifstream :=
  if failbit s then mk_ifstream (is_open s) (content s) (rest s) false true
  else if is_open s then mk_ifstream true (content s) (content s) false false
  else mk_ifstream false (content s) (rest s) false true.

(** ** Work items *)

(** Modelled from the spec: the class [ReadItem] (in [ReadItem.hpp]) is not
    part of the sources at hand.  A Work Item has an identifier, a primary
    sequence and an optional second sequence. *)
Record ReadItem := mk_ReadItem {
  item_name : text;
  item_sequence1 : text;
  item_sequence2 : option text
}.

(** Modelled from the spec: the constructor [ReadItem(name, sequence1)] that
    [main] calls builds an item with one sequence. *)
Definition new_ReadItem (name sequence1 : text) : ReadItem :=
  mk_ReadItem name sequence1 None.

(** ** Events of the main thread *)

Inductive Mode := MEM | GREEDYBLOSUM.

(** What is written to [cerr]. *)
Inductive diag :=
| InvalidMode
| InvalidArgument (opt : ascii) (optarg : string)
| ErrMinScore | ErrNumThreads | ErrMinFragmentLength | ErrMismatches
| ErrSeedLength | ErrNoFmi | ErrNoInput
| Parameters
| ReadingDatabase
| ReadingFmIndex (f : string)
| CouldNotOpen (f : string)
| BwtRead
| OutputFile (f : string)
| CouldNotOpenForWriting (f : string)
| AutoDetectionFailed (f : string)
| StartSearch (n : Z)
| Finished.

Inductive event :=
| Cerr (d : diag)
| UsageText
| ReadIndexes (f : string)
| ConfigInit
| OpenOutput (f : string)
| NewQueue (capacity : Z)
| Spawn (i : nat)
| OpenIn1 (f : string)
| OpenIn2 (f : string)
| Push (r : ReadItem)
| PushedLast
| CloseIn1
| CloseIn2
| Join (i : nat)
| DeleteThread (i : nat)
| FlushOutput
| CloseOutput
| DeleteQueue
| DeleteConfig.

(** ** The state of [main] and its monad *)

Record World := mk_World {
  events : list event;
  in1_file : ifstream;
  in2_file : ifstream;
  line_from_file : text;
  name : text;
  sequence1 : text
}.

Definition initial_World : World :=
  mk_World [] fresh_stream fresh_stream [] [] [].

Definition EXIT_SUCCESS : Z := 0.
Definition EXIT_FAILURE : Z := 1.

(** How [main] can stop short of returning: [exit] was called, an operation
    with undefined behaviour was reached, or the iteration budget of a loop
    of the model ran out. *)
Inductive stop :=
| Exited (status : Z)
| Undefined
| Starved.

Inductive result (A : Type) :=
| Cont (a : A) (w : World)
| Halt (o : stop) (w : World).
Arguments Cont {A} a w.
Arguments Halt {A} o w.

Definition M (A : Type) : Type := World -> result A.

Definition ret {A} (a : A) : M A := fun w => Cont a w.

Definition bind {A B} (m : M A) (k : A -> M B) : M B :=
  fun w => match m w with
           | Cont a w' => k a w'
           | Halt o w' => Halt o w'
           end.

Notation "x <- m ;; k" := (bind m (fun x => k))
  (at level 61, m at next level, right associativity).
Notation "m ;; k" := (bind m (fun _ => k))
  (at level 61, right associativity).

Definition halt {A} (o : stop) : M A := fun w => Halt o w.

Definition get : M World := fun w => Cont w w.

(** The world after the events [l] have happened. *)
Definition log (l : list event) (w : World) : World :=
  mk_World (events w ++ l) (in1_file w) (in2_file w)
           (line_from_file w) (name w) (sequence1 w).

Definition emit (e : event) : M unit := fun w => Cont tt (log [e] w).

(** The world with one of its variables assigned. *)
Definition with_in1 (s : ifstream) (w : World) : World :=
  mk_World (events w) s (in2_file w) (line_from_file w) (name w) (sequence1 w).

Definition with_in2 (s : ifstream) (w : World) : World :=
  mk_World (events w) (in1_file w) s (line_from_file w) (name w) (sequence1 w).

Definition with_line (l : text) (w : World) : World :=
  mk_World (events w) (in1_file w) (in2_file w) l (name w) (sequence1 w).

Definition with_name (n : text) (w : World) : World :=
  mk_World (events w) (in1_file w) (in2_file w) (line_from_file w) n
           (sequence1 w).

Definition with_sequence1 (q : text) (w : World) : World :=
  mk_World (events w) (in1_file w) (in2_file w) (line_from_file w) (name w) q.

Definition set_in1 (s : ifstream) : M unit := fun w => Cont tt (with_in1 s w).
Definition set_in2 (s : ifstream) : M unit := fun w => Cont tt (with_in2 s w).
Definition set_line (l : text) : M unit := fun w => Cont tt (with_line l w).
Definition set_name (n : text) : M unit := fun w => Cont tt (with_name n w).
Definition set_sequence1 (q : text) : M unit :=
  fun w => Cont tt (with_sequence1 q w).

Definition cerr (d : diag) : M unit := emit (Cerr d).

Definition exit {A} (status : Z) : M A := halt (Exited status).

Definition when (b : bool) (m : M unit) : M unit := if b then m else ret tt.

(** [usage], lines 343-362: prints the help text and exits. *)
Definition usage {A} : M A := emit UsageText ;; exit EXIT_FAILURE.

(** ** Command-line options *)

(** The local variables of [main] that the option loop sets, lines 39-54. *)
Record Options := mk_Options {
  mode : Mode;
  min_score : Z;
  min_fragment_length : Z;
  seed_length : Z;
  mismatches : Z;
  num_threads : Z;
  verbose : bool;
  debug : bool;
  fmi_filename : string;
  in1_filename : string;
  in2_filename : string;
  output_filename : string
}.

Definition default_Options : Options :=
  mk_Options MEM 65 11 7 0 1 false false "" "" "" "".

Definition set_mode (o : Options) (v : Mode) : Options :=
  mk_Options v (min_score o) (min_fragment_length o) (seed_length o)
    (mismatches o) (num_threads o) (verbose o) (debug o) (fmi_filename o)
    (in1_filename o) (in2_filename o) (output_filename o).
Definition set_min_score (o : Options) (v : Z) : Options :=
  mk_Options (mode o) v (min_fragment_length o) (seed_length o)
    (mismatches o) (num_threads o) (verbose o) (debug o) (fmi_filename o)
    (in1_filename o) (in2_filename o) (output_filename o).
Definition set_min_fragment_length (o : Options) (v : Z) : Options :=
  mk_Options (mode o) (min_score o) v (seed_length o)
    (mismatches o) (num_threads o) (verbose o) (debug o) (fmi_filename o)
    (in1_filename o) (in2_filename o) (output_filename o).
Definition set_seed_length (o : Options) (v : Z) : Options :=
  mk_Options (mode o) (min_score o) (min_fragment_length o) v
    (mismatches o) (num_threads o) (verbose o) (debug o) (fmi_filename o)
    (in1_filename o) (in2_filename o) (output_filename o).
Definition set_mismatches (o : Options) (v : Z) : Options :=
  mk_Options (mode o) (min_score o) (min_fragment_length o) (seed_length o)
    v (num_threads o) (verbose o) (debug o) (fmi_filename o)
    (in1_filename o) (in2_filename o) (output_filename o).
Definition set_num_threads (o : Options) (v : Z) : Options :=
  mk_Options (mode o) (min_score o) (min_fragment_length o) (seed_length o)
    (mismatches o) v (verbose o) (debug o) (fmi_filename o)
    (in1_filename o) (in2_filename o) (output_filename o).
Definition set_verbose (o : Options) (v : bool) : Options :=
  mk_Options (mode o) (min_score o) (min_fragment_length o) (seed_length o)
    (mismatches o) (num_threads o) v (debug o) (fmi_filename o)
    (in1_filename o) (in2_filename o) (output_filename o).
Definition set_debug (o : Options) (v : bool) : Options :=
  mk_Options (mode o) (min_score o) (min_fragment_length o) (seed_length o)
    (mismatches o) (num_threads o) (verbose o) v (fmi_filename o)
    (in1_filename o) (in2_filename o) (output_filename o).
Definition set_fmi_filename (o : Options) (v : string) : Options :=
  mk_Options (mode o) (min_score o) (min_fragment_length o) (seed_length o)
    (mismatches o) (num_threads o) (verbose o) (debug o) v
    (in1_filename o) (in2_filename o) (output_filename o).
Definition set_in1_filename (o : Options) (v : string) : Options :=
  mk_Options (mode o) (min_score o) (min_fragment_length o) (seed_length o)
    (mismatches o) (num_threads o) (verbose o) (debug o) (fmi_filename o)
    v (in2_filename o) (output_filename o).
Definition set_in2_filename (o : Options) (v : string) : Options :=
  mk_Options (mode o) (min_score o) (min_fragment_length o) (seed_length o)
    (mismatches o) (num_threads o) (verbose o) (debug o) (fmi_filename o)
    (in1_filename o) v (output_filename o).
Definition set_output_filename (o : Options) (v : string) : Options :=
  mk_Options (mode o) (min_score o) (min_fragment_length o) (seed_length o)
    (mismatches o) (num_threads o) (verbose o) (debug o) (fmi_filename o)
    (in1_filename o) (in2_filename o) v.

(** *** [std::stoi]

    Leading white space is skipped, a sign is optional, then the longest run
    of decimal digits is read; what follows the digits is ignored.  No digit
    at all throws [invalid_argument]; a value that does not fit an [int]
    throws [out_of_range]. *)
Inductive stoi_result :=
| StoiValue (v : Z)
| StoiInvalidArgument
| StoiOutOfRange.

Definition INT_MAX : Z := 2147483647.
Definition INT_MIN : Z := -2147483648.

Definition isspace (c : ascii) : bool :=
  let n := N_of_ascii c in
  (N.eqb n 32 || (N.leb 9 n && N.leb n 13))%bool.

Fixpoint skip_spaces (s : text) : text :=
  match s with
  | c :: s' => if isspace c then skip_spaces s' else s
  | [] => []
  end.

Definition digit_of (c : ascii) : option Z :=
  let n := N_of_ascii c in
  if (N.leb 48 n && N.leb n 57)%bool then Some (Z.of_N n - 48) else None.

(** The value of the longest prefix of digits, [None] when it is empty. *)
Fixpoint read_digits (s : text) (acc : option Z) : option Z :=
  match s with
  | c :: s' =>
      match digit_of c with
      | Some d =>
          read_digits s' (Some (10 * match acc with Some a => a | None => 0 end + d))
      | None => acc
      end
  | [] => acc
  end.

Definition stoi (optarg : string) : stoi_result :=
  let s := skip_spaces (str optarg) in
  let '(negative, s') :=
    match s with
    | "-"%char :: t => (true, t)
    | "+"%char :: t => (false, t)
    | _ => (false, s)
    end in
  match read_digits s' None with
  | None => StoiInvalidArgument
  | Some v =>
      let v' := if negative then - v else v in
      if (INT_MIN <=? v') && (v' <=? INT_MAX) then StoiValue v'
      else StoiOutOfRange
  end.

(** The [try { x = stoi(optarg); } catch ...] blocks of lines 82-141: on
    either exception the message is printed and the variable keeps its
    value. *)
Definition numeric_option (c : ascii) (optarg : string) (o : Options)
    (set : Options -> Z -> Options) : M Options :=
  match stoi optarg with
  | StoiValue v => ret (set o v)
  | StoiInvalidArgument => cerr (InvalidArgument c optarg) ;; ret o
  | StoiOutOfRange => cerr (InvalidArgument c optarg) ;; ret o
  end.

(** The body of the [switch], lines 60-144, for one option character [c]
    returned by [getopt] and its argument. *)
Definition handle_option (o : Options) (c : ascii) (optarg : string)
    : M Options :=
  if Ascii.eqb c "a" then
    if String.eqb "mem" optarg then ret (set_mode o MEM)
    else if String.eqb "greedyblosum" optarg then ret (set_mode o GREEDYBLOSUM)
    else if String.eqb "greedy" optarg then ret (set_mode o GREEDYBLOSUM)
    else cerr InvalidMode ;; usage
  else if Ascii.eqb c "h" then usage
  else if Ascii.eqb c "d" then ret (set_debug o true)
  else if Ascii.eqb c "v" then ret (set_verbose o true)
  else if Ascii.eqb c "o" then ret (set_output_filename o optarg)
  else if Ascii.eqb c "f" then ret (set_fmi_filename o optarg)
  else if Ascii.eqb c "i" then ret (set_in1_filename o optarg)
  else if Ascii.eqb c "j" then ret (set_in2_filename o optarg)
  else if Ascii.eqb c "l" then numeric_option c optarg o set_seed_length
  else if Ascii.eqb c "s" then numeric_option c optarg o set_min_score
  else if Ascii.eqb c "m" then numeric_option c optarg o set_min_fragment_length
  else if Ascii.eqb c "e" then numeric_option c optarg o set_mismatches
  else if Ascii.eqb c "z" then numeric_option c optarg o set_num_threads
  else usage.

(** The [while ((c = getopt (...)) != -1)] loop, line 59, over the option
    characters and arguments that [getopt] hands out. *)
Fixpoint getopt_loop (args : list (ascii * string)) (o : Options)
    : M Options :=
  match args with
  | [] => ret o
  | (c, optarg) :: args' =>
      o' <- handle_option o c optarg ;;
      getopt_loop args' o'
  end.

(** The range checks, lines 146-152. *)
Definition check_options (o : Options) : M unit :=
  (if min_score o <=? 0 then cerr ErrMinScore ;; usage else ret tt) ;;
  (if num_threads o <=? 0 then cerr ErrNumThreads ;; usage else ret tt) ;;
  (if min_fragment_length o <=? 0
   then cerr ErrMinFragmentLength ;; usage else ret tt) ;;
  (if mismatches o <? 0 then cerr ErrMismatches ;; usage else ret tt) ;;
  (if seed_length o <? 7 then cerr ErrSeedLength ;; usage else ret tt) ;;
  (if (String.length (fmi_filename o) =? 0)%nat
   then cerr ErrNoFmi ;; usage else ret tt) ;;
  (if (String.length (in1_filename o) =? 0)%nat
   then cerr ErrNoInput ;; usage else ret tt).

(** ** The environment of a run *)

(** The files that can be opened for reading, with their bytes, and the
    names that can be opened for writing. *)
Record Env := mk_Env {
  readable : string -> option text;
  writable : string -> bool
}.

(** ** Start-up, lines 154-205 *)

(** Lines 173-185: the index is read from the FMI file. *)
Definition read_database (env : Env) (o : Options) : M unit :=
  when (verbose o) (cerr ReadingDatabase) ;;
  when (verbose o) (cerr (ReadingFmIndex (fmi_filename o))) ;;
  match readable env (fmi_filename o) with
  | None => cerr (CouldNotOpen (fmi_filename o)) ;; usage
  | Some _ =>
      emit (ReadIndexes (fmi_filename o)) ;;
      when (debug o) (cerr BwtRead) ;;
      emit ConfigInit
  end.

(** Lines 187-196: the output sink. *)
Definition open_output (env : Env) (o : Options) : M unit :=
  if (0 <? String.length (output_filename o))%nat then
    cerr (OutputFile (output_filename o)) ;;
    if writable env (output_filename o)
    then emit (OpenOutput (output_filename o))
    else cerr (CouldNotOpenForWriting (output_filename o)) ;;
         exit EXIT_FAILURE
  else ret tt.

(** Lines 201-205: [count] more iterations of the [for] loop, whose counter
    is [i]; a thread is named by the value of [i] at which it was started.
    The two deques are returned. *)
Fixpoint spawn_loop (count : nat) (i : nat) (threadpointers threads : list nat)
    : M (list nat * list nat) :=
  match count with
  | O => ret (threadpointers, threads)
  | S count' =>
      emit (Spawn i) ;;
      spawn_loop count' (S i) (threadpointers ++ [i]) (threads ++ [i])
  end.

(** Lines 198-205. *)
Definition start_workers (o : Options) : M (list nat * list nat) :=
  emit (NewQueue 500) ;;
  spawn_loop (Z.to_nat (num_threads o)) 0%nat [] [].

(** Lines 207-215; the result is [paired]. *)
Definition open_inputs (env : Env) (o : Options) : M bool :=
  w <- get ;;
  emit (OpenIn1 (in1_filename o)) ;;
  set_in1 (ifstream_open (readable env (in1_filename o)) (in1_file w)) ;;
  w <- get ;;
  (if is_open (in1_file w) then ret tt
   else cerr (CouldNotOpen (in1_filename o)) ;; exit EXIT_FAILURE) ;;
  if (0 <? String.length (in2_filename o))%nat then
    emit (OpenIn2 (in2_filename o)) ;;
    set_in2 (ifstream_open (readable env (in2_filename o)) (in2_file w)) ;;
    w <- get ;;
    (if is_open (in2_file w) then ret tt
     else cerr (CouldNotOpen (in2_filename o)) ;; exit EXIT_FAILURE) ;;
    ret true
  else ret false.

(** ** Reading records, lines 218-304 *)

(** [getline(in1_file, line_from_file)]; the result is the stream converted
    to [bool], that is [!fail()]. *)
Definition getline_in1 : M bool :=
  w <- get ;;
  let (s, l) := getline (in1_file w) (line_from_file w) in
  set_in1 s ;; set_line l ;; ret (negb (failbit s)).

Definition getline_in2 : M bool :=
  w <- get ;;
  let (s, l) := getline (in2_file w) (line_from_file w) in
  set_in2 s ;; set_line l ;; ret (negb (failbit s)).

Definition ignore_in1 : M unit :=
  w <- get ;; set_in1 (ignore_line (in1_file w)).

Definition peek_in1 : M Z :=
  w <- get ;;
  let (s, c) := peek (in1_file w) in
  set_in1 s ;; ret c.

(** [s.front()]: the first character of [s]; on an empty string, the null
    character that ends the buffer. *)
Definition front (s : text) : ascii :=
  match s with
  | c :: _ => c
  | [] => zero
  end.

(** [line_from_file.erase(line_from_file.begin())]: undefined on an empty
    string, where [begin()] is [end()]. *)
Definition erase_begin : M unit :=
  w <- get ;;
  match line_from_file w with
  | _ :: l => set_line l
  | [] => halt Undefined
  end.

(** Lines 218-231: the format is read off the first line of file 1 and the
    stream is put back at its start. *)
Definition detect_format (o : Options) : M bool :=
  getline_in1 ;;
  w <- get ;;
  let fileTypeIdentifier := front (line_from_file w) in
  isFastQ <-
    (if Ascii.eqb fileTypeIdentifier "@" then ret true
     else if negb (Ascii.eqb fileTypeIdentifier ">") then
            cerr (AutoDetectionFailed (in1_filename o)) ;; exit EXIT_FAILURE
     else ret false) ;;
  w <- get ;;
  set_in1 (seekg_beg (in1_file w)) ;;
  ret isFastQ.

(** Lines 260-263 (and 293-296): the lines of a FASTA record, read from
    [in1_file] until [peek] sees a marker or the end. *)
Fixpoint fasta_lines (fuel : nat) : M unit :=
  match fuel with
  | O => halt Starved
  | S fuel' =>
      c1 <- peek_in1 ;;
      if c1 =? Z.of_N (N_of_ascii ">") then ret tt
      else
        c2 <- peek_in1 ;;
        if c2 =? EOF then ret tt
        else
          getline_in1 ;;
          w <- get ;;
          set_sequence1 (sequence1 w ++ line_from_file w) ;;
          fasta_lines fuel'
  end.

(** The body of the [while] loops: lines 240-266 for file 1, and lines
    273-300 for file 2, which are the same statements, on [in1_file] in both
    places.  On entry [line_from_file] holds the header line. *)
Definition read_record (isFastQ : bool) : M unit :=
  (if isFastQ then
     erase_begin ;;
     w <- get ;; set_name (line_from_file w) ;;
     getline_in1 ;;
     w <- get ;; set_line (strip (line_from_file w)) ;;
     w <- get ;; set_sequence1 (line_from_file w) ;;
     ignore_in1 ;;
     ignore_in1
   else
     erase_begin ;;
     w <- get ;; set_name (line_from_file w) ;;
     set_sequence1 [] ;;
     w <- get ;; fasta_lines (S (length (rest (in1_file w)))) ;;
     w <- get ;; set_sequence1 (strip (sequence1 w))) ;;
  w <- get ;;
  emit (Push (new_ReadItem (name w) (sequence1 w))).

(** Lines 239-268: [while(getline(in1_file,line_from_file))]. *)
Fixpoint file1_loop (fuel : nat) (isFastQ : bool) : M unit :=
  match fuel with
  | O => halt Starved
  | S fuel' =>
      more <- getline_in1 ;;
      if more then read_record isFastQ ;; file1_loop fuel' isFastQ
      else ret tt
  end.

(** Lines 272-302: [while(getline(in2_file,line_from_file))]. *)
Fixpoint file2_loop (fuel : nat) (isFastQ : bool) : M unit :=
  match fuel with
  | O => halt Starved
  | S fuel' =>
      more <- getline_in2 ;;
      if more then read_record isFastQ ;; file2_loop fuel' isFastQ
      else ret tt
  end.

(** Lines 239-304. *)
Definition read_files (paired isFastQ : bool) : M unit :=
  w <- get ;;
  file1_loop (S (length (rest (in1_file w)))) isFastQ ;;
  if paired then
    w <- get ;;
    file2_loop (S (length (rest (in2_file w)))) isFastQ
  else ret tt.

(** ** Shutdown, lines 306-327 *)

(** Lines 311-316: the threads are joined from the front of the deque. *)
Fixpoint join_loop (threads threadpointers : list nat) : M unit :=
  match threads with
  | [] => ret tt
  | t :: threads' =>
      emit (Join t) ;;
      match threadpointers with
      | p :: threadpointers' =>
          emit (DeleteThread p) ;;
          join_loop threads' threadpointers'
      | [] => halt Undefined
      end
  end.

Definition close_inputs (paired : bool) : M unit :=
  w <- get ;;
  (if is_open (in1_file w)
   then set_in1 (ifstream_close (in1_file w)) ;; emit CloseIn1
   else ret tt) ;;
  if paired && is_open (in2_file w)
  then set_in2 (ifstream_close (in2_file w)) ;; emit CloseIn2
  else ret tt.

Definition shutdown (o : Options) (paired : bool)
    (threads threadpointers : list nat) : M Z :=
  emit PushedLast ;;
  close_inputs paired ;;
  join_loop threads threadpointers ;;
  when (verbose o) (cerr Finished) ;;
  emit FlushOutput ;;
  when (0 <? String.length (output_filename o))%nat (emit CloseOutput) ;;
  emit DeleteQueue ;;
  emit DeleteConfig ;;
  ret EXIT_SUCCESS.

(** ** [main] *)

(** Lines 59-152: the options and their checks. *)
Definition parse_options (args : list (ascii * string)) : M Options :=
  o <- getopt_loop args default_Options ;;
  check_options o ;;
  ret o.

(** Lines 59-196: options, checks, index and output sink. *)
Definition configure (env : Env) (args : list (ascii * string)) : M Options :=
  o <- parse_options args ;;
  when (debug o) (cerr Parameters) ;;
  read_database env o ;;
  open_output env o ;;
  ret o.

(** Lines 218-304: detection, then the records of the input files. *)
Definition ingest (o : Options) (paired : bool) : M unit :=
  isFastQ <- detect_format o ;;
  when (verbose o) (cerr (StartSearch (num_threads o))) ;;
  read_files paired isFastQ.

Definition main (env : Env) (args : list (ascii * string)) : M Z :=
  o <- configure env args ;;
  pool <- start_workers o ;;
  paired <- open_inputs env o ;;
  ingest o paired ;;
  shutdown o paired (snd pool) (fst pool).

Definition world_of {A} (r : result A) : World :=
  match r with
  | Cont _ w => w
  | Halt _ w => w
  end.

(** How a run ends: [main] returned, or it stopped. *)
Inductive outcome :=
| Returned (status : Z)
| Stopped (o : stop).

Definition outcome_of (r : result Z) : outcome :=
  match r with
  | Cont status _ => Returned status
  | Halt o _ => Stopped o
  end.

(** A run of the program: how it ended and what the main thread did. *)
Definition run_main (env : Env) (args : list (ascii * string))
    : outcome * list event :=
  let r := main env args initial_World in
  (outcome_of r, events (world_of r)).

(** ** Reading a trace *)

(** The Work Items pushed, the threads started and the threads joined, each
    in the order of the trace. *)
Definition pushed (tr : list event) : list ReadItem :=
  flat_map (fun e => match e with Push r => [r] | _ => [] end) tr.

Definition spawned (tr : list event) : list nat :=
  flat_map (fun e => match e with Spawn i => [i] | _ => [] end) tr.

Definition joined (tr : list event) : list nat :=
  flat_map (fun e => match e with Join i => [i] | _ => [] end) tr.

(** [m] adds events to the trace, all of them in [P], and removes none. *)
Definition emits {A} (P : event -> Prop) (m : M A) : Prop :=
  forall w, exists l,
    events (world_of (m w)) = events w ++ l /\ Forall P l.

(** [m] does nothing to the world but add events of [P] to the trace. *)
Definition logs {A} (P : event -> Prop) (m : M A) : Prop :=
  forall w, exists l, world_of (m w) = log l w /\ Forall P l.

(** Classes of events. *)
Definition is_message (e : event) : Prop :=
  match e with
  | Cerr _ | UsageText => True
  | _ => False
  end.

Definition is_configuration (e : event) : Prop :=
  match e with
  | Cerr _ | UsageText | ReadIndexes _ | ConfigInit | OpenOutput _ => True
  | _ => False
  end.

Definition is_pool (e : event) : Prop :=
  match e with
  | NewQueue _ | Spawn _ => True
  | _ => False
  end.

Definition is_opening (e : event) : Prop :=
  match e with
  | Cerr _ | OpenIn1 _ | OpenIn2 _ => True
  | _ => False
  end.

Definition is_single_push (e : event) : Prop :=
  match e with
  | Push r => item_sequence2 r = None
  | _ => False
  end.

Definition is_ingest (e : event) : Prop :=
  match e with
  | Cerr _ => True
  | Push r => item_sequence2 r = None
  | _ => False
  end.

Definition is_closing (e : event) : Prop :=
  match e with
  | CloseIn1 | CloseIn2 => True
  | _ => False
  end.

Definition is_finishing (e : event) : Prop :=
  match e with
  | Cerr _ | FlushOutput | CloseOutput => True
  | _ => False
  end.

(** The events of the main thread up to the completion signal, and those
    from it on. *)
Definition is_upstream (e : event) : Prop :=
  match e with
  | PushedLast | CloseIn1 | CloseIn2 | Join _ | DeleteThread _
  | FlushOutput | CloseOutput | DeleteQueue | DeleteConfig => False
  | Push r => item_sequence2 r = None
  | _ => True
  end.

Definition is_downstream (e : event) : Prop :=
  match e with
  | PushedLast | CloseIn1 | CloseIn2 | Join _ | DeleteThread _ | Cerr _
  | FlushOutput | CloseOutput | DeleteQueue | DeleteConfig => True
  | _ => False
  end.


(** The events of joining the threads [l] in that order. *)
Definition joins (l : list nat) : list event :=
  flat_map (fun i => [Join i; DeleteThread i]) l.

(** ** Input texts, as the specification describes them *)

Definition no_newline (l : text) : bool :=
  forallb (fun c => negb (Ascii.eqb c newline)) l.

(** The text made of the lines [ls]; the last line may lack its newline. *)
Fixpoint join_lines (final_newline : bool) (ls : list text) : text :=
  match ls with
  | [] => []
  | [l] => if final_newline then l ++ [newline] else l
  | l :: ls' => l ++ newline :: join_lines final_newline ls'
  end.

(** A text whose last line lacks its newline has a last line. *)
Definition well_ended (final_newline : bool) (ls : list text) : Prop :=
  final_newline = false -> last ls [] <> [].

(** A FASTA block: the identifier that follows the marker, and the lines up
    to the next marker line. *)
Record fasta_record := mk_fasta_record {
  fa_id : text;
  fa_lines : list text
}.

Definition starts_with_marker (l : text) : bool :=
  match l with
  | c :: _ => Ascii.eqb c ">"
  | [] => false
  end.

Definition valid_fasta_record (r : fasta_record) : Prop :=
  no_newline (fa_id r) = true /\
  Forall (fun l => no_newline l = true /\ starts_with_marker l = false)
         (fa_lines r).

Definition fasta_block (r : fasta_record) : list text :=
  (">"%char :: fa_id r) :: fa_lines r.

Definition fasta_item (r : fasta_record) : ReadItem :=
  new_ReadItem (fa_id r) (filter isalpha (concat (fa_lines r))).

(** A FASTQ record: four lines. *)
Record fastq_record := mk_fastq_record {
  fq_id : text;
  fq_sequence : text;
  fq_separator : text;
  fq_quality : text
}.

Definition valid_fastq_record (r : fastq_record) : Prop :=
  no_newline (fq_id r) = true /\ no_newline (fq_sequence r) = true /\
  no_newline (fq_separator r) = true /\ no_newline (fq_quality r) = true.

Definition fastq_group (r : fastq_record) : list text :=
  [ "@"%char :: fq_id r; fq_sequence r; fq_separator r; fq_quality r ].

Definition fastq_item (r : fastq_record) : ReadItem :=
  new_ReadItem (fq_id r) (filter isalpha (fq_sequence r)).

(** The data [r] is the lines [ls], as [getline] cuts them. *)
Inductive holds_lines : text -> list text -> Prop :=
| holds_none : holds_lines [] []
| holds_last (l : text) :
    l <> [] -> no_newline l = true -> holds_lines l [l]
| holds_more (l r : text) (ls : list text) :
    no_newline l = true -> holds_lines r ls ->
    holds_lines (l ++ newline :: r) (l :: ls).

(** The stream [s] stands before the lines [ls]: a stream that is not good
    any more yields no line. *)
Definition before (s : ifstream) (ls : list text) : Prop :=
  (good s = true /\ holds_lines (rest s) ls) \/ (good s = false /\ ls = []).


(** ** The numeric options and their ranges *)

Definition is_numeric_option (c : ascii) : bool :=
  Ascii.eqb c "l" || Ascii.eqb c "s" || Ascii.eqb c "m"
  || Ascii.eqb c "e" || Ascii.eqb c "z".

(** The variable that the numeric option [c] sets. *)
Definition option_value (c : ascii) (o : Options) : Z :=
  if Ascii.eqb c "l" then seed_length o
  else if Ascii.eqb c "s" then min_score o
  else if Ascii.eqb c "m" then min_fragment_length o
  else if Ascii.eqb c "e" then mismatches o
  else num_threads o.

(** The values that the checks of lines 146-150 let through. *)
Definition in_valid_range (c : ascii) (v : Z) : bool :=
  if Ascii.eqb c "l" then 7 <=? v
  else if Ascii.eqb c "e" then 0 <=? v
  else 0 <? v.

(** The run stopped with a failure status and the main thread had done
    nothing but write messages. *)
Definition aborted_before_pipeline (r : outcome * list event) : Prop :=
  fst r = Stopped (Exited EXIT_FAILURE) /\ Forall is_message (snd r).

(** ** Sample runs *)

Definition text_of_lines (ls : list string) : text :=
  join_lines true (map str ls).

(** A file system with an index file and up to two files of reads. *)
Definition sample_env (reads1 reads2 : option text) : Env :=
  mk_Env (fun f => if String.eqb f "proteins.fmi" then Some []
                   else if String.eqb f "reads1" then reads1
                   else if String.eqb f "reads2" then reads2
                   else None)
         (fun _ => true).

Definition single_args : list (ascii * string) :=
  [("f"%char, "proteins.fmi"%string); ("i"%char, "reads1"%string)].

Definition paired_args : list (ascii * string) :=
  single_args ++ [("j"%char, "reads2"%string)].

Definition sample_fasta : text :=
  text_of_lines [">r1"; "AAAA"; ">r2"; "CCCC"]%string.


Definition sample_fastq1 : text :=
  text_of_lines ["@r1"; "ACGT"; "+"; "IIII"]%string.

Definition sample_fastq2 : text :=
  text_of_lines ["@m1"; "TTTT"; "+"; "IIII"]%string.

(** ** Worlds of a run *)

(** A stream just opened on the bytes [c]. *)
Definition opened (c : text) : ifstream := mk_ifstream true c c false false.

(** The options that [single_args] sets. *)
Definition single_options : Options :=
  mk_Options MEM 65 11 7 0 1 false false "proteins.fmi" "reads1" "" "".

(** What follows the lines of a FASTA block: nothing, or a marker line. *)
Definition block_end (tail : list text) : Prop :=
  match tail with
  | [] => True
  | h :: _ => starts_with_marker h = true
  end.

(** A second input file was named: the run is in paired mode. *)
Definition is_paired (o : Options) : bool :=
  (0 <? String.length (in2_filename o))%nat.

Definition sample_fasta_records : list fasta_record :=
  [mk_fasta_record (str "r1") [str "AAAA"];
   mk_fasta_record (str "r2") [str "CCCC"]].

Definition sample_fastq_records : list fastq_record :=
  [mk_fastq_record (str "r1") (str "ACGT") (str "+") (str "IIII")].

(** The iteration budget of the model was enough. *)
Definition not_starved {A} (r : result A) : Prop :=
  match r with
  | Halt Starved _ => False
  | _ => True
  end.

Definition never_starves {A} (m : M A) : Prop :=
  forall w, not_starved (m w).

(** ** Options, once more *)

(** The option characters after which the option loop goes on. *)
Definition continues_option (c : ascii) : bool :=
  existsb (Ascii.eqb c) (str "advofijlsmez").

(** The arguments that [-a] takes. *)
Definition valid_mode (optarg : string) : bool :=
  String.eqb "mem" optarg || String.eqb "greedyblosum" optarg
  || String.eqb "greedy" optarg.

(** What the checks of lines 146-152 let through. *)
Definition validated (o : Options) : Prop :=
  0 < min_score o /\ 0 < num_threads o /\ 0 < min_fragment_length o /\
  0 <= mismatches o /\ 7 <= seed_length o /\
  fmi_filename o <> ""%string /\ in1_filename o <> ""%string.

(** The five [int] variables hold values of an [int]. *)
Definition int_options (o : Options) : Prop :=
  (INT_MIN <= min_score o <= INT_MAX) /\
  (INT_MIN <= num_threads o <= INT_MAX) /\
  (INT_MIN <= min_fragment_length o <= INT_MAX) /\
  (INT_MIN <= mismatches o <= INT_MAX) /\
  (INT_MIN <= seed_length o <= INT_MAX).

(** ** How runs end *)

(** When [m] stops through [exit], the status is the failure status and the
    last thing the main thread did was to write a message. *)
Definition exits_after_message {A} (m : M A) : Prop :=
  forall w s w',
    m w = Halt (Exited s) w' ->
    s = EXIT_FAILURE /\
    exists tr e, events w' = tr ++ [e] /\ is_message e.

(** Events of the record loops and of the shutdown. *)
Definition is_work (e : event) : Prop := is_ingest e \/ is_downstream e.

(** ** Work Items and loose FASTQ texts *)

(** A Work Item whose sequence holds letters only and whose identifier is
    within one line. *)
Definition clean_item (r : ReadItem) : Prop :=
  forallb isalpha (item_sequence1 r) = true /\
  no_newline (item_name r) = true.

Definition is_clean_push (e : event) : Prop :=
  match e with
  | Push r => clean_item r
  | _ => True
  end.

(** The text made of the lines [ls], each one ended by a newline. *)
Definition terminated (ls : list text) : text :=
  flat_map (fun l => l ++ [newline]) ls.

(** A four-line group whose header line starts with any character at all. *)
Definition marked_group (g : ascii * fastq_record) : list text :=
  [ fst g :: fq_id (snd g); fq_sequence (snd g); fq_separator (snd g);
    fq_quality (snd g) ].

Definition marked_lines (gs : list (ascii * fastq_record)) : list text :=
  flat_map marked_group gs.

Definition marked_items (gs : list (ascii * fastq_record)) : list ReadItem :=
  map (fun g => fastq_item (snd g)) gs.

Definition valid_marked_group (g : ascii * fastq_record) : Prop :=
  fst g <> newline /\ valid_fastq_record (snd g).

(** The string starts with a decimal digit. *)
Definition starts_with_digit (s : string) : bool :=
  match s with
  | String c _ => match digit_of c with Some _ => true | None => false end
  | EmptyString => false
  end.

(** ** The second input file *)

(** The Work Item that the second loop makes of a line [l] of the second
    file, in FASTQ and in FASTA mode. *)
Definition second_file_item (isFastQ : bool) (l : text) : ReadItem :=
  new_ReadItem (tl l) (if isFastQ then filter isalpha (tl l) else []).

(** ** Properties of [strip] *)

Lemma isalpha_spec (c : ascii) :
  isalpha c = true <->
  (65 <= Z.of_N (N_of_ascii c) <= 90 \/ 97 <= Z.of_N (N_of_ascii c) <= 122).
Proof.
  unfold isalpha.
  change (char_val "a") with 97. change (char_val "z") with 122.
  change (char_val "A") with 65. change (char_val "Z") with 90.
  rewrite orb_true_iff, !andb_true_iff, !Z.leb_le.
  unfold char_val.
  pose proof (N_ascii_bounded c) as Hb.
  destruct (Z.of_N (N_of_ascii c) <? 128) eqn:E;
    [apply Z.ltb_lt in E | apply Z.ltb_ge in E]; lia.
Qed.

Lemma erase_at_middle (pre : text) (c : ascii) (post : text) :
  erase_at (pre ++ c :: post) (length pre) = pre ++ post.
Proof.
  unfold erase_at.
  rewrite firstn_app, firstn_all, Nat.sub_diag. simpl. rewrite app_nil_r.
  f_equal.
  induction pre as [|p pre IH]; [reflexivity | exact IH].
Qed.

Lemma strip_loop_invariant (post : text) :
  forall (fuel : nat) (pre : text),
    (length post < fuel)%nat ->
    strip_loop fuel (pre ++ post) (Z.of_nat (length pre))
    = Some (pre ++ filter isalpha post).
Proof.
  induction post as [|c post IH]; intros fuel pre Hfuel.
  - destruct fuel as [|k]; [simpl in Hfuel; lia|].
    simpl. rewrite app_nil_r, Z.eqb_refl. reflexivity.
  - destruct fuel as [|k]; [simpl in Hfuel; lia|].
    simpl in Hfuel.
    cbn [strip_loop].
    replace (Z.of_nat (length pre) =? Z.of_nat (length (pre ++ c :: post)))
      with false
      by (symmetry; apply Z.eqb_neq; rewrite length_app; simpl; lia).
    rewrite Nat2Z.id.
    rewrite nth_error_app2, Nat.sub_diag by lia. cbn [nth_error].
    cbn [filter].
    destruct (isalpha c) eqn:Hc.
    + replace (pre ++ c :: post) with ((pre ++ [c]) ++ post)
        by (rewrite <- app_assoc; reflexivity).
      replace (Z.of_nat (length pre) + 1) with (Z.of_nat (length (pre ++ [c])))
        by (rewrite length_app; simpl; lia).
      rewrite IH by lia. rewrite <- app_assoc. reflexivity.
    + rewrite erase_at_middle.
      replace (Z.of_nat (length pre) - 1 + 1) with (Z.of_nat (length pre)) by lia.
      apply IH. lia.
Qed.

Lemma strip_loop_filter (s : text) :
  strip_loop (S (length s)) s 0 = Some (filter isalpha s).
Proof.
  apply (strip_loop_invariant s (S (length s)) []). lia.
Qed.

Lemma strip_filter (s : text) : strip s = filter isalpha s.
Proof.
  unfold strip. rewrite strip_loop_filter. reflexivity.
Qed.

(** ** The monad and the trace *)

Lemma bind_Cont {A B} (m : M A) (k : A -> M B) (w : World) a w' :
  m w = Cont a w' -> bind m k w = k a w'.
Proof. intros H. unfold bind. rewrite H. reflexivity. Qed.

Lemma bind_Halt {A B} (m : M A) (k : A -> M B) (w : World) o w' :
  m w = Halt o w' -> bind m k w = Halt o w'.
Proof. intros H. unfold bind. rewrite H. reflexivity. Qed.

Lemma bind_inv {A B} (m : M A) (k : A -> M B) (w : World) b w' :
  bind m k w = Cont b w' ->
  exists a w1, m w = Cont a w1 /\ k a w1 = Cont b w'.
Proof.
  unfold bind. destruct (m w) as [a w1|o w1]; intros H.
  - exists a, w1. split; [reflexivity | exact H].
  - discriminate H.
Qed.

Lemma log_log (l1 l2 : list event) (w : World) :
  log l2 (log l1 w) = log (l1 ++ l2) w.
Proof. unfold log. simpl. rewrite app_assoc. reflexivity. Qed.

Lemma log_nil (w : World) : log [] w = w.
Proof. destruct w. unfold log. simpl. rewrite app_nil_r. reflexivity. Qed.

Section Emits.
Variable P : event -> Prop.

Lemma emits_ret {A} (a : A) : emits P (ret a).
Proof. intros w. exists []. simpl. rewrite app_nil_r. auto. Qed.

Lemma emits_halt {A} (o : stop) : emits P (@halt A o).
Proof. intros w. exists []. simpl. rewrite app_nil_r. auto. Qed.

Lemma emits_get : emits P get.
Proof. intros w. exists []. simpl. rewrite app_nil_r. auto. Qed.

Lemma emits_set_in1 s : emits P (set_in1 s).
Proof. intros w. exists []. simpl. rewrite app_nil_r. auto. Qed.

Lemma emits_set_in2 s : emits P (set_in2 s).
Proof. intros w. exists []. simpl. rewrite app_nil_r. auto. Qed.

Lemma emits_set_line l : emits P (set_line l).
Proof. intros w. exists []. simpl. rewrite app_nil_r. auto. Qed.

Lemma emits_set_name n : emits P (set_name n).
Proof. intros w. exists []. simpl. rewrite app_nil_r. auto. Qed.

Lemma emits_set_sequence1 q : emits P (set_sequence1 q).
Proof. intros w. exists []. simpl. rewrite app_nil_r. auto. Qed.

Lemma emits_emit e : P e -> emits P (emit e).
Proof. intros He w. exists [e]. simpl. auto. Qed.

Lemma emits_bind {A B} (m : M A) (k : A -> M B) :
  emits P m -> (forall a, emits P (k a)) -> emits P (bind m k).
Proof.
  intros Hm Hk w. unfold bind.
  destruct (Hm w) as [l1 [E1 F1]].
  destruct (m w) as [a w1|o w1]; simpl in E1.
  - destruct (Hk a w1) as [l2 [E2 F2]].
    exists (l1 ++ l2). rewrite E2, E1, app_assoc.
    split; [reflexivity | apply Forall_app; auto].
  - exists l1. simpl. auto.
Qed.
End Emits.

Lemma emits_weaken {A} (P Q : event -> Prop) (m : M A) :
  (forall e, P e -> Q e) -> emits P m -> emits Q m.
Proof.
  intros HPQ Hm w. destruct (Hm w) as [l [E F]].
  exists l. split; [exact E | eapply Forall_impl; eauto].
Qed.

(** One step of a proof that a computation only emits events of a class. *)
Ltac emits_step :=
  match goal with
  | |- emits _ (bind _ _) => apply emits_bind; [| intros ?]
  | |- emits _ (ret _) => apply emits_ret
  | |- emits _ (halt _) => apply emits_halt
  | |- emits _ (exit _) => apply emits_halt
  | |- emits _ get => apply emits_get
  | |- emits _ (set_in1 _) => apply emits_set_in1
  | |- emits _ (set_in2 _) => apply emits_set_in2
  | |- emits _ (set_line _) => apply emits_set_line
  | |- emits _ (set_name _) => apply emits_set_name
  | |- emits _ (set_sequence1 _) => apply emits_set_sequence1
  | |- emits _ (emit _) => apply emits_emit; simpl; auto
  | |- emits _ (cerr _) => apply emits_emit; simpl; auto
  | |- emits _ usage => unfold usage
  | |- emits _ (when ?b _) => unfold when; destruct b
  | |- emits _ (if ?b then _ else _) => destruct b
  | |- emits _ (let (_, _) := ?p in _) => destruct p
  | |- emits _ (match ?x with _ => _ end) => destruct x
  end.

Ltac emits_auto := repeat emits_step.

(** ** What each stage of [main] emits *)

Section Logs.
Variable P : event -> Prop.

Lemma logs_ret {A} (a : A) : logs P (ret a).
Proof. intros w. exists []. simpl. rewrite log_nil. auto. Qed.

Lemma logs_halt {A} (o : stop) : logs P (@halt A o).
Proof. intros w. exists []. simpl. rewrite log_nil. auto. Qed.

Lemma logs_emit e : P e -> logs P (emit e).
Proof. intros He w. exists [e]. simpl. auto. Qed.

Lemma logs_bind {A B} (m : M A) (k : A -> M B) :
  logs P m -> (forall a, logs P (k a)) -> logs P (bind m k).
Proof.
  intros Hm Hk w. unfold bind.
  destruct (Hm w) as [l1 [E1 F1]].
  destruct (m w) as [a w1|o w1]; simpl in E1.
  - destruct (Hk a w1) as [l2 [E2 F2]].
    exists (l1 ++ l2). rewrite E2, E1, log_log.
    split; [reflexivity | apply Forall_app; auto].
  - exists l1. simpl. auto.
Qed.

Lemma logs_emits {A} (m : M A) : logs P m -> emits P m.
Proof.
  intros Hm w. destruct (Hm w) as [l [E F]].
  exists l. rewrite E. simpl. auto.
Qed.
End Logs.

Lemma logs_weaken {A} (P Q : event -> Prop) (m : M A) :
  (forall e, P e -> Q e) -> logs P m -> logs Q m.
Proof.
  intros HPQ Hm w. destruct (Hm w) as [l [E F]].
  exists l. split; [exact E | eapply Forall_impl; eauto].
Qed.

Ltac logs_step :=
  match goal with
  | |- logs _ (bind _ _) => apply logs_bind; [| intros ?]
  | |- logs _ (ret _) => apply logs_ret
  | |- logs _ (halt _) => apply logs_halt
  | |- logs _ (exit _) => apply logs_halt
  | |- logs _ (emit _) => apply logs_emit; simpl; auto
  | |- logs _ (cerr _) => apply logs_emit; simpl; auto
  | |- logs _ usage => unfold usage
  | |- logs _ (when ?b _) => unfold when; destruct b
  | |- logs _ (if ?b then _ else _) => destruct b
  | |- logs _ (match ?x with _ => _ end) => destruct x
  end.

Ltac logs_auto := repeat logs_step.

Lemma numeric_option_logs c optarg o set :
  logs is_message (numeric_option c optarg o set).
Proof. unfold numeric_option. logs_auto. Qed.

Lemma handle_option_logs o c optarg :
  logs is_message (handle_option o c optarg).
Proof.
  unfold handle_option.
  repeat first [apply numeric_option_logs | logs_step].
Qed.

Lemma getopt_loop_logs args :
  forall o, logs is_message (getopt_loop args o).
Proof.
  induction args as [|[c optarg] args IH]; intros o; simpl.
  - apply logs_ret.
  - apply logs_bind; [apply handle_option_logs | intros o'; apply IH].
Qed.

Lemma check_options_logs o : logs is_message (check_options o).
Proof. unfold check_options. logs_auto. Qed.

Lemma parse_options_logs args : logs is_message (parse_options args).
Proof.
  unfold parse_options.
  apply logs_bind; [apply getopt_loop_logs | intros o].
  apply logs_bind; [apply check_options_logs | intros _; apply logs_ret].
Qed.

Lemma is_message_configuration e : is_message e -> is_configuration e.
Proof. destruct e; simpl; auto. Qed.

Lemma configure_logs env args : logs is_configuration (configure env args).
Proof.
  unfold configure.
  apply logs_bind;
    [eapply logs_weaken; [apply is_message_configuration
                         | apply parse_options_logs] | intros o].
  unfold read_database, open_output. logs_auto.
Qed.

Lemma configure_emits env args : emits is_configuration (configure env args).
Proof. apply logs_emits, configure_logs. Qed.

Lemma spawn_loop_emits count :
  forall i tp th, emits is_pool (spawn_loop count i tp th).
Proof.
  induction count as [|count IH]; intros i tp th; simpl.
  - apply emits_ret.
  - apply emits_bind; [emits_auto | intros _; apply IH].
Qed.

Lemma start_workers_emits o : emits is_pool (start_workers o).
Proof.
  unfold start_workers.
  apply emits_bind; [emits_auto | intros _; apply spawn_loop_emits].
Qed.

Lemma open_inputs_emits env o : emits is_opening (open_inputs env o).
Proof. unfold open_inputs. emits_auto. Qed.

Lemma getline_in1_emits P : emits P getline_in1.
Proof. unfold getline_in1. emits_auto. Qed.

Lemma getline_in2_emits P : emits P getline_in2.
Proof. unfold getline_in2. emits_auto. Qed.

Lemma ignore_in1_emits P : emits P ignore_in1.
Proof. unfold ignore_in1. emits_auto. Qed.

Lemma peek_in1_emits P : emits P peek_in1.
Proof. unfold peek_in1. emits_auto. Qed.

Lemma erase_begin_emits P : emits P erase_begin.
Proof. unfold erase_begin. emits_auto. Qed.

Lemma detect_format_emits P o :
  (forall d, P (Cerr d)) -> emits P (detect_format o).
Proof.
  intros HP. unfold detect_format.
  apply emits_bind; [apply getline_in1_emits | intros _].
  emits_auto.
Qed.

Lemma fasta_lines_emits P fuel : emits P (fasta_lines fuel).
Proof.
  induction fuel as [|fuel IH]; simpl.
  - apply emits_halt.
  - apply emits_bind; [apply peek_in1_emits | intros c1].
    destruct (c1 =? _); [apply emits_ret|].
    apply emits_bind; [apply peek_in1_emits | intros c2].
    destruct (c2 =? _); [apply emits_ret|].
    apply emits_bind; [apply getline_in1_emits | intros _].
    apply emits_bind; [apply emits_get | intros w].
    apply emits_bind; [apply emits_set_sequence1 | intros _].
    exact IH.
Qed.

Lemma read_record_emits isFastQ : emits is_single_push (read_record isFastQ).
Proof.
  unfold read_record.
  apply emits_bind.
  - destruct isFastQ;
      repeat first [ apply getline_in1_emits | apply ignore_in1_emits
                   | apply erase_begin_emits | apply fasta_lines_emits
                   | emits_step ].
  - intros _. emits_auto.
Qed.

Lemma file1_loop_emits isFastQ fuel :
  emits is_single_push (file1_loop fuel isFastQ).
Proof.
  induction fuel as [|fuel IH]; simpl.
  - apply emits_halt.
  - apply emits_bind; [apply getline_in1_emits | intros more].
    destruct more; [| apply emits_ret].
    apply emits_bind; [apply read_record_emits | intros _; exact IH].
Qed.

Lemma file2_loop_emits isFastQ fuel :
  emits is_single_push (file2_loop fuel isFastQ).
Proof.
  induction fuel as [|fuel IH]; simpl.
  - apply emits_halt.
  - apply emits_bind; [apply getline_in2_emits | intros more].
    destruct more; [| apply emits_ret].
    apply emits_bind; [apply read_record_emits | intros _; exact IH].
Qed.

Lemma read_files_emits paired isFastQ :
  emits is_single_push (read_files paired isFastQ).
Proof.
  unfold read_files.
  apply emits_bind; [apply emits_get | intros w].
  apply emits_bind; [apply file1_loop_emits | intros _].
  destruct paired; [| apply emits_ret].
  apply emits_bind; [apply emits_get | intros w2].
  apply file2_loop_emits.
Qed.

Lemma ingest_emits o paired : emits is_ingest (ingest o paired).
Proof.
  unfold ingest.
  apply emits_bind; [apply detect_format_emits; simpl; auto | intros isFastQ].
  apply emits_bind; [emits_auto | intros _].
  eapply emits_weaken; [| apply read_files_emits].
  intros e; destruct e; simpl; auto.
Qed.

Lemma join_loop_emits threads :
  forall threadpointers, emits is_downstream (join_loop threads threadpointers).
Proof.
  induction threads as [|t threads IH]; intros tp; simpl.
  - apply emits_ret.
  - apply emits_bind; [emits_auto | intros _].
    destruct tp as [|p tp]; [apply emits_halt|].
    apply emits_bind; [emits_auto | intros _; apply IH].
Qed.

Lemma shutdown_emits o paired threads threadpointers :
  emits is_downstream (shutdown o paired threads threadpointers).
Proof.
  unfold shutdown, close_inputs.
  repeat first [apply join_loop_emits | emits_step].
Qed.


(** ** Exact runs of the start-up and shutdown loops *)

Lemma spawn_loop_run count :
  forall i tp th w,
    spawn_loop count i tp th w
    = Cont (tp ++ seq i count, th ++ seq i count)
           (log (map Spawn (seq i count)) w).
Proof.
  induction count as [|count IH]; intros i tp th w; simpl.
  - rewrite !app_nil_r, log_nil. reflexivity.
  - unfold bind, emit. rewrite IH, log_log, <- !app_assoc. reflexivity.
Qed.

Lemma start_workers_run o w :
  start_workers o w
  = Cont (seq 0 (Z.to_nat (num_threads o)), seq 0 (Z.to_nat (num_threads o)))
         (log (NewQueue 500 :: map Spawn (seq 0 (Z.to_nat (num_threads o)))) w).
Proof.
  unfold start_workers, bind, emit.
  rewrite spawn_loop_run, log_log. reflexivity.
Qed.

Lemma join_loop_run l :
  forall w, join_loop l l w = Cont tt (log (joins l) w).
Proof.
  induction l as [|t l IH]; intros w; simpl.
  - rewrite log_nil. reflexivity.
  - unfold bind, emit. rewrite IH, !log_log. reflexivity.
Qed.

Lemma close_inputs_run paired w :
  exists w' closing,
    close_inputs paired w = Cont tt w' /\
    events w' = events w ++ closing /\ Forall is_closing closing.
Proof.
  unfold close_inputs, bind, get, set_in1, set_in2, emit, ret.
  destruct (is_open (in1_file w));
    destruct (paired && is_open (in2_file w))%bool.
  - eexists _, [CloseIn1; CloseIn2]. split; [reflexivity|].
    split; [simpl; rewrite <- app_assoc; reflexivity | repeat constructor].
  - eexists _, [CloseIn1]. split; [reflexivity|].
    split; [reflexivity | repeat constructor].
  - eexists _, [CloseIn2]. split; [reflexivity|].
    split; [reflexivity | repeat constructor].
  - eexists _, []. split; [reflexivity|].
    split; [simpl; rewrite app_nil_r; reflexivity | constructor].
Qed.

Lemma finish_run (v b : bool) (w : World) :
  (when v (cerr Finished) ;;
   emit FlushOutput ;;
   when b (emit CloseOutput) ;;
   emit DeleteQueue ;;
   emit DeleteConfig ;;
   ret EXIT_SUCCESS) w
  = Cont EXIT_SUCCESS
      (log (((if v then [Cerr Finished] else [])
             ++ FlushOutput :: (if b then [CloseOutput] else []))
            ++ [DeleteQueue; DeleteConfig]) w).
Proof.
  destruct v, b; unfold when, cerr, emit, bind, ret;
    rewrite !log_log; reflexivity.
Qed.

Lemma shutdown_run o paired l w :
  exists w' closing finishing,
    shutdown o paired l l w = Cont EXIT_SUCCESS w' /\
    events w' = events w ++ PushedLast :: closing ++ joins l ++ finishing
                         ++ [DeleteQueue; DeleteConfig] /\
    Forall is_closing closing /\ Forall is_finishing finishing.
Proof.
  unfold shutdown.
  rewrite (bind_Cont _ _ w tt (log [PushedLast] w) eq_refl).
  destruct (close_inputs_run paired (log [PushedLast] w))
    as (w1 & closing & E1 & H1 & F1).
  rewrite (bind_Cont _ _ _ _ _ E1).
  rewrite (bind_Cont _ _ _ _ _ (join_loop_run l w1)).
  rewrite finish_run.
  eexists _, closing,
    ((if verbose o then [Cerr Finished] else [])
     ++ FlushOutput :: (if (0 <? String.length (output_filename o))%nat
                        then [CloseOutput] else [])).
  split; [reflexivity|].
  split.
  - simpl. rewrite H1. simpl. rewrite <- !app_assoc. reflexivity.
  - split; [exact F1|].
    destruct (verbose o), (0 <? String.length (output_filename o))%nat;
      repeat constructor.
Qed.

(** ** Claims about [strip] and about the Work Items *)

(** C10: for every string [s], [strip] removes exactly the characters
    outside the ASCII ranges A-Z and a-z and keeps the others in their
    order: the result is [s] filtered by [isalpha], the loop ends through its
    own test, and [isalpha] holds of the codes 65-90 and 97-122 only. *)
Theorem strip_keeps_exactly_the_letters (s : text) :
  strip s = filter isalpha s /\
  strip_loop (S (length s)) s 0 = Some (filter isalpha s) /\
  (forall c : ascii,
      isalpha c = true <->
      (65 <= Z.of_N (N_of_ascii c) <= 90 \/ 97 <= Z.of_N (N_of_ascii c) <= 122)).
Proof.
  split; [apply strip_filter|].
  split; [apply strip_loop_filter|].
  apply isalpha_spec.
Qed.


(** ** Reading traces *)

Lemma flat_map_nil {A B} (f : A -> list B) (l : list A) :
  Forall (fun x => f x = []) l -> flat_map f l = [].
Proof.
  induction 1 as [|x l Hx _ IH]; simpl; [reflexivity|].
  rewrite Hx, IH. reflexivity.
Qed.

Lemma pushed_app l1 l2 : pushed (l1 ++ l2) = pushed l1 ++ pushed l2.
Proof. apply flat_map_app. Qed.

Lemma spawned_app l1 l2 : spawned (l1 ++ l2) = spawned l1 ++ spawned l2.
Proof. apply flat_map_app. Qed.

Lemma joined_app l1 l2 : joined (l1 ++ l2) = joined l1 ++ joined l2.
Proof. apply flat_map_app. Qed.

Lemma spawned_map_Spawn l : spawned (map Spawn l) = l.
Proof. induction l as [|i l IH]; simpl; [|rewrite IH]; reflexivity. Qed.

Lemma joined_joins l : joined (joins l) = l.
Proof. induction l as [|i l IH]; simpl; [|rewrite IH]; reflexivity. Qed.

Lemma pushed_map_Push l : pushed (map Push l) = l.
Proof. induction l as [|i l IH]; simpl; [|rewrite IH]; reflexivity. Qed.

(** A reader that is empty on every event of a class is empty on a trace of
    that class. *)
Ltac reader_nil H :=
  apply flat_map_nil; eapply Forall_impl; [| exact H];
  intros e; destruct e; simpl; intros; solve [reflexivity | contradiction].

Lemma joins_class l : Forall is_downstream (joins l).
Proof. induction l; simpl; repeat constructor; auto. Qed.

Lemma not_In_class (P : event -> Prop) (e : event) (l : list event) :
  Forall P l -> ~ P e -> ~ In e l.
Proof.
  intros F Hn Hin. apply Hn.
  rewrite Forall_forall in F. apply F. exact Hin.
Qed.

(** The shape of the trace of a run in which [main] returns. *)
Lemma main_returns_trace env args status :
  fst (run_main env args) = Returned status ->
  exists pre closing finishing n,
    snd (run_main env args)
    = pre ++ PushedLast :: closing ++ joins (seq 0 n) ++ finishing
          ++ [DeleteQueue; DeleteConfig] /\
    status = EXIT_SUCCESS /\
    Forall is_upstream pre /\ spawned pre = seq 0 n /\
    Forall is_closing closing /\ Forall is_finishing finishing.
Proof.
  unfold run_main. simpl.
  destruct (main env args initial_World) as [st w'|o w'] eqn:E;
    simpl; [| discriminate].
  intros Hst. injection Hst as ->.
  unfold main in E.
  apply bind_inv in E. destruct E as (o & w1 & E1 & E).
  apply bind_inv in E. destruct E as (pool & w2 & E2 & E).
  apply bind_inv in E. destruct E as (paired & w3 & E3 & E).
  apply bind_inv in E. destruct E as ([] & w4 & E4 & E).
  destruct (configure_emits env args initial_World) as (l1 & H1 & F1).
  rewrite E1 in H1. simpl in H1.
  rewrite start_workers_run in E2. injection E2 as <- <-.
  destruct (open_inputs_emits env o
              (log (NewQueue 500 :: map Spawn (seq 0 (Z.to_nat (num_threads o)))) w1))
    as (l3 & H3 & F3).
  rewrite E3 in H3. simpl in H3.
  destruct (ingest_emits o paired w3) as (l4 & H4 & F4).
  rewrite E4 in H4. simpl in H4.
  simpl in E.
  destruct (shutdown_run o paired (seq 0 (Z.to_nat (num_threads o))) w4)
    as (w5 & closing & finishing & E5 & H5 & Fc & Ff).
  rewrite E5 in E. injection E as <- <-.
  exists (l1 ++ (NewQueue 500 :: map Spawn (seq 0 (Z.to_nat (num_threads o))))
             ++ l3 ++ l4), closing, finishing, (Z.to_nat (num_threads o)).
  split.
  { rewrite H5, H4, H3, H1. rewrite <- !app_assoc. reflexivity. }
  split; [reflexivity|].
  split.
  { apply Forall_app; split; [| apply Forall_app; split;
                                  [| apply Forall_app; split]].
    - eapply Forall_impl; [| exact F1]. intros e; destruct e; simpl; tauto.
    - constructor; [exact I|].
      apply Forall_forall. intros e He. apply in_map_iff in He.
      destruct He as (i & <- & _). exact I.
    - eapply Forall_impl; [| exact F3]. intros e; destruct e; simpl; tauto.
    - eapply Forall_impl; [| exact F4]. intros e; destruct e; simpl; tauto. }
  split.
  { rewrite !spawned_app. simpl. rewrite spawned_map_Spawn.
    replace (spawned l1) with (@nil nat) by (symmetry; reader_nil F1).
    replace (spawned l3) with (@nil nat) by (symmetry; reader_nil F3).
    replace (spawned l4) with (@nil nat) by (symmetry; reader_nil F4).
    simpl. rewrite app_nil_r. reflexivity. }
  split; assumption.
Qed.

(** C8: in every run in which [main] returns, [pushedLast] occurs exactly
    once in the trace, no Work Item is pushed after it, no thread is joined
    before it, the threads joined are the threads spawned, in the order in
    which they were spawned, and the queue and the configuration are deleted
    last, after every join. *)
Theorem completion_signal_once_then_joins env args status :
  fst (run_main env args) = Returned status ->
  exists pre mid,
    snd (run_main env args)
    = pre ++ PushedLast :: mid ++ [DeleteQueue; DeleteConfig] /\
    ~ In PushedLast pre /\ ~ In PushedLast mid /\
    pushed mid = [] /\
    joined pre = [] /\
    joined mid = spawned (snd (run_main env args)) /\
    ~ In DeleteQueue (pre ++ PushedLast :: mid) /\
    ~ In DeleteConfig (pre ++ PushedLast :: mid).
Proof.
  intros Hret.
  destruct (main_returns_trace env args status Hret)
    as (pre & closing & finishing & n & Htr & _ & Fpre & Hsp & Fc & Ff).
  exists pre, (closing ++ joins (seq 0 n) ++ finishing).
  assert (Fmid : Forall is_downstream (closing ++ joins (seq 0 n) ++ finishing)).
  { apply Forall_app; split; [| apply Forall_app; split].
    - eapply Forall_impl; [| exact Fc]. intros e; destruct e; simpl; tauto.
    - apply joins_class.
    - eapply Forall_impl; [| exact Ff]. intros e; destruct e; simpl; tauto. }
  split; [rewrite Htr, <- !app_assoc; reflexivity|].
  split; [apply (not_In_class _ _ _ Fpre); simpl; tauto|].
  split.
  { intros Hin. repeat (apply in_app_or in Hin; destruct Hin as [Hin|Hin]).
    - apply (not_In_class _ _ _ Fc) in Hin; simpl; tauto.
    - unfold joins in Hin. apply in_flat_map in Hin.
      destruct Hin as (i & _ & [Hi|[Hi|[]]]); discriminate Hi.
    - apply (not_In_class _ _ _ Ff) in Hin; simpl; tauto. }
  split; [reader_nil Fmid|].
  split; [reader_nil Fpre|].
  split.
  { rewrite Htr. rewrite !joined_app, joined_joins.
    rewrite spawned_app. simpl. rewrite !spawned_app.
    replace (joined closing) with (@nil nat) by (symmetry; reader_nil Fc).
    replace (joined finishing) with (@nil nat) by (symmetry; reader_nil Ff).
    replace (spawned closing) with (@nil nat) by (symmetry; reader_nil Fc).
    replace (spawned finishing) with (@nil nat) by (symmetry; reader_nil Ff).
    replace (spawned (joins (seq 0 n))) with (@nil nat)
      by (symmetry; reader_nil (joins_class (seq 0 n))).
    simpl. rewrite !app_nil_r. symmetry. exact Hsp. }
  assert (Fall : forall e, In e (pre ++ PushedLast :: closing
                                  ++ joins (seq 0 n) ++ finishing) ->
                          is_upstream e \/ e = PushedLast \/ is_closing e
                          \/ (exists i, e = Join i \/ e = DeleteThread i)
                          \/ is_finishing e).
  { intros e Hin. rewrite Forall_forall in Fpre, Fc, Ff.
    apply in_app_or in Hin. destruct Hin as [Hin|[Hin|Hin]].
    - left. apply Fpre, Hin.
    - right; left. symmetry. exact Hin.
    - apply in_app_or in Hin. destruct Hin as [Hin|Hin].
      + right; right; left. apply Fc, Hin.
      + apply in_app_or in Hin. destruct Hin as [Hin|Hin].
        * unfold joins in Hin. apply in_flat_map in Hin.
          destruct Hin as (i & _ & [Hi|[Hi|[]]]);
            right; right; right; left; exists i; [left | right];
            symmetry; exact Hi.
        * right; right; right; right. apply Ff, Hin. }
  split; intros Hin; apply Fall in Hin;
    destruct Hin as [H|[H|[H|[(i & [H|H])|H]]]];
    solve [exact H | discriminate H].
Qed.

(** ** The numeric options *)

Lemma numeric_cases c :
  is_numeric_option c = true ->
  c = "l"%char \/ c = "s"%char \/ c = "m"%char \/ c = "e"%char \/ c = "z"%char.
Proof.
  unfold is_numeric_option. rewrite !orb_true_iff, !Ascii.eqb_eq. tauto.
Qed.

Lemma handle_numeric_value o c optarg v w :
  is_numeric_option c = true ->
  stoi optarg = StoiValue v ->
  exists o', handle_option o c optarg w = Cont o' w /\ option_value c o' = v.
Proof.
  intros Hc Hv. apply numeric_cases in Hc.
  destruct Hc as [->|[->|[->|[->| ->]]]];
    unfold handle_option, numeric_option; simpl; rewrite Hv;
    eexists; split; reflexivity.
Qed.

Lemma handle_option_keeps o c optarg w o' w' c0 :
  is_numeric_option c0 = true ->
  handle_option o c optarg w = Cont o' w' ->
  (c = c0 -> forall v, stoi optarg <> StoiValue v) ->
  option_value c0 o' = option_value c0 o.
Proof.
  intros Hc0 Hrun Hne. apply numeric_cases in Hc0.
  unfold handle_option, numeric_option in Hrun.
  repeat match type of Hrun with
         | context [Ascii.eqb c ?x] =>
             destruct (Ascii.eqb_spec c x) as [->|?]
         | context [String.eqb ?x ?y] => destruct (String.eqb x y)
         end;
    try (destruct (stoi optarg) as [v| |] eqn:Hv);
    unfold usage, bind, cerr, emit, ret, exit, halt in Hrun;
    try discriminate Hrun;
    injection Hrun as <- <-;
    destruct Hc0 as [->|[->|[->|[->| ->]]]];
    try reflexivity;
    exfalso; eapply Hne; eauto.
Qed.

Lemma getopt_loop_keeps c0 args :
  forall o w o' w',
    is_numeric_option c0 = true ->
    getopt_loop args o w = Cont o' w' ->
    (forall a, In a args -> fst a = c0 ->
               forall v, stoi (snd a) <> StoiValue v) ->
    option_value c0 o' = option_value c0 o.
Proof.
  induction args as [|[c optarg] args IH]; intros o w o' w' Hc0 Hrun Hne.
  - simpl in Hrun. injection Hrun as <- <-. reflexivity.
  - simpl in Hrun. apply bind_inv in Hrun.
    destruct Hrun as (o1 & w1 & H1 & H2).
    rewrite (IH _ _ _ _ Hc0 H2) by (intros a Ha; apply Hne; right; exact Ha).
    eapply handle_option_keeps; eauto.
    intros Heq. apply (Hne (c, optarg)); [left; reflexivity | exact Heq].
Qed.

Lemma getopt_loop_app args1 args2 o w :
  getopt_loop (args1 ++ args2) o w
  = bind (getopt_loop args1 o) (getopt_loop args2) w.
Proof.
  revert o w. induction args1 as [|[c optarg] args1 IH]; intros o w; simpl.
  - reflexivity.
  - unfold bind in *.
    destruct (handle_option o c optarg w) as [o1 w1|s w1]; [|reflexivity].
    rewrite IH. reflexivity.
Qed.

(** The option loop and the checks stop through [usage] only. *)
Lemma handle_option_stops o c optarg w s w' :
  handle_option o c optarg w = Halt s w' -> s = Exited EXIT_FAILURE.
Proof.
  unfold handle_option, numeric_option.
  repeat match goal with
         | |- context [Ascii.eqb c ?x] => destruct (Ascii.eqb c x)
         | |- context [String.eqb ?x ?y] => destruct (String.eqb x y)
         end;
    try (destruct (stoi optarg));
    unfold usage, bind, cerr, emit, ret, exit, halt;
    intros H; try discriminate H; injection H as <- _; reflexivity.
Qed.

Lemma getopt_loop_stops args :
  forall o w s w',
    getopt_loop args o w = Halt s w' -> s = Exited EXIT_FAILURE.
Proof.
  induction args as [|[c optarg] args IH]; intros o w s w' H; simpl in H.
  - discriminate H.
  - unfold bind in H.
    destruct (handle_option o c optarg w) as [o1 w1|s1 w1] eqn:E.
    + eapply IH; eauto.
    + injection H as <- _. eapply handle_option_stops; eauto.
Qed.

Lemma check_options_out_of_range c o w :
  is_numeric_option c = true ->
  in_valid_range c (option_value c o) = false ->
  exists w', check_options o w = Halt (Exited EXIT_FAILURE) w'.
Proof.
  intros Hc Hr. apply numeric_cases in Hc.
  unfold check_options, usage, bind, cerr, emit, ret, exit, halt.
  destruct (min_score o <=? 0) eqn:E1; [eexists; reflexivity|].
  destruct (num_threads o <=? 0) eqn:E2; [eexists; reflexivity|].
  destruct (min_fragment_length o <=? 0) eqn:E3; [eexists; reflexivity|].
  destruct (mismatches o <? 0) eqn:E4; [eexists; reflexivity|].
  destruct (seed_length o <? 7) eqn:E5; [eexists; reflexivity|].
  exfalso.
  apply Z.leb_gt in E1, E2, E3. apply Z.ltb_ge in E4, E5.
  destruct Hc as [->|[->|[->|[->| ->]]]];
    unfold in_valid_range, option_value in Hr; simpl in Hr;
    first [apply Z.leb_gt in Hr | apply Z.ltb_ge in Hr]; lia.
Qed.

Lemma parse_options_out_of_range args before c optarg after v w :
  args = before ++ (c, optarg) :: after ->
  is_numeric_option c = true ->
  stoi optarg = StoiValue v ->
  in_valid_range c v = false ->
  (forall a, In a after -> fst a = c ->
             forall v', stoi (snd a) <> StoiValue v') ->
  exists w', parse_options args w = Halt (Exited EXIT_FAILURE) w'.
Proof.
  intros -> Hc Hv Hr Hlater.
  unfold parse_options, bind. rewrite getopt_loop_app. unfold bind.
  destruct (getopt_loop before default_Options w) as [o1 w1|s w1] eqn:E1.
  2:{ apply getopt_loop_stops in E1. subst s. eexists; reflexivity. }
  simpl. unfold bind.
  destruct (handle_numeric_value o1 c optarg v w1 Hc Hv) as (o2 & E2 & Hval).
  rewrite E2.
  destruct (getopt_loop after o2 w1) as [o3 w3|s w3] eqn:E3.
  2:{ apply getopt_loop_stops in E3. subst s. eexists; reflexivity. }
  assert (Hval3 : option_value c o3 = v).
  { rewrite (getopt_loop_keeps c after o2 w1 o3 w3 Hc E3 Hlater). exact Hval. }
  destruct (check_options_out_of_range c o3 w3 Hc) as (w4 & E4).
  { rewrite Hval3. exact Hr. }
  rewrite E4. eexists; reflexivity.
Qed.

(** C3, in the form that holds of the code: when the last value that
    [stoi] accepts for a numeric option lies outside the range of that
    option, the run stops with a failure status and the main thread has done
    nothing but write messages: no stream was opened, no queue built, no
    thread started.  (A value that [stoi] rejects leaves the variable as it
    was, see [numeric_option].) *)
Theorem out_of_range_option_aborts env args before c optarg after v :
  args = before ++ (c, optarg) :: after ->
  is_numeric_option c = true ->
  stoi optarg = StoiValue v ->
  in_valid_range c v = false ->
  (forall a, In a after -> fst a = c ->
             forall v', stoi (snd a) <> StoiValue v') ->
  aborted_before_pipeline (run_main env args).
Proof.
  intros Hargs Hc Hv Hr Hlater.
  destruct (parse_options_out_of_range args before c optarg after v
              initial_World Hargs Hc Hv Hr Hlater) as (w' & E).
  destruct (parse_options_logs args initial_World) as (l & Hw & Fl).
  rewrite E in Hw. simpl in Hw.
  unfold aborted_before_pipeline, run_main, main, configure.
  rewrite (bind_Halt _ _ _ _ _ (bind_Halt _ _ _ _ _ E)).
  simpl. split; [reflexivity|].
  rewrite Hw. simpl. exact Fl.
Qed.

Lemma out_of_range_option_aborts_witness :
  aborted_before_pipeline
    (run_main (sample_env (Some sample_fasta) None)
              (single_args ++ [("z"%char, "0"%string)])).
Proof.
  apply (out_of_range_option_aborts _ _ single_args "z" "0" [] 0).
  - reflexivity.
  - reflexivity.
  - reflexivity.
  - reflexivity.
  - intros a [].
Defined.

(** C3 as the specification words it does not hold: [-z abc] is not
    numeric, yet the run goes on with one thread and returns. *)
Lemma unparsable_thread_count_is_ignored :
  stoi "abc" = StoiInvalidArgument /\
  run_main (sample_env (Some sample_fasta) None)
           (single_args ++ [("z"%char, "abc"%string)])
  = (Returned EXIT_SUCCESS,
     [Cerr (InvalidArgument "z" "abc"); ReadIndexes "proteins.fmi"; ConfigInit;
      NewQueue 500; Spawn 0; OpenIn1 "reads1";
      Push (new_ReadItem (str "r1") (str "AAAA"));
      Push (new_ReadItem (str "r2") (str "CCCC"));
      PushedLast; CloseIn1; Join 0; DeleteThread 0; FlushOutput;
      DeleteQueue; DeleteConfig]) /\
  ~ aborted_before_pipeline
      (run_main (sample_env (Some sample_fasta) None)
                (single_args ++ [("z"%char, "abc"%string)])).
Proof.
  split; [reflexivity|].
  split; [vm_compute; reflexivity|].
  intros [H _]. vm_compute in H. discriminate H.
Qed.

(** ** Opening the inputs and detecting the format *)

Lemma open_inputs_unreadable env o w :
  readable env (in1_filename o) = None ->
  is_open (in1_file w) = false ->
  exists w',
    open_inputs env o w = Halt (Exited EXIT_FAILURE) w' /\
    events w' = events w ++ [OpenIn1 (in1_filename o);
                             Cerr (CouldNotOpen (in1_filename o))].
Proof.
  intros Hr Hopen.
  unfold open_inputs, bind, get, emit, set_in1, cerr, emit, exit, halt.
  simpl. rewrite Hr. simpl. rewrite Hopen.
  eexists. split; [reflexivity|]. simpl. rewrite <- app_assoc. reflexivity.
Qed.

Lemma open_inputs_readable env o w c :
  readable env (in1_filename o) = Some c ->
  is_open (in2_file w) = false ->
  (exists w',
      open_inputs env o w = Halt (Exited EXIT_FAILURE) w' /\
      events w' = events w ++ [OpenIn1 (in1_filename o);
                               OpenIn2 (in2_filename o);
                               Cerr (CouldNotOpen (in2_filename o))] /\
      (0 <? String.length (in2_filename o))%nat = true /\
      readable env (in2_filename o) = None)
  \/
  (exists paired w',
      open_inputs env o w = Cont paired w' /\
      in1_file w' = opened c /\
      paired = (0 <? String.length (in2_filename o))%nat /\
      (if paired
       then exists c2, readable env (in2_filename o) = Some c2 /\
                       in2_file w' = opened c2
       else in2_file w' = in2_file w) /\
      events w' = events w ++ OpenIn1 (in1_filename o)
                  :: (if paired then [OpenIn2 (in2_filename o)] else [])).
Proof.
  intros Hr Hopen.
  unfold open_inputs, bind, get, emit, set_in1, set_in2, cerr, emit, exit,
    halt, ret.
  simpl. rewrite Hr. simpl.
  destruct (0 <? String.length (in2_filename o))%nat eqn:E2; simpl.
  - destruct (readable env (in2_filename o)) as [c2|] eqn:Hr2; simpl.
    + right. eexists true, _. split; [reflexivity|]. simpl.
      split; [reflexivity|]. split; [reflexivity|].
      split; [exists c2; split; reflexivity|].
      rewrite <- app_assoc. reflexivity.
    + rewrite Hopen. left. eexists. split; [reflexivity|].
      simpl. rewrite <- !app_assoc. repeat split; reflexivity.
  - right. eexists false, _. split; [reflexivity|]. simpl.
    repeat split; reflexivity.
Qed.

Lemma detect_format_fastq o w t :
  in1_file w = opened ("@"%char :: t) ->
  detect_format o w
  = Cont true (with_line ("@"%char :: fst (until_newline t)) w).
Proof.
  intros Hin.
  unfold detect_format, getline_in1, bind, get, with_line.
  rewrite Hin. unfold getline. simpl.
  destruct (until_newline t) as [l [r|]]; reflexivity.
Qed.

Lemma detect_format_fasta o w t :
  in1_file w = opened (">"%char :: t) ->
  detect_format o w
  = Cont false (with_line (">"%char :: fst (until_newline t)) w).
Proof.
  intros Hin.
  unfold detect_format, getline_in1, bind, get, with_line.
  rewrite Hin. unfold getline. simpl.
  destruct (until_newline t) as [l [r|]]; reflexivity.
Qed.

Lemma detect_format_unrecognised o w c :
  in1_file w = opened c ->
  hd_error c <> Some "@"%char ->
  hd_error c <> Some ">"%char ->
  exists w',
    detect_format o w = Halt (Exited EXIT_FAILURE) w' /\
    events w' = events w ++ [Cerr (AutoDetectionFailed (in1_filename o))].
Proof.
  intros Hin H1 H2.
  unfold detect_format, getline_in1, bind, get.
  rewrite Hin. unfold getline. simpl.
  destruct c as [|c t]; simpl.
  - eexists. split; reflexivity.
  - destruct (Ascii.eqb_spec c newline) as [->|Hnl]; simpl.
    + eexists. split; reflexivity.
    + destruct (until_newline t) as [l o'] eqn:Eu.
      destruct o' as [r|]; simpl;
        (destruct (Ascii.eqb_spec c "@") as [->|_];
         [exfalso; apply H1; reflexivity|]);
        (destruct (Ascii.eqb_spec c ">") as [->|_];
         [exfalso; apply H2; reflexivity|]);
        simpl; eexists; split; reflexivity.
Qed.

(** ** Runs that stop at the primary input *)

Lemma aborted_start_trace l1 n l3 d :
  Forall is_configuration l1 ->
  Forall is_opening l3 ->
  pushed (l1 ++ (NewQueue 500 :: map Spawn (seq 0 n)) ++ l3 ++ [Cerr d]) = [] /\
  ~ In PushedLast (l1 ++ (NewQueue 500 :: map Spawn (seq 0 n)) ++ l3 ++ [Cerr d]) /\
  spawned (l1 ++ (NewQueue 500 :: map Spawn (seq 0 n)) ++ l3 ++ [Cerr d])
  = seq 0 n.
Proof.
  intros F1 F3.
  assert (Fs : Forall is_pool (NewQueue 500 :: map Spawn (seq 0 n))).
  { constructor; [exact I|]. apply Forall_forall. intros e He.
    apply in_map_iff in He. destruct He as (i & <- & _). exact I. }
  split; [|split].
  - rewrite !pushed_app.
    replace (pushed l1) with (@nil ReadItem) by (symmetry; reader_nil F1).
    replace (pushed l3) with (@nil ReadItem) by (symmetry; reader_nil F3).
    replace (pushed (NewQueue 500 :: map Spawn (seq 0 n)))
      with (@nil ReadItem) by (symmetry; reader_nil Fs).
    reflexivity.
  - intros Hin. rewrite Forall_forall in F1, F3, Fs.
    apply in_app_or in Hin. destruct Hin as [Hin|Hin]; [apply F1 in Hin; exact Hin|].
    apply in_app_or in Hin. destruct Hin as [Hin|Hin]; [apply Fs in Hin; exact Hin|].
    apply in_app_or in Hin. destruct Hin as [Hin|[Hin|[]]];
      [apply F3 in Hin; exact Hin | discriminate Hin].
  - rewrite !spawned_app. simpl. rewrite spawned_map_Spawn.
    replace (spawned l1) with (@nil nat) by (symmetry; reader_nil F1).
    replace (spawned l3) with (@nil nat) by (symmetry; reader_nil F3).
    simpl. rewrite app_nil_r. reflexivity.
Qed.

(** A run that gets past the configuration and finds its primary input
    unreadable or of an unknown format. *)
Lemma unusable_primary_input_trace env args o w1 :
  configure env args initial_World = Cont o w1 ->
  (readable env (in1_filename o) = None \/
   exists c, readable env (in1_filename o) = Some c /\
             hd_error c <> Some "@"%char /\ hd_error c <> Some ">"%char) ->
  exists l1 l3 d,
    run_main env args
    = (Stopped (Exited EXIT_FAILURE),
       l1 ++ (NewQueue 500 :: map Spawn (seq 0 (Z.to_nat (num_threads o))))
          ++ l3 ++ [Cerr d]) /\
    Forall is_configuration l1 /\ Forall is_opening l3 /\
    (d = CouldNotOpen (in1_filename o) \/ d = CouldNotOpen (in2_filename o)
     \/ d = AutoDetectionFailed (in1_filename o)).
Proof.
  intros E1 Hin.
  destruct (configure_logs env args initial_World) as (l1 & Hw1 & F1).
  rewrite E1 in Hw1. simpl in Hw1.
  unfold run_main, main.
  rewrite (bind_Cont _ _ _ _ _ E1).
  rewrite (bind_Cont _ _ _ _ _ (start_workers_run o w1)).
  set (n := Z.to_nat (num_threads o)).
  set (w2 := log (NewQueue 500 :: map Spawn (seq 0 n)) w1).
  assert (Hev2 : events w2 = l1 ++ NewQueue 500 :: map Spawn (seq 0 n)).
  { unfold w2. rewrite Hw1. reflexivity. }
  assert (Hs1 : is_open (in1_file w2) = false) by (unfold w2; rewrite Hw1; reflexivity).
  assert (Hs2 : is_open (in2_file w2) = false) by (unfold w2; rewrite Hw1; reflexivity).
  destruct Hin as [Hnone | (c & Hsome & Hc1 & Hc2)].
  - destruct (open_inputs_unreadable env o w2 Hnone Hs1) as (w3 & E3 & Hev3).
    rewrite (bind_Halt _ _ _ _ _ E3). simpl.
    exists l1, [OpenIn1 (in1_filename o)], (CouldNotOpen (in1_filename o)).
    split; [| split; [exact F1 | split; [repeat constructor | auto]]].
    rewrite Hev3, Hev2, <- !app_assoc. reflexivity.
  - destruct (open_inputs_readable env o w2 c Hsome Hs2)
      as [(w3 & E3 & Hev3 & _) | (paired & w3 & E3 & Hin1 & _ & _ & Hev3)].
    + rewrite (bind_Halt _ _ _ _ _ E3). simpl.
      exists l1, [OpenIn1 (in1_filename o); OpenIn2 (in2_filename o)],
        (CouldNotOpen (in2_filename o)).
      split; [| split; [exact F1 | split; [repeat constructor | auto]]].
      rewrite Hev3, Hev2, <- !app_assoc. reflexivity.
    + rewrite (bind_Cont _ _ _ _ _ E3).
      destruct (detect_format_unrecognised o w3 c Hin1 Hc1 Hc2)
        as (w4 & E4 & Hev4).
      unfold ingest.
      rewrite (bind_Halt _ _ _ _ _ (bind_Halt _ _ _ _ _ E4)). simpl.
      exists l1,
        (OpenIn1 (in1_filename o)
           :: (if paired then [OpenIn2 (in2_filename o)] else [])),
        (AutoDetectionFailed (in1_filename o)).
      split; [| split; [exact F1 | split; [| auto]]].
      * rewrite Hev4, Hev3, Hev2, <- !app_assoc. reflexivity.
      * destruct paired; repeat constructor.
Qed.

(** C2, in the form that holds of the code: a run that gets as far as the
    primary input and finds it unreadable, or starting with neither [@] nor
    [>], stops with a failure status right after a diagnostic; no Work Item
    was pushed and completion was not signalled; the worker threads,
    [num_threads] of them, had been started before. *)
Theorem unusable_primary_input_aborts env args o w1 :
  configure env args initial_World = Cont o w1 ->
  (readable env (in1_filename o) = None \/
   exists c, readable env (in1_filename o) = Some c /\
             hd_error c <> Some "@"%char /\ hd_error c <> Some ">"%char) ->
  fst (run_main env args) = Stopped (Exited EXIT_FAILURE) /\
  (exists tr d,
      snd (run_main env args) = tr ++ [Cerr d] /\
      (d = CouldNotOpen (in1_filename o) \/ d = CouldNotOpen (in2_filename o)
       \/ d = AutoDetectionFailed (in1_filename o))) /\
  pushed (snd (run_main env args)) = [] /\
  ~ In PushedLast (snd (run_main env args)) /\
  spawned (snd (run_main env args)) = seq 0 (Z.to_nat (num_threads o)).
Proof.
  intros E1 Hin.
  destruct (unusable_primary_input_trace env args o w1 E1 Hin)
    as (l1 & l3 & d & Hrun & F1 & F3 & Hd).
  rewrite Hrun. simpl.
  destruct (aborted_start_trace l1 (Z.to_nat (num_threads o)) l3 d F1 F3)
    as (Hp & Hl & Hs).
  split; [reflexivity|].
  split.
  { exists (l1 ++ (NewQueue 500 :: map Spawn (seq 0 (Z.to_nat (num_threads o))))
               ++ l3), d.
    split; [rewrite <- !app_assoc; reflexivity | exact Hd]. }
  split; [exact Hp|]. split; [exact Hl | exact Hs].
Qed.

Lemma unusable_primary_input_aborts_witness :
  fst (run_main (sample_env None None) single_args)
  = Stopped (Exited EXIT_FAILURE) /\
  (exists tr d,
      snd (run_main (sample_env None None) single_args) = tr ++ [Cerr d] /\
      (d = CouldNotOpen (in1_filename single_options)
       \/ d = CouldNotOpen (in2_filename single_options)
       \/ d = AutoDetectionFailed (in1_filename single_options))) /\
  pushed (snd (run_main (sample_env None None) single_args)) = [] /\
  ~ In PushedLast (snd (run_main (sample_env None None) single_args)) /\
  spawned (snd (run_main (sample_env None None) single_args))
  = seq 0 (Z.to_nat (num_threads single_options)).
Proof.
  apply (unusable_primary_input_aborts (sample_env None None) single_args
           single_options
           (log [ReadIndexes "proteins.fmi"; ConfigInit] initial_World)).
  - reflexivity.
  - left. reflexivity.
Defined.

(** C2 as the specification words it does not hold: with an unreadable
    primary input, and with one that starts with [X], the threads are
    started before the run stops. *)
Lemma workers_are_spawned_before_the_input_is_opened :
  readable (sample_env None None) "reads1" = None /\
  run_main (sample_env None None) (single_args ++ [("z"%char, "2"%string)])
  = (Stopped (Exited EXIT_FAILURE),
     [ReadIndexes "proteins.fmi"; ConfigInit; NewQueue 500; Spawn 0; Spawn 1;
      OpenIn1 "reads1"; Cerr (CouldNotOpen "reads1")]) /\
  run_main (sample_env (Some (str "Xabc")) None) single_args
  = (Stopped (Exited EXIT_FAILURE),
     [ReadIndexes "proteins.fmi"; ConfigInit; NewQueue 500; Spawn 0;
      OpenIn1 "reads1"; Cerr (AutoDetectionFailed "reads1")]) /\
  spawned (snd (run_main (sample_env None None)
                         (single_args ++ [("z"%char, "2"%string)]))) <> [].
Proof.
  split; [reflexivity|].
  split; [vm_compute; reflexivity|].
  split; [vm_compute; reflexivity|].
  vm_compute. discriminate.
Qed.

Lemma completion_signal_once_then_joins_witness :
  fst (run_main (sample_env (Some sample_fasta) None) single_args)
  = Returned EXIT_SUCCESS /\
  exists pre mid,
    snd (run_main (sample_env (Some sample_fasta) None) single_args)
    = pre ++ PushedLast :: mid ++ [DeleteQueue; DeleteConfig] /\
    ~ In PushedLast pre /\ ~ In PushedLast mid /\
    pushed mid = [] /\
    joined pre = [] /\
    joined mid
    = spawned (snd (run_main (sample_env (Some sample_fasta) None) single_args)) /\
    ~ In DeleteQueue (pre ++ PushedLast :: mid) /\
    ~ In DeleteConfig (pre ++ PushedLast :: mid).
Proof.
  split; [vm_compute; reflexivity|].
  apply (completion_signal_once_then_joins
           (sample_env (Some sample_fasta) None) single_args EXIT_SUCCESS).
  vm_compute. reflexivity.
Defined.

(** ** Format detection *)

(** C4: the first character of the primary input fixes the format of the
    whole run.  With [@] both record loops run in FASTQ mode, with [>] both
    run in FASTA mode; with anything else, an empty input included, the run
    stops with a failure status after the detection message and pushes
    nothing. *)
Theorem format_follows_first_character o paired w c :
  in1_file w = opened c ->
  (forall t, c = "@"%char :: t ->
     ingest o paired w
     = (when (verbose o) (cerr (StartSearch (num_threads o))) ;;
        read_files paired true)
         (with_line ("@"%char :: fst (until_newline t)) w)) /\
  (forall t, c = ">"%char :: t ->
     ingest o paired w
     = (when (verbose o) (cerr (StartSearch (num_threads o))) ;;
        read_files paired false)
         (with_line (">"%char :: fst (until_newline t)) w)) /\
  (hd_error c <> Some "@"%char -> hd_error c <> Some ">"%char ->
   exists w',
     ingest o paired w = Halt (Exited EXIT_FAILURE) w' /\
     events w' = events w ++ [Cerr (AutoDetectionFailed (in1_filename o))] /\
     pushed (events w') = pushed (events w)).
Proof.
  intros Hin. split; [|split].
  - intros t ->. unfold ingest.
    rewrite (bind_Cont _ _ _ _ _ (detect_format_fastq o w t Hin)).
    reflexivity.
  - intros t ->. unfold ingest.
    rewrite (bind_Cont _ _ _ _ _ (detect_format_fasta o w t Hin)).
    reflexivity.
  - intros H1 H2.
    destruct (detect_format_unrecognised o w c Hin H1 H2) as (w' & E & Hev).
    exists w'. unfold ingest. rewrite (bind_Halt _ _ _ _ _ E).
    split; [reflexivity|]. split; [exact Hev|].
    rewrite Hev, pushed_app. simpl. apply app_nil_r.
Qed.

Lemma format_follows_first_character_witness :
  ingest single_options false (with_in1 (opened sample_fastq1) initial_World)
  = (when (verbose single_options)
          (cerr (StartSearch (num_threads single_options))) ;;
     read_files false true)
      (with_line (str "@r1") (with_in1 (opened sample_fastq1) initial_World)).
Proof.
  apply (proj1 (format_follows_first_character single_options false
                  (with_in1 (opened sample_fastq1) initial_World)
                  sample_fastq1 eq_refl)
               (tl sample_fastq1)).
  reflexivity.
Defined.

(** ** Streams seen as lines *)

Lemma until_newline_line l r :
  no_newline l = true -> until_newline (l ++ newline :: r) = (l, Some r).
Proof.
  induction l as [|c l IH]; simpl; intros H.
  - reflexivity.
  - apply andb_true_iff in H. destruct H as [Hc Hl].
    apply negb_true_iff in Hc. rewrite Hc, (IH Hl). reflexivity.
Qed.

Lemma until_newline_last l :
  no_newline l = true -> until_newline l = (l, None).
Proof.
  induction l as [|c l IH]; simpl; intros H.
  - reflexivity.
  - apply andb_true_iff in H. destruct H as [Hc Hl].
    apply negb_true_iff in Hc. rewrite Hc, (IH Hl). reflexivity.
Qed.

Lemma holds_lines_length r ls :
  holds_lines r ls -> (length ls <= length r)%nat.
Proof.
  induction 1 as [|l Hne Hnl|l r ls Hnl _ IH]; simpl.
  - lia.
  - destruct l; [contradiction | simpl; lia].
  - rewrite length_app. simpl. lia.
Qed.

Lemma before_length s ls :
  before s ls -> (length ls <= length (rest s))%nat.
Proof.
  intros [[_ H]|[_ ->]]; [apply holds_lines_length, H | simpl; lia].
Qed.

Lemma good_flags s : good s = true -> eofbit s = false /\ failbit s = false.
Proof.
  unfold good. rewrite andb_true_iff, !negb_true_iff. tauto.
Qed.

Lemma holds_lines_cons r l ls :
  holds_lines r (l :: ls) ->
  no_newline l = true /\
  ((l <> [] /\ r = l /\ ls = []) \/
   (exists r', r = l ++ newline :: r' /\ holds_lines r' ls)).
Proof.
  intros H. inversion H; subst.
  - split; [assumption|]. left. auto.
  - split; [assumption|]. right. eexists. split; [reflexivity | assumption].
Qed.

Lemma holds_lines_nil r : holds_lines r [] -> r = [].
Proof. intros H. inversion H. reflexivity. Qed.

Lemma bad_before s : good s = false -> before s [].
Proof. intros H. right. split; [exact H | reflexivity]. Qed.

Lemma at_end_bad s b : good (at_end s b) = false.
Proof. reflexivity. Qed.

Lemma set_failbit_bad s : good (set_failbit s) = false.
Proof. unfold good. simpl. apply andb_false_r. Qed.

Lemma getline_before_line s l ls :
  before s (l :: ls) ->
  exists s', (forall str, getline s str = (s', l)) /\
             failbit s' = false /\ before s' ls.
Proof.
  intros [[Hg H]|[_ H]]; [| discriminate H].
  destruct (good_flags s Hg) as [He Hf].
  unfold getline. rewrite Hg.
  apply holds_lines_cons in H.
  destruct H as [Hnl [(Hne & Hr & ->) | (r' & Hr & Hls)]]; rewrite Hr.
  - rewrite (until_newline_last l Hnl).
    exists (at_end s (match l with [] => true | _ => false end)).
    split; [reflexivity|].
    destruct l as [|c l]; [contradiction|]. simpl. rewrite Hf.
    split; [reflexivity|]. apply bad_before. reflexivity.
  - rewrite (until_newline_line l r' Hnl).
    exists (advance s r'). split; [reflexivity|]. simpl.
    split; [exact Hf|]. left. split; [| exact Hls].
    unfold good. simpl. rewrite He, Hf. reflexivity.
Qed.

Lemma getline_before_end s str :
  before s [] ->
  failbit (fst (getline s str)) = true /\ before (fst (getline s str)) [].
Proof.
  intros [[Hg H]|[Hg _]]; unfold getline; rewrite Hg.
  - apply holds_lines_nil in H. rewrite H. simpl.
    split; [apply orb_true_r|]. apply bad_before. reflexivity.
  - simpl. split; [reflexivity|]. apply bad_before, set_failbit_bad.
Qed.

Lemma ignore_before_line s l ls :
  before s (l :: ls) -> before (ignore_line s) ls.
Proof.
  intros [[Hg H]|[_ H]]; [| discriminate H].
  destruct (good_flags s Hg) as [He Hf].
  unfold ignore_line. rewrite Hg.
  apply holds_lines_cons in H.
  destruct H as [Hnl [(Hne & Hr & ->) | (r' & Hr & Hls)]]; rewrite Hr.
  - rewrite (until_newline_last l Hnl). apply bad_before. reflexivity.
  - rewrite (until_newline_line l r' Hnl). left. split; [| exact Hls].
    unfold good. simpl. rewrite He, Hf. reflexivity.
Qed.

Lemma peek_before_line s l ls :
  before s (l :: ls) -> peek s = (s, Z.of_N (N_of_ascii (hd newline l))).
Proof.
  intros [[Hg H]|[_ H]]; [| discriminate H].
  unfold peek. rewrite Hg.
  apply holds_lines_cons in H.
  destruct H as [Hnl [(Hne & Hr & ->) | (r' & Hr & Hls)]]; rewrite Hr.
  - destruct l as [|c l]; [contradiction | reflexivity].
  - destruct l as [|c l]; reflexivity.
Qed.

Lemma peek_before_end s :
  before s [] -> snd (peek s) = EOF /\ before (fst (peek s)) [].
Proof.
  intros [[Hg H]|[Hg _]]; unfold peek; rewrite Hg.
  - apply holds_lines_nil in H. rewrite H. simpl.
    split; [reflexivity|]. apply bad_before. reflexivity.
  - simpl. split; [reflexivity|]. apply bad_before, set_failbit_bad.
Qed.

Lemma peek_is_marker c :
  (Z.of_N (N_of_ascii c) =? Z.of_N (N_of_ascii ">")) = Ascii.eqb c ">".
Proof.
  destruct (Ascii.eqb_spec c ">") as [->|Hne].
  - apply Z.eqb_refl.
  - apply Z.eqb_neq. intros H. apply Hne.
    apply N2Z.inj in H.
    rewrite <- (ascii_N_embedding c), H. reflexivity.
Qed.

Lemma peek_is_not_EOF c : (Z.of_N (N_of_ascii c) =? EOF) = false.
Proof. apply Z.eqb_neq. unfold EOF. lia. Qed.

Lemma holds_join_lines final_newline ls :
  Forall (fun l => no_newline l = true) ls ->
  well_ended final_newline ls ->
  holds_lines (join_lines final_newline ls) ls.
Proof.
  intros F. induction F as [|l ls Hl F IH]; intros Hend.
  - constructor.
  - destruct ls as [|l2 ls].
    + simpl. destruct final_newline.
      * apply (holds_more l [] [] Hl). constructor.
      * apply holds_last; [| exact Hl]. apply Hend. reflexivity.
    + change (join_lines final_newline (l :: l2 :: ls))
        with (l ++ newline :: join_lines final_newline (l2 :: ls)).
      apply holds_more; [exact Hl|]. apply IH.
      intros Hf. apply (Hend Hf).
Qed.

Lemma opened_before final_newline ls :
  Forall (fun l => no_newline l = true) ls ->
  well_ended final_newline ls ->
  before (opened (join_lines final_newline ls)) ls.
Proof.
  intros F Hend. left. split; [reflexivity|].
  apply holds_join_lines; assumption.
Qed.

(** ** The record loops on well-formed input *)

Ltac run_monad :=
  unfold erase_begin, getline_in1, getline_in2, ignore_in1, peek_in1,
    bind, get, set_line, set_name, set_sequence1, set_in1, set_in2,
    emit, ret;
  simpl.

Lemma read_record_fastq w h id sq sep qual ls :
  line_from_file w = h :: id ->
  before (in1_file w) (sq :: sep :: qual :: ls) ->
  exists w',
    read_record true w = Cont tt w' /\
    events w' = events w ++ [Push (new_ReadItem id (strip sq))] /\
    before (in1_file w') ls /\
    in2_file w' = in2_file w.
Proof.
  intros Hline Hb.
  destruct (getline_before_line _ _ _ Hb) as (s1 & Hg1 & Hf1 & Hb1).
  pose proof (ignore_before_line _ _ _ Hb1) as Hb2.
  pose proof (ignore_before_line _ _ _ Hb2) as Hb3.
  unfold read_record. run_monad. rewrite Hline. simpl. rewrite Hg1. simpl.
  eexists. split; [reflexivity|]. simpl.
  split; [reflexivity|]. split; [exact Hb3 | reflexivity].
Qed.

Lemma file1_loop_fastq recs :
  forall fuel w,
    before (in1_file w) (flat_map fastq_group recs) ->
    (length recs < fuel)%nat ->
    exists w',
      file1_loop fuel true w = Cont tt w' /\
      events w' = events w ++ map Push (map fastq_item recs) /\
      before (in1_file w') [] /\
      in2_file w' = in2_file w.
Proof.
  induction recs as [|r recs IH]; intros fuel w Hb Hfuel;
    (destruct fuel as [|fuel]; [simpl in Hfuel; lia|]); simpl file1_loop.
  - simpl in Hb.
    destruct (getline_before_end _ (line_from_file w) Hb) as [Hf Hb'].
    unfold getline_in1, bind, get.
    destruct (getline (in1_file w) (line_from_file w)) as [s1 l1].
    simpl in Hf, Hb'. run_monad. rewrite Hf. simpl.
    eexists. split; [reflexivity|]. simpl.
    rewrite app_nil_r. split; [reflexivity|]. split; [exact Hb' | reflexivity].
  - simpl in Hb.
    destruct (getline_before_line _ _ _ Hb) as (s1 & Hg1 & Hf1 & Hb1).
    unfold getline_in1 at 1, bind at 1 2, get at 1.
    rewrite Hg1. unfold bind at 1 2, set_in1 at 1, set_line at 1, ret at 1.
    rewrite Hf1. cbn [negb].
    destruct (read_record_fastq
                (with_line ("@"%char :: fq_id r) (with_in1 s1 w))
                "@" (fq_id r) (fq_sequence r) (fq_separator r)
                (fq_quality r) (flat_map fastq_group recs) eq_refl Hb1)
      as (w2 & E2 & Hev2 & Hb2 & Hin2).
    unfold bind at 1. rewrite E2.
    destruct (IH fuel w2 Hb2) as (w3 & E3 & Hev3 & Hb3 & Hin3);
      [simpl in Hfuel; lia|].
    rewrite E3. exists w3. split; [reflexivity|].
    split; [| split; [exact Hb3 | rewrite Hin3, Hin2; reflexivity]].
    rewrite Hev3, Hev2. simpl. rewrite <- app_assoc.
    rewrite strip_filter. reflexivity.
Qed.

Lemma hd_not_marker l :
  starts_with_marker l = false -> Ascii.eqb (hd newline l) ">" = false.
Proof. destruct l as [|c l]; simpl; [reflexivity | auto]. Qed.

Lemma hd_marker l :
  starts_with_marker l = true -> Ascii.eqb (hd newline l) ">" = true.
Proof. destruct l as [|c l]; simpl; [discriminate | auto]. Qed.

Lemma peek_in1_run w :
  peek_in1 w
  = Cont (snd (peek (in1_file w))) (with_in1 (fst (peek (in1_file w))) w).
Proof.
  unfold peek_in1, bind, get. destruct (peek (in1_file w)). reflexivity.
Qed.

Lemma getline_in1_run w :
  getline_in1 w
  = Cont (negb (failbit (fst (getline (in1_file w) (line_from_file w)))))
         (with_line (snd (getline (in1_file w) (line_from_file w)))
            (with_in1 (fst (getline (in1_file w) (line_from_file w))) w)).
Proof.
  unfold getline_in1, bind, get.
  destruct (getline (in1_file w) (line_from_file w)). reflexivity.
Qed.

Lemma EOF_is_not_marker : (EOF =? Z.of_N (N_of_ascii ">")) = false.
Proof. reflexivity. Qed.

Lemma fasta_lines_block seqs :
  forall fuel w tail,
    Forall (fun l => no_newline l = true /\ starts_with_marker l = false) seqs ->
    block_end tail ->
    before (in1_file w) (seqs ++ tail) ->
    (length seqs < fuel)%nat ->
    exists w',
      fasta_lines fuel w = Cont tt w' /\
      events w' = events w /\ name w' = name w /\
      in2_file w' = in2_file w /\
      sequence1 w' = sequence1 w ++ concat seqs /\
      before (in1_file w') tail.
Proof.
  induction seqs as [|l seqs IH]; intros fuel w tail Hseqs Htail Hb Hfuel;
    (destruct fuel as [|fuel]; [simpl in Hfuel; lia|]); cbn [fasta_lines].
  - simpl in Hb. rewrite (bind_Cont _ _ _ _ _ (peek_in1_run w)).
    destruct tail as [|h tail].
    + destruct (peek_before_end _ Hb) as [Hc1 Hb1].
      rewrite Hc1, EOF_is_not_marker.
      rewrite (bind_Cont _ _ _ _ _ (peek_in1_run _)).
      cbn [in1_file with_in1].
      destruct (peek_before_end _ Hb1) as [Hc2 Hb2].
      rewrite Hc2, Z.eqb_refl.
      eexists. split; [reflexivity|]. simpl.
      rewrite app_nil_r. repeat split; try reflexivity. exact Hb2.
    + simpl in Htail. rewrite (peek_before_line _ _ _ Hb). cbn [fst snd].
      rewrite peek_is_marker, (hd_marker h Htail).
      eexists. split; [reflexivity|]. simpl.
      rewrite app_nil_r. repeat split; try reflexivity. exact Hb.
  - simpl in Hb. inversion Hseqs as [|l0 seqs0 [Hnl Hnm] Hseqs' E1]; subst.
    destruct (getline_before_line _ _ _ Hb) as (s1 & Hg1 & Hf1 & Hb1).
    rewrite (bind_Cont _ _ _ _ _ (peek_in1_run w)).
    rewrite (peek_before_line _ _ _ Hb). cbn [fst snd].
    rewrite peek_is_marker, (hd_not_marker l Hnm).
    rewrite (bind_Cont _ _ _ _ _ (peek_in1_run _)).
    cbn [in1_file with_in1].
    rewrite (peek_before_line _ _ _ Hb). cbn [fst snd].
    rewrite peek_is_not_EOF.
    rewrite (bind_Cont _ _ _ _ _ (getline_in1_run _)).
    cbn [in1_file with_in1 line_from_file]. rewrite Hg1. cbn [fst snd].
    unfold bind, get, set_sequence1.
    cbn [sequence1 with_line with_in1 line_from_file].
    match goal with
    | |- context [fasta_lines fuel ?W] =>
        destruct (IH fuel W tail Hseqs' Htail Hb1)
          as (w' & E' & Hev & Hname & Hin2 & Hseq & Hb');
          [simpl in Hfuel; lia|]
    end.
    rewrite E'. exists w'. split; [reflexivity|].
    rewrite Hev, Hname, Hin2, Hseq. simpl.
    rewrite <- app_assoc. repeat split; try reflexivity. exact Hb'.
Qed.

Lemma read_record_fasta w h id seqs tail :
  line_from_file w = h :: id ->
  Forall (fun l => no_newline l = true /\ starts_with_marker l = false) seqs ->
  block_end tail ->
  before (in1_file w) (seqs ++ tail) ->
  exists w',
    read_record false w = Cont tt w' /\
    events w' = events w ++ [Push (new_ReadItem id (strip (concat seqs)))] /\
    before (in1_file w') tail /\
    in2_file w' = in2_file w.
Proof.
  intros Hline Hseqs Htail Hb.
  unfold read_record, erase_begin, bind at 1 2 3 4 5 6 7, get at 1 2 3.
  rewrite Hline.
  unfold set_line at 1, set_name at 1, set_sequence1 at 1.
  cbn [line_from_file with_line with_name with_sequence1 in1_file].
  match goal with
  | |- context [bind (fasta_lines ?F) _ ?W] =>
      destruct (fasta_lines_block seqs F W tail Hseqs Htail Hb)
        as (w1 & E1 & Hev & Hname & Hin2 & Hseq & Hb1)
  end.
  { apply before_length in Hb. rewrite length_app in Hb. lia. }
  rewrite (bind_Cont _ _ _ _ _ E1). unfold bind, get, set_sequence1, emit.
  cbn [name sequence1 with_sequence1].
  eexists. split; [reflexivity|].
  cbn [events in1_file in2_file log with_sequence1].
  rewrite Hev, Hname, Hseq, Hin2. simpl.
  split; [reflexivity|]. split; [exact Hb1 | reflexivity].
Qed.

Lemma fasta_blocks_end recs :
  block_end (flat_map fasta_block recs).
Proof. destruct recs as [|r recs]; simpl; [exact I | reflexivity]. Qed.

Lemma file1_loop_fasta recs :
  forall fuel w,
    Forall valid_fasta_record recs ->
    before (in1_file w) (flat_map fasta_block recs) ->
    (length recs < fuel)%nat ->
    exists w',
      file1_loop fuel false w = Cont tt w' /\
      events w' = events w ++ map Push (map fasta_item recs) /\
      before (in1_file w') [] /\
      in2_file w' = in2_file w.
Proof.
  induction recs as [|r recs IH]; intros fuel w Hv Hb Hfuel;
    (destruct fuel as [|fuel]; [simpl in Hfuel; lia|]); cbn [file1_loop];
    rewrite (bind_Cont _ _ _ _ _ (getline_in1_run w)).
  - simpl in Hb.
    destruct (getline_before_end _ (line_from_file w) Hb) as [Hf Hb'].
    rewrite Hf. cbn [negb]. eexists. split; [reflexivity|]. simpl.
    rewrite app_nil_r. split; [reflexivity|]. split; [exact Hb' | reflexivity].
  - inversion Hv as [|r0 recs0 [Hid Hlines] Hv' E1]; subst.
    change (flat_map fasta_block (r :: recs))
      with ((">"%char :: fa_id r)
              :: (fa_lines r ++ flat_map fasta_block recs)) in Hb.
    destruct (getline_before_line _ _ _ Hb) as (s1 & Hg1 & Hf1 & Hb1).
    rewrite Hg1. cbn [fst snd]. rewrite Hf1. cbn [negb].
    match goal with
    | |- context [bind (read_record false) _ ?W] =>
        destruct (read_record_fasta W ">" (fa_id r) (fa_lines r)
                    (flat_map fasta_block recs) eq_refl Hlines
                    (fasta_blocks_end recs) Hb1)
          as (w2 & E2 & Hev2 & Hb2 & Hin2)
    end.
    rewrite (bind_Cont _ _ _ _ _ E2).
    destruct (IH fuel w2 Hv' Hb2) as (w3 & E3 & Hev3 & Hb3 & Hin3);
      [simpl in Hfuel; lia|].
    exists w3. split; [exact E3|].
    split; [| split; [exact Hb3 | rewrite Hin3, Hin2; reflexivity]].
    rewrite Hev3, Hev2. simpl. rewrite <- app_assoc.
    rewrite strip_filter. reflexivity.
Qed.

(** ** Runs on a well-formed primary input *)

Lemma bind_assoc {A B C} (m : M A) (k : A -> M B) (k' : B -> M C) w :
  bind (bind m k) k' w = bind m (fun a => bind (k a) k') w.
Proof. unfold bind. destruct (m w); reflexivity. Qed.

Lemma when_run b e w :
  when b (cerr e) w = Cont tt (log (if b then [Cerr e] else []) w).
Proof. destruct b; simpl; [reflexivity | rewrite log_nil; reflexivity]. Qed.

(** A run whose configuration succeeds, whose inputs open, whose format is
    detected as [isFastQ] and whose first record loop pushes [items]. *)
Lemma primary_stream_run env args o w1 c isFastQ items :
  configure env args initial_World = Cont o w1 ->
  readable env (in1_filename o) = Some c ->
  (is_paired o = true -> readable env (in2_filename o) <> None) ->
  (forall w, in1_file w = opened c ->
             exists l, detect_format o w = Cont isFastQ (with_line l w)) ->
  (forall w, in1_file w = opened c ->
             exists w', file1_loop (S (length c)) isFastQ w = Cont tt w' /\
                        events w' = events w ++ map Push items) ->
  exists extra,
    pushed (snd (run_main env args)) = items ++ extra /\
    (is_paired o = false ->
     extra = [] /\ fst (run_main env args) = Returned EXIT_SUCCESS).
Proof.
  unfold is_paired. intros E1 Hr1 Hr2 Hdetect Hloop.
  destruct (configure_logs env args initial_World) as (l1 & Hw1 & F1).
  rewrite E1 in Hw1. simpl in Hw1.
  unfold run_main, main.
  rewrite (bind_Cont _ _ _ _ _ E1).
  rewrite (bind_Cont _ _ _ _ _ (start_workers_run o w1)).
  set (n := Z.to_nat (num_threads o)).
  set (w2 := log (NewQueue 500 :: map Spawn (seq 0 n)) w1).
  assert (Hev2 : events w2 = l1 ++ NewQueue 500 :: map Spawn (seq 0 n)).
  { unfold w2. rewrite Hw1. reflexivity. }
  assert (Hs2 : is_open (in2_file w2) = false)
    by (unfold w2; rewrite Hw1; reflexivity).
  destruct (open_inputs_readable env o w2 c Hr1 Hs2)
    as [(w3 & _ & _ & Hp & Hnone)
       | (paired & w3 & E3 & Hin1 & Hpaired & _ & Hev3)];
    [exfalso; apply (Hr2 Hp Hnone)|].
  rewrite (bind_Cont _ _ _ _ _ E3).
  unfold ingest, read_files. rewrite !bind_assoc.
  destruct (Hdetect w3 Hin1) as (l & Ed).
  rewrite (bind_Cont _ _ _ _ _ Ed).
  rewrite !bind_assoc.
  rewrite (bind_Cont _ _ _ _ _ (when_run _ _ _)).
  set (w4 := log (if verbose o then [Cerr (StartSearch (num_threads o))]
                  else []) (with_line l w3)).
  rewrite !bind_assoc.
  rewrite (bind_Cont get _ w4 w4 w4 eq_refl).
  assert (Hin4 : in1_file w4 = opened c) by exact Hin1.
  rewrite !bind_assoc.
  destruct (Hloop w4 Hin4) as (w5 & E5 & Hev5).
  rewrite Hin4. change (rest (opened c)) with c.
  rewrite (bind_Cont _ _ _ _ _ E5).
  assert (Hp5 : pushed (events w5) = items).
  { rewrite Hev5, pushed_app, pushed_map_Push.
    replace (pushed (events w4)) with (@nil ReadItem); [reflexivity|].
    unfold w4. simpl. rewrite Hev3, Hev2, !pushed_app.
    replace (pushed l1) with (@nil ReadItem) by (symmetry; reader_nil F1).
    simpl.
    replace (pushed (map Spawn (seq 0 n))) with (@nil ReadItem);
      [destruct paired, (verbose o); reflexivity|].
    clear. induction (seq 0 n); simpl; auto. }
  destruct paired.
  - match goal with
    | |- context [bind ?m ?k w5] =>
        assert (Hem : emits (fun e => is_single_push e \/ is_downstream e)
                            (bind m k))
    end.
    { apply emits_bind.
      - apply emits_bind; [apply emits_get | intros w].
        eapply emits_weaken; [| apply file2_loop_emits]. tauto.
      - intros _. eapply emits_weaken; [| apply shutdown_emits]. tauto. }
    destruct (Hem w5) as (lx & Hlx & Flx).
    exists (pushed lx). split.
    + rewrite Hlx. cbn [snd]. rewrite pushed_app, Hp5. reflexivity.
    + intros Hsingle. rewrite Hsingle in Hpaired. discriminate Hpaired.
  - rewrite (bind_Cont _ _ w5 tt w5 eq_refl).
    destruct (shutdown_run o false (seq 0 n) w5)
      as (w6 & closing & finishing & E6 & Hev6 & Fc & Ff).
    change (snd (seq 0 n, seq 0 n)) with (seq 0 n).
    change (fst (seq 0 n, seq 0 n)) with (seq 0 n).
    rewrite E6. simpl.
    exists []. split; [| intros _; split; reflexivity].
    rewrite Hev6, pushed_app, Hp5. f_equal.
    change (PushedLast :: closing ++ joins (seq 0 n) ++ finishing
              ++ [DeleteQueue; DeleteConfig])
      with ([PushedLast] ++ closing ++ joins (seq 0 n) ++ finishing
              ++ [DeleteQueue; DeleteConfig]).
    rewrite !pushed_app.
    replace (pushed closing) with (@nil ReadItem) by (symmetry; reader_nil Fc).
    replace (pushed finishing) with (@nil ReadItem)
      by (symmetry; reader_nil Ff).
    replace (pushed (joins (seq 0 n))) with (@nil ReadItem)
      by (symmetry; reader_nil (joins_class (seq 0 n))).
    reflexivity.
Qed.

Lemma join_lines_head final_newline c l ls :
  exists t, join_lines final_newline ((c :: l) :: ls) = c :: t.
Proof.
  destruct ls as [|l2 ls]; simpl; [destruct final_newline|];
    eexists; reflexivity.
Qed.

Lemma fasta_block_count recs :
  (length recs <= length (flat_map fasta_block recs))%nat.
Proof.
  induction recs as [|r recs IH]; simpl; [lia|].
  rewrite length_app. lia.
Qed.

Lemma fastq_group_count recs :
  (length recs <= length (flat_map fastq_group recs))%nat.
Proof. induction recs as [|r recs IH]; simpl; lia. Qed.

Lemma fasta_blocks_no_newline recs :
  Forall valid_fasta_record recs ->
  Forall (fun l => no_newline l = true) (flat_map fasta_block recs).
Proof.
  induction 1 as [|r recs [Hid Hlines] _ IH]; simpl; [constructor|].
  constructor; [exact Hid|].
  apply Forall_app. split; [| exact IH].
  eapply Forall_impl; [| exact Hlines]. simpl. tauto.
Qed.

Lemma fastq_groups_no_newline recs :
  Forall valid_fastq_record recs ->
  Forall (fun l => no_newline l = true) (flat_map fastq_group recs).
Proof.
  induction 1 as [|r recs (Hid & Hs & Hp & Hq) _ IH]; simpl; [constructor|].
  repeat (constructor; [assumption|]). exact IH.
Qed.

(** C5: when the primary input is a well-formed FASTA text, made of the
    blocks [recs], the run pushes one Work Item per block, in order: its
    identifier is the header line without the marker, its sequence is the
    concatenation of the lines of the block with everything but letters
    removed.  In single mode these are all the items and the run returns;
    in paired mode the items of the second file follow. *)
Theorem fasta_one_item_per_block env args o w1 recs final_newline :
  configure env args initial_World = Cont o w1 ->
  recs <> [] ->
  Forall valid_fasta_record recs ->
  well_ended final_newline (flat_map fasta_block recs) ->
  readable env (in1_filename o)
  = Some (join_lines final_newline (flat_map fasta_block recs)) ->
  (is_paired o = true -> readable env (in2_filename o) <> None) ->
  exists extra,
    pushed (snd (run_main env args)) = map fasta_item recs ++ extra /\
    (is_paired o = false ->
     extra = [] /\ fst (run_main env args) = Returned EXIT_SUCCESS).
Proof.
  intros E1 Hne Hv Hend Hr1 Hr2.
  pose proof (fasta_blocks_no_newline recs Hv) as Hnl.
  apply (primary_stream_run env args o w1 _ false (map fasta_item recs)
           E1 Hr1 Hr2).
  - intros w Hin. destruct recs as [|r recs]; [contradiction|].
    destruct (join_lines_head final_newline ">" (fa_id r)
                (fa_lines r ++ flat_map fasta_block recs)) as (t & Ht).
    exists (">"%char :: fst (until_newline t)).
    apply detect_format_fasta. rewrite Hin. f_equal. exact Ht.
  - intros w Hin.
    assert (Hb : before (in1_file w) (flat_map fasta_block recs)).
    { rewrite Hin. apply opened_before; assumption. }
    destruct (file1_loop_fasta recs
                (S (length (join_lines final_newline
                                       (flat_map fasta_block recs))))
                w Hv Hb) as (w' & E & Hev & _ & _).
    { pose proof (fasta_block_count recs).
      apply before_length in Hb. rewrite Hin in Hb. simpl in Hb. lia. }
    exists w'. split; assumption.
Qed.

Lemma fasta_one_item_per_block_witness :
  exists extra,
    pushed (snd (run_main (sample_env (Some sample_fasta) None) single_args))
    = map fasta_item sample_fasta_records ++ extra /\
    (is_paired single_options = false ->
     extra = [] /\
     fst (run_main (sample_env (Some sample_fasta) None) single_args)
     = Returned EXIT_SUCCESS).
Proof.
  apply (fasta_one_item_per_block
           (sample_env (Some sample_fasta) None) single_args single_options
           (log [ReadIndexes "proteins.fmi"; ConfigInit] initial_World)
           sample_fasta_records true).
  - reflexivity.
  - discriminate.
  - repeat constructor.
  - intros H. discriminate H.
  - reflexivity.
  - intros H. discriminate H.
Defined.

(** C6: when the primary input is a well-formed FASTQ text, made of the
    four-line groups [recs], the run pushes one Work Item per group, in
    order: its identifier is the header line without the marker, its
    sequence is the second line with everything but letters removed; the
    separator and quality lines are any lines at all and have no effect.  In
    single mode these are all the items and the run returns.  Each record
    takes the three lines that follow its header off the stream, whatever
    they hold, and leaves the stream before the next line. *)
Theorem fastq_one_item_per_group env args o w1 recs final_newline :
  configure env args initial_World = Cont o w1 ->
  recs <> [] ->
  Forall valid_fastq_record recs ->
  well_ended final_newline (flat_map fastq_group recs) ->
  readable env (in1_filename o)
  = Some (join_lines final_newline (flat_map fastq_group recs)) ->
  (is_paired o = true -> readable env (in2_filename o) <> None) ->
  (exists extra,
      pushed (snd (run_main env args)) = map fastq_item recs ++ extra /\
      (is_paired o = false ->
       extra = [] /\ fst (run_main env args) = Returned EXIT_SUCCESS)) /\
  (forall w id sq separator quality ls,
      line_from_file w = "@"%char :: id ->
      before (in1_file w) (sq :: separator :: quality :: ls) ->
      exists w',
        read_record true w = Cont tt w' /\
        events w' = events w ++ [Push (new_ReadItem id (filter isalpha sq))] /\
        before (in1_file w') ls).
Proof.
  intros E1 Hne Hv Hend Hr1 Hr2.
  pose proof (fastq_groups_no_newline recs Hv) as Hnl.
  split.
  - apply (primary_stream_run env args o w1 _ true (map fastq_item recs)
             E1 Hr1 Hr2).
    + intros w Hin. destruct recs as [|r recs]; [contradiction|].
      destruct (join_lines_head final_newline "@" (fq_id r)
                  ([fq_sequence r; fq_separator r; fq_quality r]
                     ++ flat_map fastq_group recs)) as (t & Ht).
      exists ("@"%char :: fst (until_newline t)).
      apply detect_format_fastq. rewrite Hin. f_equal. exact Ht.
    + intros w Hin.
      assert (Hb : before (in1_file w) (flat_map fastq_group recs)).
      { rewrite Hin. apply opened_before; assumption. }
      destruct (file1_loop_fastq recs
                  (S (length (join_lines final_newline
                                         (flat_map fastq_group recs))))
                  w Hb) as (w' & E & Hev & _ & _).
      { pose proof (fastq_group_count recs).
        apply before_length in Hb. rewrite Hin in Hb. simpl in Hb. lia. }
      exists w'. split; assumption.
  - intros w id sq separator quality ls Hline Hb.
    destruct (read_record_fastq w "@" id sq separator quality ls Hline Hb)
      as (w' & E & Hev & Hb' & _).
    exists w'. rewrite <- strip_filter. repeat split; assumption.
Qed.

Lemma fastq_one_item_per_group_witness :
  exists extra,
    pushed (snd (run_main (sample_env (Some sample_fastq1) None) single_args))
    = map fastq_item sample_fastq_records ++ extra /\
    (is_paired single_options = false ->
     extra = [] /\
     fst (run_main (sample_env (Some sample_fastq1) None) single_args)
     = Returned EXIT_SUCCESS).
Proof.
  apply (proj1 (fastq_one_item_per_group
                  (sample_env (Some sample_fastq1) None) single_args
                  single_options
                  (log [ReadIndexes "proteins.fmi"; ConfigInit] initial_World)
                  sample_fastq_records true
                  eq_refl
                  ltac:(discriminate)
                  ltac:(repeat constructor)
                  ltac:(intros H; discriminate H)
                  eq_refl
                  ltac:(intros H; discriminate H))).
Defined.

(** ** The loops of the model end *)

Lemma until_newline_rest r :
  forall l o, until_newline r = (l, o) ->
    match o with
    | Some r' => (length r' < length r)%nat
    | None => l = r
    end.
Proof.
  induction r as [|c r IH]; simpl; intros l o H.
  - injection H as <- <-. reflexivity.
  - destruct (Ascii.eqb c newline).
    + injection H as <- <-. simpl. lia.
    + destruct (until_newline r) as [l1 o1]. injection H as <- <-.
      specialize (IH l1 o1 eq_refl).
      destruct o1; [lia | subst; reflexivity].
Qed.

Lemma getline_rest s str :
  (length (rest (fst (getline s str))) <= length (rest s))%nat /\
  (failbit (fst (getline s str)) = false ->
   (length (rest (fst (getline s str))) < length (rest s))%nat).
Proof.
  unfold getline. destruct (good s) eqn:Hg.
  - destruct (good_flags s Hg) as [_ Hf].
    destruct (until_newline (rest s)) as [l [r|]] eqn:E;
      apply until_newline_rest in E; simpl.
    + split; [lia | intros _; exact E].
    + split; [lia|]. subst l. rewrite Hf.
      destruct (rest s); simpl; [discriminate | lia].
  - simpl. split; [lia | discriminate].
Qed.

Lemma ignore_rest s :
  (length (rest (ignore_line s)) <= length (rest s))%nat.
Proof.
  unfold ignore_line. destruct (good s); [| simpl; lia].
  destruct (until_newline (rest s)) as [l [r|]] eqn:E;
    apply until_newline_rest in E; simpl; lia.
Qed.

Lemma fasta_lines_total fuel :
  forall w,
    (length (rest (in1_file w)) < fuel)%nat ->
    exists w',
      fasta_lines fuel w = Cont tt w' /\
      events w' = events w /\ name w' = name w /\
      in2_file w' = in2_file w /\
      (length (rest (in1_file w')) <= length (rest (in1_file w)))%nat.
Proof.
  induction fuel as [|fuel IH]; intros w Hfuel; [lia|].
  cbn [fasta_lines].
  rewrite (bind_Cont _ _ _ _ _ (peek_in1_run w)).
  unfold peek at 1 2. destruct (good (in1_file w)) eqn:Hg.
  - destruct (rest (in1_file w)) as [|c r] eqn:Hrest; cbn [fst snd].
    + rewrite EOF_is_not_marker.
      rewrite (bind_Cont _ _ _ _ _ (peek_in1_run _)).
      cbn [in1_file with_in1]. unfold peek. rewrite at_end_bad.
      cbn [fst snd]. rewrite Z.eqb_refl.
      eexists. split; [reflexivity|]. simpl. repeat split; try reflexivity; simpl; lia.
    + destruct (Z.of_N (N_of_ascii c) =? Z.of_N (N_of_ascii ">")).
      * eexists. split; [reflexivity|]. simpl. rewrite Hrest.
        repeat split; try reflexivity; simpl; lia.
      * rewrite (bind_Cont _ _ _ _ _ (peek_in1_run _)).
        cbn [in1_file with_in1]. unfold peek. rewrite Hg, Hrest.
        cbn [fst snd]. rewrite peek_is_not_EOF.
        rewrite (bind_Cont _ _ _ _ _ (getline_in1_run _)).
        unfold bind, get, set_sequence1.
        cbn [in1_file with_in1 with_line line_from_file sequence1].
        match goal with
        | |- context [fasta_lines fuel ?W] =>
            destruct (IH W) as (w' & E' & Hev & Hname & Hin2 & Hlen)
        end.
        { cbn [in1_file with_sequence1 with_line with_in1].
          destruct (getline_rest (in1_file w) (line_from_file w)) as [_ Hlt].
          assert (Hf : failbit (fst (getline (in1_file w) (line_from_file w)))
                       = false).
          { unfold getline. rewrite Hg, Hrest.
            destruct (good_flags _ Hg) as [_ Hf].
            destruct (until_newline (c :: r)) as [l [r'|]] eqn:E; simpl;
              [exact Hf|].
            apply until_newline_rest in E. subst l. rewrite Hf. reflexivity. }
          specialize (Hlt Hf). rewrite ?Hrest in Hlt. simpl in Hlt, Hfuel.
          lia. }
        rewrite E'. exists w'. split; [reflexivity|].
        rewrite Hev, Hname, Hin2. simpl. repeat split.
        cbn [in1_file with_sequence1 with_line with_in1] in Hlen.
        simpl in Hlen.
        destruct (getline_rest (in1_file w) (line_from_file w)) as [Hle _].
        rewrite ?Hrest in Hle. simpl in Hle. lia.
  - cbn [fst snd]. rewrite EOF_is_not_marker.
    rewrite (bind_Cont _ _ _ _ _ (peek_in1_run _)).
    cbn [in1_file with_in1]. unfold peek. rewrite set_failbit_bad.
    cbn [fst snd]. rewrite Z.eqb_refl.
    eexists. split; [reflexivity|]. simpl. repeat split; try reflexivity; simpl; lia.
Qed.

(** A record is read to its end, and pushed, whenever its header line is
    not empty. *)
Lemma read_record_total isFastQ w h l :
  line_from_file w = h :: l ->
  exists w' sq,
    read_record isFastQ w = Cont tt w' /\
    events w' = events w ++ [Push (new_ReadItem l sq)] /\
    in2_file w' = in2_file w /\
    (length (rest (in1_file w')) <= length (rest (in1_file w)))%nat.
Proof.
  intros Hline. unfold read_record. destruct isFastQ.
  - unfold erase_begin, bind at 1 2 3 4 5 6 7 8 9, get at 1 2.
    rewrite Hline. unfold set_line at 1, set_name at 1.
    cbn [line_from_file with_line].
    rewrite getline_in1_run.
    unfold bind, get, set_line, set_sequence1, ignore_in1, emit, set_in1.
    cbn [in1_file with_in1 with_line with_name with_sequence1 line_from_file
           name sequence1 in2_file].
    eexists _, _. split; [reflexivity|].
    cbn [events log in1_file in2_file with_in1 with_line with_name
           with_sequence1].
    split; [reflexivity|]. split; [reflexivity|].
    pose proof (getline_rest (in1_file w) l) as [H1 _].
    pose proof (ignore_rest (fst (getline (in1_file w) l))) as H2.
    pose proof (ignore_rest (ignore_line (fst (getline (in1_file w) l)))) as H3.
    lia.
  - unfold erase_begin, bind at 1 2 3 4 5 6 7, get at 1 2 3.
    rewrite Hline.
    unfold set_line at 1, set_name at 1, set_sequence1 at 1.
    cbn [line_from_file with_line with_name with_sequence1 in1_file].
    match goal with
    | |- context [bind (fasta_lines ?F) _ ?W] =>
        destruct (fasta_lines_total F W)
          as (w1 & E1 & Hev & Hname & Hin2 & Hlen)
    end.
    { cbn [in1_file with_sequence1 with_name with_line]. lia. }
    rewrite (bind_Cont _ _ _ _ _ E1). unfold bind, get, set_sequence1, emit.
    cbn [name sequence1 with_sequence1].
    eexists _, _. split; [reflexivity|].
    cbn [events in1_file in2_file log with_sequence1].
    rewrite Hev, Hname, Hin2. simpl.
    split; [reflexivity|]. split; [reflexivity | exact Hlen].
Qed.

Lemma read_record_empty isFastQ w :
  line_from_file w = [] -> read_record isFastQ w = Halt Undefined w.
Proof.
  intros Hline. unfold read_record, erase_begin, bind, get.
  destruct isFastQ; rewrite Hline; reflexivity.
Qed.

Lemma getline_in2_run w :
  getline_in2 w
  = Cont (negb (failbit (fst (getline (in2_file w) (line_from_file w)))))
         (with_line (snd (getline (in2_file w) (line_from_file w)))
            (with_in2 (fst (getline (in2_file w) (line_from_file w))) w)).
Proof.
  unfold getline_in2, bind, get.
  destruct (getline (in2_file w) (line_from_file w)). reflexivity.
Qed.

Lemma file1_loop_total isFastQ fuel :
  forall w,
    (length (rest (in1_file w)) < fuel)%nat ->
    not_starved (file1_loop fuel isFastQ w).
Proof.
  induction fuel as [|fuel IH]; intros w Hfuel; [lia|].
  cbn [file1_loop].
  rewrite (bind_Cont _ _ _ _ _ (getline_in1_run w)).
  destruct (getline_rest (in1_file w) (line_from_file w)) as [_ Hlt].
  destruct (failbit (fst (getline (in1_file w) (line_from_file w))));
    cbn [negb]; [exact I|].
  specialize (Hlt eq_refl).
  destruct (snd (getline (in1_file w) (line_from_file w))) as [|h l] eqn:Hl.
  - match goal with
    | |- context [bind (read_record isFastQ) _ ?W] =>
        rewrite (bind_Halt _ _ _ _ _ (read_record_empty isFastQ W eq_refl))
    end.
    exact I.
  - match goal with
    | |- context [bind (read_record isFastQ) _ ?W] =>
        destruct (read_record_total isFastQ W h l eq_refl)
          as (w2 & sq & E2 & _ & _ & Hlen)
    end.
    rewrite (bind_Cont _ _ _ _ _ E2). apply IH.
    cbn [in1_file with_line with_in1] in Hlen. lia.
Qed.

Lemma file2_loop_total isFastQ fuel :
  forall w,
    (length (rest (in2_file w)) < fuel)%nat ->
    not_starved (file2_loop fuel isFastQ w).
Proof.
  induction fuel as [|fuel IH]; intros w Hfuel; [lia|].
  cbn [file2_loop].
  rewrite (bind_Cont _ _ _ _ _ (getline_in2_run w)).
  destruct (getline_rest (in2_file w) (line_from_file w)) as [_ Hlt].
  destruct (failbit (fst (getline (in2_file w) (line_from_file w))));
    cbn [negb]; [exact I|].
  specialize (Hlt eq_refl).
  destruct (snd (getline (in2_file w) (line_from_file w))) as [|h l] eqn:Hl.
  - match goal with
    | |- context [bind (read_record isFastQ) _ ?W] =>
        rewrite (bind_Halt _ _ _ _ _ (read_record_empty isFastQ W eq_refl))
    end.
    exact I.
  - match goal with
    | |- context [bind (read_record isFastQ) _ ?W] =>
        destruct (read_record_total isFastQ W h l eq_refl)
          as (w2 & sq & E2 & _ & Hin2 & _)
    end.
    rewrite (bind_Cont _ _ _ _ _ E2). apply IH.
    rewrite Hin2. cbn [in2_file with_line with_in2]. lia.
Qed.

Lemma never_starves_bind {A B} (m : M A) (k : A -> M B) :
  never_starves m -> (forall a, never_starves (k a)) ->
  never_starves (bind m k).
Proof.
  intros Hm Hk w. unfold bind. specialize (Hm w).
  destruct (m w) as [a w1|s w1]; [apply Hk | exact Hm].
Qed.

Ltac starve_step :=
  match goal with
  | |- never_starves (bind _ _) => apply never_starves_bind; [| intros ?]
  | |- never_starves (when ?b _) => unfold when; destruct b
  | |- never_starves usage => unfold usage
  | |- never_starves (if ?b then _ else _) => destruct b
  | |- never_starves (let (_, _) := ?p in _) => destruct p
  | |- never_starves (match ?x with _ => _ end) => destruct x
  | |- never_starves _ => intros ?; exact I
  end.

Ltac starve_auto := repeat starve_step.

Lemma getopt_loop_never_starves args :
  forall o, never_starves (getopt_loop args o).
Proof.
  induction args as [|[c optarg] args IH]; intros o; simpl.
  - intros w. exact I.
  - apply never_starves_bind; [| intros o'; apply IH].
    unfold handle_option, numeric_option. starve_auto.
Qed.

Lemma spawn_loop_never_starves count :
  forall i tp th, never_starves (spawn_loop count i tp th).
Proof.
  intros i tp th w. rewrite spawn_loop_run. exact I.
Qed.

Lemma join_loop_never_starves threads :
  forall tp, never_starves (join_loop threads tp).
Proof.
  induction threads as [|t threads IH]; intros tp; simpl.
  - intros w. exact I.
  - apply never_starves_bind; [intros w; exact I | intros _].
    destruct tp as [|p tp]; [intros w; exact I|].
    apply never_starves_bind; [intros w; exact I | intros _; apply IH].
Qed.

Lemma read_files_never_starves paired isFastQ :
  never_starves (read_files paired isFastQ).
Proof.
  intros w. unfold read_files.
  rewrite (bind_Cont get _ w w w eq_refl).
  pose proof (file1_loop_total isFastQ (S (length (rest (in1_file w)))) w
                (Nat.lt_succ_diag_r _)) as H1.
  unfold bind at 1.
  destruct (file1_loop (S (length (rest (in1_file w)))) isFastQ w)
    as [[] w1|s w1]; [| exact H1].
  destruct paired; [| exact I].
  rewrite (bind_Cont get _ w1 w1 w1 eq_refl).
  apply file2_loop_total. apply Nat.lt_succ_diag_r.
Qed.

Lemma main_never_starves env args : never_starves (main env args).
Proof.
  unfold main, configure, parse_options.
  apply never_starves_bind.
  { apply never_starves_bind.
    - apply never_starves_bind; [apply getopt_loop_never_starves | intros o].
      unfold check_options. starve_auto.
    - intros o. unfold read_database, open_output. starve_auto. }
  intros o.
  apply never_starves_bind;
    [unfold start_workers; apply never_starves_bind;
     [intros w; exact I | intros _; apply spawn_loop_never_starves]
    | intros pool].
  apply never_starves_bind; [unfold open_inputs; starve_auto | intros paired].
  apply never_starves_bind.
  { unfold ingest.
    apply never_starves_bind; [unfold detect_format, getline_in1; starve_auto|].
    intros isFastQ.
    apply never_starves_bind; [starve_auto|].
    intros _. apply read_files_never_starves. }
  intros _. unfold shutdown, close_inputs.
  repeat first [apply join_loop_never_starves | starve_step].
Qed.

(** The iteration budgets that [main] gives to its loops are enough: no run
    of the model ends for lack of fuel. *)
Lemma run_main_never_starved env args :
  fst (run_main env args) <> Stopped Starved.
Proof.
  unfold run_main. simpl.
  pose proof (main_never_starves env args initial_World) as H.
  destruct (main env args initial_World) as [st w|s w]; simpl;
    [discriminate|].
  intros E. injection E as ->. exact H.
Qed.

(** ** Detection leaves the stream at its start *)

Lemma getline_opened c0 t str :
  c0 <> newline ->
  snd (getline (opened (c0 :: t)) str) = c0 :: fst (until_newline t) /\
  failbit (fst (getline (opened (c0 :: t)) str)) = false.
Proof.
  intros Hc. unfold getline. simpl.
  destruct (Ascii.eqb_spec c0 newline); [contradiction|].
  destruct (until_newline t) as [l [r|]]; simpl; split; reflexivity.
Qed.

Lemma read_files_first_record paired isFastQ w c0 t :
  in1_file w = opened (c0 :: t) ->
  c0 <> newline ->
  exists sq more,
    events (world_of (read_files paired isFastQ w))
    = events w ++ Push (new_ReadItem (fst (until_newline t)) sq) :: more.
Proof.
  intros Hin Hc.
  unfold read_files.
  rewrite (bind_Cont get _ w w w eq_refl).
  cbn [file1_loop]. rewrite !bind_assoc.
  rewrite (bind_Cont _ _ _ _ _ (getline_in1_run w)).
  rewrite Hin.
  destruct (getline_opened c0 t (line_from_file w) Hc) as [Hl Hf].
  rewrite Hf, Hl. cbn [negb]. rewrite !bind_assoc.
  match goal with
  | |- context [bind (read_record isFastQ) _ ?W] =>
      destruct (read_record_total isFastQ W c0 (fst (until_newline t)) eq_refl)
        as (w2 & sq & E2 & Hev2 & _ & _)
  end.
  rewrite (bind_Cont _ _ _ _ _ E2).
  match goal with
  | |- context [world_of (bind ?m ?k w2)] =>
      assert (Hem : emits is_single_push (bind m k))
  end.
  { apply emits_bind; [apply file1_loop_emits | intros _].
    destruct paired; [| apply emits_ret].
    apply emits_bind; [apply emits_get | intros w0; apply file2_loop_emits]. }
  destruct (Hem w2) as (more & Hmore & _).
  exists sq, more. rewrite Hmore, Hev2. simpl.
  rewrite <- app_assoc. reflexivity.
Qed.

(** C7: when detection succeeds, the primary stream is again as it was just
    after it was opened, at the start of its data and with its flags clear,
    and nothing else has changed but [line_from_file]; the first Work Item
    pushed afterwards carries the first line of the stream, less its first
    character, as its identifier. *)
Theorem detection_restores_the_stream o w c isFastQ w' :
  in1_file w = opened c ->
  detect_format o w = Cont isFastQ w' ->
  in1_file w' = opened c /\
  in2_file w' = in2_file w /\
  events w' = events w /\
  (forall paired, exists sq more,
      events (world_of (read_files paired isFastQ w'))
      = events w
        ++ Push (new_ReadItem (tl (fst (until_newline c))) sq) :: more).
Proof.
  intros Hin Hd.
  assert (Hcases : (exists t, c = "@"%char :: t) \/ (exists t, c = ">"%char :: t)
                   \/ (hd_error c <> Some "@"%char /\ hd_error c <> Some ">"%char)).
  { destruct c as [|c0 t]; [right; right; split; discriminate|].
    destruct (Ascii.eqb_spec c0 "@") as [->|H1]; [left; eauto|].
    destruct (Ascii.eqb_spec c0 ">") as [->|H2]; [right; left; eauto|].
    right; right. split; intros E; injection E as E; contradiction. }
  destruct Hcases as [(t & ->) | [(t & ->) | (H1 & H2)]].
  - rewrite (detect_format_fastq o w t Hin) in Hd. injection Hd as <- <-.
    repeat split; try assumption; try reflexivity.
    intros paired.
    destruct (read_files_first_record paired true
                (with_line ("@"%char :: fst (until_newline t)) w) "@" t Hin)
      as (sq & more & H); [discriminate|].
    exists sq, more. rewrite H. simpl.
    destruct (until_newline t). reflexivity.
  - rewrite (detect_format_fasta o w t Hin) in Hd. injection Hd as <- <-.
    repeat split; try assumption; try reflexivity.
    intros paired.
    destruct (read_files_first_record paired false
                (with_line (">"%char :: fst (until_newline t)) w) ">" t Hin)
      as (sq & more & H); [discriminate|].
    exists sq, more. rewrite H. simpl.
    destruct (until_newline t). reflexivity.
  - destruct (detect_format_unrecognised o w c Hin H1 H2) as (w2 & E & _).
    rewrite E in Hd. discriminate Hd.
Qed.

Lemma detection_restores_the_stream_witness :
  in1_file (with_line (str "@r1") (with_in1 (opened sample_fastq1) initial_World))
  = opened sample_fastq1 /\
  in2_file (with_line (str "@r1") (with_in1 (opened sample_fastq1) initial_World))
  = in2_file (with_in1 (opened sample_fastq1) initial_World) /\
  events (with_line (str "@r1") (with_in1 (opened sample_fastq1) initial_World))
  = events (with_in1 (opened sample_fastq1) initial_World) /\
  (forall paired, exists sq more,
      events (world_of
                (read_files paired true
                   (with_line (str "@r1")
                      (with_in1 (opened sample_fastq1) initial_World))))
      = events (with_in1 (opened sample_fastq1) initial_World)
        ++ Push (new_ReadItem (tl (fst (until_newline sample_fastq1))) sq)
           :: more).
Proof.
  apply (detection_restores_the_stream single_options
           (with_in1 (opened sample_fastq1) initial_World) sample_fastq1 true).
  - reflexivity.
  - reflexivity.
Defined.

(** ** The second input file *)

Lemma read_record_keeps_in2 isFastQ w :
  in2_file (world_of (read_record isFastQ w)) = in2_file w.
Proof.
  destruct (line_from_file w) as [|h l] eqn:Hline.
  - rewrite (read_record_empty isFastQ w Hline). reflexivity.
  - destruct (read_record_total isFastQ w h l Hline)
      as (w' & sq & E & _ & Hin2 & _).
    rewrite E. exact Hin2.
Qed.

(** C1 does not hold of the code: the body of the second loop never reads
    from [in2_file], it reads from [in1_file], which is at its end by then.
    In a paired FASTQ run each line of the second file therefore becomes a
    Work Item of its own, and no sequence line of the second file is read as
    a sequence; the contract asks for the single item [("m1", "TTTT")] after
    [("r1", "ACGT")]. *)
Theorem second_file_records_read_from_first_stream :
  (forall isFastQ w,
      in2_file (world_of (read_record isFastQ w)) = in2_file w) /\
  run_main (sample_env (Some sample_fastq1) (Some sample_fastq2)) paired_args
  = (Returned EXIT_SUCCESS,
     [ReadIndexes "proteins.fmi"; ConfigInit; NewQueue 500; Spawn 0;
      OpenIn1 "reads1"; OpenIn2 "reads2";
      Push (new_ReadItem (str "r1") (str "ACGT"));
      Push (new_ReadItem (str "m1") (str "m"));
      Push (new_ReadItem (str "TTT") (str "TTT"));
      Push (new_ReadItem (str "") (str ""));
      Push (new_ReadItem (str "III") (str "III"));
      PushedLast; CloseIn1; CloseIn2; Join 0; DeleteThread 0; FlushOutput;
      DeleteQueue; DeleteConfig]) /\
  pushed (snd (run_main (sample_env (Some sample_fastq1) (Some sample_fastq2))
                        paired_args))
  <> [new_ReadItem (str "r1") (str "ACGT");
      new_ReadItem (str "m1") (str "TTTT")].
Proof.
  split; [exact read_record_keeps_in2|].
  split; [vm_compute; reflexivity|].
  vm_compute. discriminate.
Qed.


(** * Further properties of the code *)

(** ** The option loop *)

(** X1: when the option loop runs to its end, a numeric option holds the
    value of its last occurrence that [stoi] accepts; occurrences that
    [stoi] rejects, before or after, do not count. *)
Theorem last_accepted_value_wins args before c optarg after v w o' w' :
  args = before ++ (c, optarg) :: after ->
  is_numeric_option c = true ->
  stoi optarg = StoiValue v ->
  (forall a, In a after -> fst a = c ->
             forall v', stoi (snd a) <> StoiValue v') ->
  getopt_loop args default_Options w = Cont o' w' ->
  option_value c o' = v.
Proof.
  intros -> Hc Hv Hlater Hrun.
  rewrite getopt_loop_app in Hrun.
  apply bind_inv in Hrun. destruct Hrun as (o1 & w1 & _ & Hrun).
  simpl in Hrun. apply bind_inv in Hrun.
  destruct Hrun as (o2 & w2 & H2 & Hrun).
  destruct (handle_numeric_value o1 c optarg v w1 Hc Hv) as (o2' & E2 & Hval).
  rewrite E2 in H2. injection H2 as <- <-.
  rewrite (getopt_loop_keeps c after o2' w1 o' w' Hc Hrun Hlater).
  exact Hval.
Qed.

Lemma last_accepted_value_wins_witness :
  option_value "z"
    (set_num_threads (set_num_threads default_Options 2) 8) = 8.
Proof.
  apply (last_accepted_value_wins
           [("z"%char, "2"%string); ("z"%char, "8"%string);
            ("z"%char, "many"%string)]
           [("z"%char, "2"%string)] "z" "8" [("z"%char, "many"%string)] 8
           initial_World
           (set_num_threads (set_num_threads default_Options 2) 8)
           (log [Cerr (InvalidArgument "z" "many")] initial_World)).
  - reflexivity.
  - reflexivity.
  - reflexivity.
  - intros a [<-|[]] _ v' H. discriminate H.
  - reflexivity.
Defined.

(** X2: a numeric option none of whose occurrences [stoi] accepts keeps its
    default (65, 11, 7, 0 and 1 for [-s], [-m], [-l], [-e] and [-z]). *)
Theorem rejected_values_keep_the_default args c w o' w' :
  is_numeric_option c = true ->
  (forall a, In a args -> fst a = c ->
             forall v, stoi (snd a) <> StoiValue v) ->
  getopt_loop args default_Options w = Cont o' w' ->
  option_value c o' = option_value c default_Options.
Proof.
  intros Hc Hrej Hrun.
  exact (getopt_loop_keeps c args default_Options w o' w' Hc Hrun Hrej).
Qed.

Lemma rejected_values_keep_the_default_witness :
  option_value "s" (set_verbose default_Options true)
  = option_value "s" default_Options.
Proof.
  apply (rejected_values_keep_the_default
           [("s"%char, "high"%string); ("v"%char, ""%string);
            ("s"%char, "99999999999"%string)]
           "s" initial_World (set_verbose default_Options true)
           (log [Cerr (InvalidArgument "s" "high");
                 Cerr (InvalidArgument "s" "99999999999")] initial_World)).
  - reflexivity.
  - intros a [<-|[<-|[<-|[]]]] E v H;
      solve [discriminate E | discriminate H].
  - reflexivity.
Defined.

Lemma check_options_stops o w s w' :
  check_options o w = Halt s w' -> s = Exited EXIT_FAILURE.
Proof.
  unfold check_options, usage, bind, cerr, emit, ret, exit, halt.
  repeat match goal with
         | |- context [if ?b then _ else _] => destruct b
         end;
    intros H; try discriminate H; injection H as <- _; reflexivity.
Qed.

Lemma check_options_validated o w w' :
  check_options o w = Cont tt w' -> validated o.
Proof.
  unfold check_options, usage, bind, cerr, emit, ret, exit, halt.
  destruct (min_score o <=? 0) eqn:E1; [discriminate|].
  destruct (num_threads o <=? 0) eqn:E2; [discriminate|].
  destruct (min_fragment_length o <=? 0) eqn:E3; [discriminate|].
  destruct (mismatches o <? 0) eqn:E4; [discriminate|].
  destruct (seed_length o <? 7) eqn:E5; [discriminate|].
  destruct (String.length (fmi_filename o) =? 0)%nat eqn:E6; [discriminate|].
  destruct (String.length (in1_filename o) =? 0)%nat eqn:E7; [discriminate|].
  intros _.
  apply Z.leb_gt in E1, E2, E3. apply Z.ltb_ge in E4, E5.
  apply Nat.eqb_neq in E6, E7.
  unfold validated. repeat split; try lia.
  - intros H. rewrite H in E6. apply E6. reflexivity.
  - intros H. rewrite H in E7. apply E7. reflexivity.
Qed.

Lemma parse_options_stops args w s w' :
  parse_options args w = Halt s w' -> s = Exited EXIT_FAILURE.
Proof.
  unfold parse_options, bind.
  destruct (getopt_loop args default_Options w) as [o w1|s1 w1] eqn:E1.
  - destruct (check_options o w1) as [[] w2|s2 w2] eqn:E2.
    + discriminate.
    + intros H. injection H as <- _. eapply check_options_stops; eauto.
  - intros H. injection H as <- _. eapply getopt_loop_stops; eauto.
Qed.

Lemma stoi_int_range optarg v :
  stoi optarg = StoiValue v -> INT_MIN <= v <= INT_MAX.
Proof.
  unfold stoi.
  destruct (skip_spaces (str optarg)) as [|c t];
    [simpl; discriminate|].
  match goal with
  | |- (let '(negative, s') := ?p in _) = _ -> _ =>
      destruct p as [negative s']
  end.
  destruct (read_digits s' None) as [d|]; [| discriminate].
  destruct ((INT_MIN <=? (if negative then - d else d))
            && ((if negative then - d else d) <=? INT_MAX)) eqn:E;
    [| discriminate].
  intros H. injection H as <-.
  apply andb_true_iff in E. destruct E as [E1 E2].
  apply Z.leb_le in E1, E2. lia.
Qed.

Lemma handle_option_int_options o c optarg w o' w' :
  int_options o ->
  handle_option o c optarg w = Cont o' w' ->
  int_options o'.
Proof.
  intros Hint Hrun.
  unfold handle_option, numeric_option in Hrun.
  repeat match type of Hrun with
         | context [Ascii.eqb c ?x] => destruct (Ascii.eqb c x)
         | context [String.eqb ?x ?y] => destruct (String.eqb x y)
         end;
    try (destruct (stoi optarg) as [v| |] eqn:Hv;
         [apply stoi_int_range in Hv| |]);
    unfold usage, bind, cerr, emit, ret, exit, halt in Hrun;
    try discriminate Hrun;
    injection Hrun as <- <-;
    unfold int_options in *; simpl; tauto.
Qed.

Lemma getopt_loop_int_options args :
  forall o w o' w',
    int_options o ->
    getopt_loop args o w = Cont o' w' ->
    int_options o'.
Proof.
  induction args as [|[c optarg] args IH]; intros o w o' w' Hint Hrun.
  - simpl in Hrun. injection Hrun as <- <-. exact Hint.
  - simpl in Hrun. apply bind_inv in Hrun.
    destruct Hrun as (o1 & w1 & H1 & H2).
    eapply IH; [| exact H2].
    eapply handle_option_int_options; eauto.
Qed.

(** X3: the options with which a run gets past the option loop and the
    checks are in range ([-s], [-z], [-m] above 0, [-e] at least 0, [-l] at
    least 7), name an index file and a primary input, and their numeric
    values are values of a 32-bit [int]. *)
Theorem parsed_options_are_validated args w o w' :
  parse_options args w = Cont o w' ->
  validated o /\ int_options o.
Proof.
  unfold parse_options. intros H.
  apply bind_inv in H. destruct H as (o1 & w1 & H1 & H).
  apply bind_inv in H. destruct H as ([] & w2 & H2 & H).
  injection H as <- <-.
  split; [eapply check_options_validated; eauto|].
  eapply getopt_loop_int_options; [| exact H1].
  unfold int_options, INT_MIN, INT_MAX. simpl. lia.
Qed.

Lemma parsed_options_are_validated_witness :
  validated single_options /\ int_options single_options.
Proof.
  apply (parsed_options_are_validated single_args initial_World
           single_options initial_World).
  reflexivity.
Defined.

(** ** Runs that stop in the option loop or the checks *)

Lemma parse_halt_aborts env args s w' :
  parse_options args initial_World = Halt s w' ->
  aborted_before_pipeline (run_main env args).
Proof.
  intros E.
  pose proof (parse_options_stops args initial_World s w' E) as ->.
  destruct (parse_options_logs args initial_World) as (l & Hw & Fl).
  rewrite E in Hw. simpl in Hw.
  unfold aborted_before_pipeline, run_main, main, configure.
  rewrite (bind_Halt _ _ _ _ _ (bind_Halt _ _ _ _ _ E)).
  simpl. split; [reflexivity|].
  rewrite Hw. simpl. exact Fl.
Qed.

Lemma handle_option_keeps_filenames o c optarg w o' w' :
  handle_option o c optarg w = Cont o' w' ->
  (c <> "f"%char -> fmi_filename o' = fmi_filename o) /\
  (c <> "i"%char -> in1_filename o' = in1_filename o).
Proof.
  intros Hrun.
  unfold handle_option, numeric_option in Hrun.
  repeat match type of Hrun with
         | context [Ascii.eqb c ?x] =>
             destruct (Ascii.eqb_spec c x) as [->|?]
         | context [String.eqb ?x ?y] => destruct (String.eqb x y)
         end;
    try (destruct (stoi optarg) as [v| |]);
    unfold usage, bind, cerr, emit, ret, exit, halt in Hrun;
    try discriminate Hrun;
    injection Hrun as <- <-;
    split; intros Hne; solve [reflexivity | contradiction].
Qed.

Lemma getopt_loop_keeps_filenames args :
  forall o w o' w',
    getopt_loop args o w = Cont o' w' ->
    ((forall a, In a args -> fst a <> "f"%char) ->
     fmi_filename o' = fmi_filename o) /\
    ((forall a, In a args -> fst a <> "i"%char) ->
     in1_filename o' = in1_filename o).
Proof.
  induction args as [|[c optarg] args IH]; intros o w o' w' Hrun.
  - simpl in Hrun. injection Hrun as <- <-. split; reflexivity.
  - simpl in Hrun. apply bind_inv in Hrun.
    destruct Hrun as (o1 & w1 & H1 & H2).
    destruct (IH _ _ _ _ H2) as [IHf IHi].
    destruct (handle_option_keeps_filenames _ _ _ _ _ _ H1) as [Hf Hi].
    split; intros Hno.
    + rewrite IHf by (intros a Ha; apply Hno; right; exact Ha).
      apply Hf. apply (Hno (c, optarg)). left. reflexivity.
    + rewrite IHi by (intros a Ha; apply Hno; right; exact Ha).
      apply Hi. apply (Hno (c, optarg)). left. reflexivity.
Qed.

Lemma parsed_options_valid_aux args w o w' :
  parse_options args w = Cont o w' ->
  fmi_filename o <> ""%string /\ in1_filename o <> ""%string.
Proof.
  unfold parse_options. intros H.
  apply bind_inv in H. destruct H as (o1 & w1 & _ & H).
  apply bind_inv in H. destruct H as ([] & w2 & H2 & H).
  injection H as <- <-.
  apply check_options_validated in H2. unfold validated in H2. tauto.
Qed.

(** Every way in which the option loop or the checks stop the run goes
    through [usage]: the usage text is the last thing printed. *)
Lemma handle_option_halt_usage o c optarg w s w' :
  handle_option o c optarg w = Halt s w' ->
  exists tr, events w' = tr ++ [UsageText].
Proof.
  unfold handle_option, numeric_option.
  repeat match goal with
         | |- context [Ascii.eqb c ?x] => destruct (Ascii.eqb c x)
         | |- context [String.eqb ?x ?y] => destruct (String.eqb x y)
         end;
    try (destruct (stoi optarg));
    unfold usage, bind, cerr, emit, ret, exit, halt;
    intros H; try discriminate H; injection H as _ <-;
    simpl; eexists; reflexivity.
Qed.

Lemma getopt_loop_halt_usage args :
  forall o w s w',
    getopt_loop args o w = Halt s w' ->
    exists tr, events w' = tr ++ [UsageText].
Proof.
  induction args as [|[c optarg] args IH]; intros o w s w' H; simpl in H.
  - discriminate H.
  - unfold bind in H.
    destruct (handle_option o c optarg w) as [o1 w1|s1 w1] eqn:E.
    + eapply IH; eauto.
    + injection H as _ <-. eapply handle_option_halt_usage; eauto.
Qed.

Lemma check_options_halt_usage o w s w' :
  check_options o w = Halt s w' ->
  exists tr, events w' = tr ++ [UsageText].
Proof.
  unfold check_options, usage, bind, cerr, emit, ret, exit, halt.
  repeat match goal with
         | |- context [if ?b then _ else _] => destruct b
         end;
    intros H; try discriminate H; injection H as _ <-;
    simpl; eexists; reflexivity.
Qed.

Lemma parse_options_halt_usage args w s w' :
  parse_options args w = Halt s w' ->
  exists tr, events w' = tr ++ [UsageText].
Proof.
  unfold parse_options, bind.
  destruct (getopt_loop args default_Options w) as [o w1|s1 w1] eqn:E1.
  - destruct (check_options o w1) as [[] w2|s2 w2] eqn:E2.
    + discriminate.
    + intros H. injection H as _ <-. eapply check_options_halt_usage; eauto.
  - intros H. injection H as _ <-. eapply getopt_loop_halt_usage; eauto.
Qed.

Lemma parse_halt_usage env args s w' :
  parse_options args initial_World = Halt s w' ->
  aborted_before_pipeline (run_main env args) /\
  exists tr, snd (run_main env args) = tr ++ [UsageText].
Proof.
  intros E. split; [exact (parse_halt_aborts env args s w' E)|].
  destruct (parse_options_halt_usage args initial_World s w' E) as (tr & Htr).
  exists tr. rewrite <- Htr.
  unfold run_main, main, configure.
  rewrite (bind_Halt _ _ _ _ _ (bind_Halt _ _ _ _ _ E)). reflexivity.
Qed.

(** X4: an invocation without [-f], or without [-i], stops with a failure
    status after the usage text, which is the last thing it prints; nothing
    was opened and no thread started, the main thread has only written
    messages. *)
Theorem missing_mandatory_option_aborts env args :
  (forall a, In a args -> fst a <> "f"%char) \/
  (forall a, In a args -> fst a <> "i"%char) ->
  aborted_before_pipeline (run_main env args) /\
  exists tr, snd (run_main env args) = tr ++ [UsageText].
Proof.
  intros Hmissing.
  destruct (parse_options args initial_World) as [o w1|s w1] eqn:E;
    [| exact (parse_halt_usage env args s w1 E)].
  exfalso.
  destruct (parsed_options_valid_aux args initial_World o w1 E) as [Hf Hi].
  unfold parse_options in E.
  apply bind_inv in E. destruct E as (o1 & w2 & E1 & E).
  apply bind_inv in E. destruct E as ([] & w3 & _ & E).
  injection E as <- <-.
  destruct (getopt_loop_keeps_filenames args _ _ _ _ E1) as [Kf Ki].
  destruct Hmissing as [Hno|Hno].
  - apply Hf. rewrite (Kf Hno). reflexivity.
  - apply Hi. rewrite (Ki Hno). reflexivity.
Qed.

Lemma missing_mandatory_option_aborts_witness :
  aborted_before_pipeline
    (run_main (sample_env (Some sample_fasta) None)
              [("i"%char, "reads1"%string); ("z"%char, "4"%string)]) /\
  exists tr,
    snd (run_main (sample_env (Some sample_fasta) None)
                  [("i"%char, "reads1"%string); ("z"%char, "4"%string)])
    = tr ++ [UsageText].
Proof.
  apply (missing_mandatory_option_aborts
           (sample_env (Some sample_fasta) None)
           [("i"%char, "reads1"%string); ("z"%char, "4"%string)]).
  left. intros a [<-|[<-|[]]]; discriminate.
Defined.

Lemma getopt_loop_stops_at args c optarg :
  In (c, optarg) args ->
  (forall o w, exists w',
      handle_option o c optarg w = Halt (Exited EXIT_FAILURE) w') ->
  forall o w, exists w',
    getopt_loop args o w = Halt (Exited EXIT_FAILURE) w'.
Proof.
  intros Hin Hstop.
  induction args as [|[c1 optarg1] args IH]; intros o w; [destruct Hin|].
  simpl. unfold bind.
  destruct (handle_option o c1 optarg1 w) as [o1 w1|s w1] eqn:E.
  - destruct Hin as [Heq|Hin].
    + injection Heq as -> ->.
      destruct (Hstop o w) as (w' & E'). rewrite E' in E. discriminate E.
    + apply IH. exact Hin.
  - apply handle_option_stops in E. subst s. eexists. reflexivity.
Qed.

Lemma getopt_halt_aborts env args :
  (forall o w, exists w',
      getopt_loop args o w = Halt (Exited EXIT_FAILURE) w') ->
  aborted_before_pipeline (run_main env args).
Proof.
  intros H. destruct (H default_Options initial_World) as (w' & E).
  apply (parse_halt_aborts env args (Exited EXIT_FAILURE) w').
  unfold parse_options. apply bind_Halt. exact E.
Qed.

(** X5: [-h], and any option character for which the [switch] has no case
    of its own ([r], [n], [b], or the [?] that [getopt] returns for an
    unknown option), wherever it stands on the command line, makes the run
    stop with a failure status after the usage text, which is the last
    thing it prints, before anything is opened. *)
Theorem help_or_unknown_option_aborts env args c optarg :
  In (c, optarg) args ->
  continues_option c = false ->
  aborted_before_pipeline (run_main env args) /\
  exists tr, snd (run_main env args) = tr ++ [UsageText].
Proof.
  intros Hin Hc.
  assert (Hstop : forall o w, exists w',
             getopt_loop args o w = Halt (Exited EXIT_FAILURE) w').
  2: { destruct (Hstop default_Options initial_World) as (w' & E).
       apply (parse_halt_usage env args (Exited EXIT_FAILURE) w').
       unfold parse_options. apply bind_Halt. exact E. }
  apply (getopt_loop_stops_at args c optarg Hin).
  intros o w. unfold continues_option in Hc. simpl in Hc.
  repeat (apply orb_false_iff in Hc; destruct Hc as [? Hc]).
  unfold handle_option.
  repeat match goal with
         | H : Ascii.eqb c ?x = false |- _ => rewrite H; clear H
         end.
  destruct (Ascii.eqb c "h"); eexists; reflexivity.
Qed.

Lemma help_or_unknown_option_aborts_witness :
  aborted_before_pipeline
    (run_main (sample_env (Some sample_fasta) None)
              (single_args ++ [("h"%char, ""%string)])) /\
  exists tr,
    snd (run_main (sample_env (Some sample_fasta) None)
                  (single_args ++ [("h"%char, ""%string)]))
    = tr ++ [UsageText].
Proof.
  apply (help_or_unknown_option_aborts
           (sample_env (Some sample_fasta) None)
           (single_args ++ [("h"%char, ""%string)]) "h" "").
  - right. right. left. reflexivity.
  - reflexivity.
Defined.

(** X6: [-a] with an argument other than [mem], [greedyblosum] or [greedy]
    makes the run stop with a failure status before anything is opened,
    whatever options precede or follow it. *)
Theorem invalid_mode_aborts env args optarg :
  In ("a"%char, optarg) args ->
  valid_mode optarg = false ->
  aborted_before_pipeline (run_main env args).
Proof.
  intros Hin Hm. apply getopt_halt_aborts.
  apply (getopt_loop_stops_at args "a" optarg Hin).
  intros o w. unfold valid_mode in Hm.
  apply orb_false_iff in Hm. destruct Hm as [Hm H3].
  apply orb_false_iff in Hm. destruct Hm as [H1 H2].
  unfold handle_option. rewrite H1, H2, H3.
  eexists. reflexivity.
Qed.

Lemma invalid_mode_aborts_witness :
  aborted_before_pipeline
    (run_main (sample_env (Some sample_fasta) None)
              (("a"%char, "fast"%string) :: single_args)).
Proof.
  apply (invalid_mode_aborts
           (sample_env (Some sample_fasta) None)
           (("a"%char, "fast"%string) :: single_args) "fast").
  - left. reflexivity.
  - reflexivity.
Defined.

(** ** Runs that stop while the index, the output or the second input is
    opened *)

Lemma configure_halt_run env args s w' :
  configure env args initial_World = Halt s w' ->
  run_main env args = (Stopped s, events w') /\
  Forall is_configuration (events w').
Proof.
  intros E.
  destruct (configure_logs env args initial_World) as (l & Hw & Fl).
  rewrite E in Hw. simpl in Hw.
  unfold run_main, main. rewrite (bind_Halt _ _ _ _ _ E). simpl.
  split; [reflexivity|]. rewrite Hw. simpl. exact Fl.
Qed.

(** X7: when the options are valid and the index file cannot be opened, the
    run prints the message and the usage text and stops with a failure
    status; up to then the main thread has only written messages. *)
Theorem unreadable_index_aborts env args o w1 :
  parse_options args initial_World = Cont o w1 ->
  readable env (fmi_filename o) = None ->
  aborted_before_pipeline (run_main env args) /\
  exists tr,
    snd (run_main env args)
    = tr ++ [Cerr (CouldNotOpen (fmi_filename o)); UsageText].
Proof.
  intros E Hr.
  destruct (parse_options_logs args initial_World) as (l1 & Hw1 & F1).
  rewrite E in Hw1. simpl in Hw1.
  assert (Hc : exists pre,
             configure env args initial_World
             = Halt (Exited EXIT_FAILURE)
                    (log (pre ++ [Cerr (CouldNotOpen (fmi_filename o));
                                  UsageText]) w1) /\
             Forall is_message pre).
  { unfold configure. rewrite (bind_Cont _ _ _ _ _ E).
    unfold read_database. rewrite Hr.
    exists ((if debug o then [Cerr Parameters] else [])
            ++ (if verbose o
                then [Cerr ReadingDatabase;
                      Cerr (ReadingFmIndex (fmi_filename o))]
                else [])).
    split; [| destruct (debug o), (verbose o); repeat constructor].
    destruct (debug o), (verbose o);
      unfold when, usage, bind, cerr, emit, ret, exit, halt;
      rewrite ?log_log; reflexivity. }
  destruct Hc as (pre & Hc & Fpre).
  destruct (configure_halt_run env args _ _ Hc) as [Hrun _].
  rewrite Hrun. unfold aborted_before_pipeline. simpl.
  rewrite Hw1. simpl.
  split.
  - split; [reflexivity|].
    apply Forall_app. split; [exact F1|].
    apply Forall_app. split; [exact Fpre | repeat constructor].
  - exists (l1 ++ pre). rewrite <- app_assoc. reflexivity.
Qed.

Lemma unreadable_index_aborts_witness :
  aborted_before_pipeline
    (run_main (sample_env (Some sample_fasta) None)
              [("f"%char, "missing.fmi"%string); ("i"%char, "reads1"%string)])
  /\
  exists tr,
    snd (run_main (sample_env (Some sample_fasta) None)
                  [("f"%char, "missing.fmi"%string);
                   ("i"%char, "reads1"%string)])
    = tr ++ [Cerr (CouldNotOpen "missing.fmi"); UsageText].
Proof.
  apply (unreadable_index_aborts
           (sample_env (Some sample_fasta) None)
           [("f"%char, "missing.fmi"%string); ("i"%char, "reads1"%string)]
           (mk_Options MEM 65 11 7 0 1 false false "missing.fmi" "reads1" "" "")
           initial_World).
  - reflexivity.
  - reflexivity.
Defined.

(** X8: when the options are valid, the index file opens and an output file
    is named that cannot be opened for writing, the run stops with a failure
    status right after the message.  The index has been read by then; the
    queue has not been built, no thread started and no input opened. *)
Theorem unwritable_output_aborts env args o w1 idx :
  parse_options args initial_World = Cont o w1 ->
  readable env (fmi_filename o) = Some idx ->
  output_filename o <> ""%string ->
  writable env (output_filename o) = false ->
  fst (run_main env args) = Stopped (Exited EXIT_FAILURE) /\
  Forall is_configuration (snd (run_main env args)) /\
  In (ReadIndexes (fmi_filename o)) (snd (run_main env args)) /\
  exists tr,
    snd (run_main env args)
    = tr ++ [Cerr (OutputFile (output_filename o));
             Cerr (CouldNotOpenForWriting (output_filename o))].
Proof.
  intros E Hr Hout Hw.
  assert (Hlen : (0 <? String.length (output_filename o))%nat = true).
  { apply Nat.ltb_lt. destruct (output_filename o); [contradiction|].
    simpl. lia. }
  assert (Hc : exists pre,
             configure env args initial_World
             = Halt (Exited EXIT_FAILURE)
                    (log (pre ++ [Cerr (OutputFile (output_filename o));
                                  Cerr (CouldNotOpenForWriting
                                          (output_filename o))]) w1) /\
             In (ReadIndexes (fmi_filename o)) pre).
  { unfold configure. rewrite (bind_Cont _ _ _ _ _ E).
    unfold read_database, open_output. rewrite Hr, Hlen, Hw.
    exists ((if debug o then [Cerr Parameters] else [])
            ++ (if verbose o
                then [Cerr ReadingDatabase;
                      Cerr (ReadingFmIndex (fmi_filename o))]
                else [])
            ++ [ReadIndexes (fmi_filename o)]
            ++ (if debug o then [Cerr BwtRead] else [])
            ++ [ConfigInit]).
    split.
    - destruct (debug o), (verbose o);
        unfold when, usage, bind, cerr, emit, ret, exit, halt;
        rewrite ?log_log; reflexivity.
    - destruct (debug o), (verbose o); simpl; tauto. }
  destruct Hc as (pre & Hc & Hin).
  destruct (configure_halt_run env args _ _ Hc) as [Hrun Fc].
  rewrite Hrun. simpl.
  split; [reflexivity|]. split; [exact Fc|].
  split.
  - apply in_or_app. right. apply in_or_app. left. exact Hin.
  - exists (events w1 ++ pre). rewrite <- app_assoc. reflexivity.
Qed.

Lemma unwritable_output_aborts_witness :
  fst (run_main (mk_Env (fun _ => Some []) (fun _ => false))
                (single_args ++ [("o"%char, "out.txt"%string)]))
  = Stopped (Exited EXIT_FAILURE) /\
  Forall is_configuration
    (snd (run_main (mk_Env (fun _ => Some []) (fun _ => false))
                   (single_args ++ [("o"%char, "out.txt"%string)]))) /\
  In (ReadIndexes "proteins.fmi")
    (snd (run_main (mk_Env (fun _ => Some []) (fun _ => false))
                   (single_args ++ [("o"%char, "out.txt"%string)]))) /\
  exists tr,
    snd (run_main (mk_Env (fun _ => Some []) (fun _ => false))
                  (single_args ++ [("o"%char, "out.txt"%string)]))
    = tr ++ [Cerr (OutputFile "out.txt");
             Cerr (CouldNotOpenForWriting "out.txt")].
Proof.
  apply (unwritable_output_aborts
           (mk_Env (fun _ => Some []) (fun _ => false))
           (single_args ++ [("o"%char, "out.txt"%string)])
           (set_output_filename single_options "out.txt")
           initial_World []).
  - reflexivity.
  - reflexivity.
  - discriminate.
  - reflexivity.
Defined.

(** X9: in paired mode, when the primary input opens and the second input
    cannot be opened, the run stops with a failure status right after the
    message; the threads have been started, and no Work Item of the primary
    input has been pushed. *)
Theorem unreadable_second_input_aborts env args o w1 c :
  configure env args initial_World = Cont o w1 ->
  readable env (in1_filename o) = Some c ->
  is_paired o = true ->
  readable env (in2_filename o) = None ->
  fst (run_main env args) = Stopped (Exited EXIT_FAILURE) /\
  (exists tr,
      snd (run_main env args)
      = tr ++ [OpenIn1 (in1_filename o); OpenIn2 (in2_filename o);
               Cerr (CouldNotOpen (in2_filename o))]) /\
  pushed (snd (run_main env args)) = [] /\
  spawned (snd (run_main env args)) = seq 0 (Z.to_nat (num_threads o)).
Proof.
  intros E1 Hr1 Hp Hr2.
  destruct (configure_logs env args initial_World) as (l1 & Hw1 & F1).
  rewrite E1 in Hw1. simpl in Hw1.
  unfold run_main, main.
  rewrite (bind_Cont _ _ _ _ _ E1).
  rewrite (bind_Cont _ _ _ _ _ (start_workers_run o w1)).
  set (n := Z.to_nat (num_threads o)).
  set (w2 := log (NewQueue 500 :: map Spawn (seq 0 n)) w1).
  assert (Hev2 : events w2 = l1 ++ NewQueue 500 :: map Spawn (seq 0 n)).
  { unfold w2. rewrite Hw1. reflexivity. }
  assert (Hs2 : is_open (in2_file w2) = false)
    by (unfold w2; rewrite Hw1; reflexivity).
  destruct (open_inputs_readable env o w2 c Hr1 Hs2)
    as [(w3 & E3 & Hev3 & _) | (paired & w3 & _ & _ & Hpaired & Hin2 & _)].
  - rewrite (bind_Halt _ _ _ _ _ E3). simpl.
    destruct (aborted_start_trace l1 n
                [OpenIn1 (in1_filename o); OpenIn2 (in2_filename o)]
                (CouldNotOpen (in2_filename o)) F1)
      as (Hpu & _ & Hsp); [repeat constructor|].
    assert (Htr : events w3
                  = l1 ++ (NewQueue 500 :: map Spawn (seq 0 n))
                       ++ [OpenIn1 (in1_filename o); OpenIn2 (in2_filename o)]
                       ++ [Cerr (CouldNotOpen (in2_filename o))]).
    { rewrite Hev3, Hev2, <- !app_assoc. reflexivity. }
    rewrite Htr. split; [reflexivity|].
    split; [| split; assumption].
    exists (l1 ++ NewQueue 500 :: map Spawn (seq 0 n)).
    rewrite <- !app_assoc. reflexivity.
  - exfalso. unfold is_paired in Hp. rewrite Hp in Hpaired. subst paired.
    destruct Hin2 as (c2 & Hc2 & _). rewrite Hr2 in Hc2. discriminate Hc2.
Qed.

Lemma unreadable_second_input_aborts_witness :
  fst (run_main (sample_env (Some sample_fastq1) None) paired_args)
  = Stopped (Exited EXIT_FAILURE) /\
  (exists tr,
      snd (run_main (sample_env (Some sample_fastq1) None) paired_args)
      = tr ++ [OpenIn1 "reads1"; OpenIn2 "reads2";
               Cerr (CouldNotOpen "reads2")]) /\
  pushed (snd (run_main (sample_env (Some sample_fastq1) None) paired_args))
  = [] /\
  spawned (snd (run_main (sample_env (Some sample_fastq1) None) paired_args))
  = seq 0 (Z.to_nat 1).
Proof.
  apply (unreadable_second_input_aborts
           (sample_env (Some sample_fastq1) None) paired_args
           (set_in2_filename single_options "reads2")
           (log [ReadIndexes "proteins.fmi"; ConfigInit] initial_World)
           sample_fastq1).
  - reflexivity.
  - reflexivity.
  - reflexivity.
  - reflexivity.
Defined.

(** ** How runs end *)

Lemma exits_bind {A B} (m : M A) (k : A -> M B) :
  exits_after_message m -> (forall a, exits_after_message (k a)) ->
  exits_after_message (bind m k).
Proof.
  intros Hm Hk w s w'. unfold bind.
  destruct (m w) as [a w1|s1 w1] eqn:E.
  - apply Hk.
  - intros H. injection H as -> ->. eapply Hm. exact E.
Qed.

Lemma exits_message_exit {A} (e : event) :
  is_message e ->
  exits_after_message (bind (emit e) (fun _ => @exit A EXIT_FAILURE)).
Proof.
  intros He w s w' H. unfold bind, emit, exit, halt in H.
  injection H as <- <-. split; [reflexivity|].
  exists (events w), e. split; [reflexivity | exact He].
Qed.

Lemma exits_usage {A} : exits_after_message (@usage A).
Proof. apply exits_message_exit. exact I. Qed.

Lemma exits_never {A} (m : M A) :
  (forall w s w', m w <> Halt (Exited s) w') -> exits_after_message m.
Proof. intros H w s w' E. destruct (H w s w' E). Qed.

Ltac exits_step :=
  match goal with
  | |- exits_after_message usage => apply exits_usage
  | |- exits_after_message (bind (cerr _) (fun _ => exit _)) =>
      apply exits_message_exit; exact I
  | |- exits_after_message (bind _ _) => apply exits_bind; [| intros ?]
  | |- exits_after_message (when ?b _) => unfold when; destruct b
  | |- exits_after_message (if ?b then _ else _) => destruct b
  | |- exits_after_message (let (_, _) := ?p in _) => destruct p
  | |- exits_after_message (match ?x with _ => _ end) => destruct x
  | |- exits_after_message _ =>
      apply exits_never; intros ? ? ? ?; discriminate
  end.

Ltac exits_auto := repeat exits_step.

Lemma getopt_loop_exits args :
  forall o, exits_after_message (getopt_loop args o).
Proof.
  induction args as [|[c optarg] args IH]; intros o; simpl.
  - exits_auto.
  - apply exits_bind; [| intros o'; apply IH].
    unfold handle_option, numeric_option. exits_auto.
Qed.

Lemma spawn_loop_exits count :
  forall i tp th, exits_after_message (spawn_loop count i tp th).
Proof.
  intros i tp th. apply exits_never. intros w s w'.
  rewrite spawn_loop_run. discriminate.
Qed.

Lemma fasta_lines_exits fuel : exits_after_message (fasta_lines fuel).
Proof.
  induction fuel as [|fuel IH]; simpl; [exits_auto|].
  unfold peek_in1, getline_in1.
  repeat first [exact IH | exits_step].
Qed.

Lemma read_record_exits isFastQ : exits_after_message (read_record isFastQ).
Proof.
  unfold read_record, erase_begin, getline_in1, ignore_in1.
  destruct isFastQ;
    repeat first [apply fasta_lines_exits | exits_step].
Qed.

Lemma file1_loop_exits isFastQ fuel :
  exits_after_message (file1_loop fuel isFastQ).
Proof.
  induction fuel as [|fuel IH]; simpl; [exits_auto|].
  unfold getline_in1.
  repeat first [exact IH | apply read_record_exits | exits_step].
Qed.

Lemma file2_loop_exits isFastQ fuel :
  exits_after_message (file2_loop fuel isFastQ).
Proof.
  induction fuel as [|fuel IH]; simpl; [exits_auto|].
  unfold getline_in2.
  repeat first [exact IH | apply read_record_exits | exits_step].
Qed.

Lemma join_loop_exits threads :
  forall tp, exits_after_message (join_loop threads tp).
Proof.
  induction threads as [|t threads IH]; intros tp; simpl; [exits_auto|].
  repeat first [apply IH | exits_step].
Qed.

Lemma main_exits env args : exits_after_message (main env args).
Proof.
  unfold main, configure, parse_options.
  apply exits_bind.
  { apply exits_bind.
    - apply exits_bind; [apply getopt_loop_exits | intros o].
      unfold check_options. exits_auto.
    - intros o. unfold read_database, open_output. exits_auto. }
  intros o.
  apply exits_bind;
    [unfold start_workers; apply exits_bind;
     [exits_auto | intros _; apply spawn_loop_exits]
    | intros pool].
  apply exits_bind; [unfold open_inputs; exits_auto | intros paired].
  apply exits_bind.
  { unfold ingest, read_files.
    apply exits_bind; [unfold detect_format, getline_in1; exits_auto|].
    intros isFastQ.
    repeat first [apply file1_loop_exits | apply file2_loop_exits
                 | exits_step]. }
  intros _. unfold shutdown, close_inputs.
  repeat first [apply join_loop_exits | exits_step].
Qed.

(** X10: a run ends in one of three ways.  [main] returns, and then with
    the success status; or [exit] is called, and then with the failure
    status and right after a message on [cerr] (a diagnostic or the usage
    text); or [erase] is reached on an empty line. *)
Theorem every_exit_follows_a_message env args :
  match fst (run_main env args) with
  | Returned status => status = EXIT_SUCCESS
  | Stopped (Exited status) =>
      status = EXIT_FAILURE /\
      exists tr e, snd (run_main env args) = tr ++ [e] /\ is_message e
  | Stopped Undefined => True
  | Stopped Starved => False
  end.
Proof.
  pose proof (run_main_never_starved env args) as Hfuel.
  pose proof (main_returns_trace env args) as Hret.
  pose proof (main_exits env args initial_World) as Hexit.
  unfold run_main in *. simpl in *.
  destruct (main env args initial_World) as [st w|[st| |] w]; simpl in *.
  - destruct (Hret st eq_refl) as (_ & _ & _ & _ & _ & Hst & _). exact Hst.
  - apply (Hexit st w). reflexivity.
  - exact I.
  - apply Hfuel. reflexivity.
Qed.

(** ** The order of the phases *)

Lemma work_emits o paired threads threadpointers :
  emits is_work
    (bind (ingest o paired)
          (fun _ => shutdown o paired threads threadpointers)).
Proof.
  apply emits_bind.
  - eapply emits_weaken; [| apply ingest_emits]. intros e He. left. exact He.
  - intros _. eapply emits_weaken; [| apply shutdown_emits].
    intros e He. right. exact He.
Qed.

(** X11: in every run the trace of the main thread splits in two.  In the
    first part nothing is pushed.  In the second part no queue is built, no
    thread started and no input opened; and if anything is pushed there, or
    completion signalled, then the first part has built the queue and
    started the threads, at least one of them and as many as [-z] asks
    for. *)
Theorem work_starts_after_the_pool env args :
  exists start work,
    snd (run_main env args) = start ++ work /\
    pushed start = [] /\ ~ In PushedLast start /\
    spawned work = [] /\
    (forall e, In e work -> is_work e) /\
    (work <> [] ->
     In (NewQueue 500) start /\
     exists n, (0 < n)%nat /\ spawned start = seq 0 n).
Proof.
  unfold run_main. simpl.
  destruct (configure_logs env args initial_World) as (l1 & Hw1 & F1).
  assert (Hnil : forall l, Forall is_configuration l ->
                           pushed l = [] /\ ~ In PushedLast l).
  { intros l Fl. split; [reader_nil Fl|].
    apply (not_In_class _ _ _ Fl). simpl. tauto. }
  unfold main.
  destruct (configure env args initial_World) as [o w1|s w1] eqn:E1.
  2:{ rewrite (bind_Halt _ _ _ _ _ E1). simpl in Hw1 |- *.
      exists l1, []. rewrite Hw1. simpl. rewrite app_nil_r.
      destruct (Hnil l1 F1) as [Hp Hl].
      repeat split; auto; contradiction. }
  simpl in Hw1.
  assert (Hn : (0 < Z.to_nat (num_threads o))%nat).
  { unfold configure in E1. apply bind_inv in E1.
    destruct E1 as (o1 & w0 & Ep & E1).
    assert (o1 = o) as ->.
    { apply bind_inv in E1. destruct E1 as (? & ? & _ & E1).
      apply bind_inv in E1. destruct E1 as (? & ? & _ & E1).
      apply bind_inv in E1. destruct E1 as (? & ? & _ & E1).
      injection E1 as -> _. reflexivity. }
    unfold parse_options in Ep. apply bind_inv in Ep.
    destruct Ep as (o2 & w2 & _ & Ep).
    apply bind_inv in Ep. destruct Ep as ([] & w3 & Hc & Ep).
    injection Ep as -> _.
    apply check_options_validated in Hc. unfold validated in Hc. lia. }
  rewrite (bind_Cont _ _ _ _ _ E1).
  rewrite (bind_Cont _ _ _ _ _ (start_workers_run o w1)).
  set (n := Z.to_nat (num_threads o)) in *.
  set (w2 := log (NewQueue 500 :: map Spawn (seq 0 n)) w1).
  assert (Hev2 : events w2 = l1 ++ NewQueue 500 :: map Spawn (seq 0 n)).
  { unfold w2. rewrite Hw1. reflexivity. }
  destruct (open_inputs_emits env o w2) as (l3 & H3 & F3).
  assert (Hstart : forall l,
             l = l1 ++ (NewQueue 500 :: map Spawn (seq 0 n)) ++ l3 ->
             pushed l = [] /\ ~ In PushedLast l /\
             In (NewQueue 500) l /\ spawned l = seq 0 n).
  { intros l ->.
    assert (Fs : Forall is_pool (NewQueue 500 :: map Spawn (seq 0 n))).
    { constructor; [exact I|]. apply Forall_forall. intros e He.
      apply in_map_iff in He. destruct He as (i & <- & _). exact I. }
    split; [|split; [|split]].
    - rewrite !pushed_app.
      replace (pushed l1) with (@nil ReadItem) by (symmetry; reader_nil F1).
      replace (pushed l3) with (@nil ReadItem) by (symmetry; reader_nil F3).
      replace (pushed (NewQueue 500 :: map Spawn (seq 0 n)))
        with (@nil ReadItem) by (symmetry; reader_nil Fs).
      reflexivity.
    - intros Hin. rewrite Forall_forall in F1, F3, Fs.
      apply in_app_or in Hin. destruct Hin as [Hin|Hin];
        [apply F1 in Hin; exact Hin|].
      apply in_app_or in Hin. destruct Hin as [Hin|Hin];
        [apply Fs in Hin; exact Hin | apply F3 in Hin; exact Hin].
    - apply in_or_app. right. left. reflexivity.
    - rewrite !spawned_app. simpl. rewrite spawned_map_Spawn.
      replace (spawned l1) with (@nil nat) by (symmetry; reader_nil F1).
      replace (spawned l3) with (@nil nat) by (symmetry; reader_nil F3).
      simpl. rewrite app_nil_r. reflexivity. }
  destruct (open_inputs env o w2) as [paired w3|s w3] eqn:E3.
  2:{ rewrite (bind_Halt _ _ _ _ _ E3). cbn [world_of] in H3 |- *.
      exists (l1 ++ (NewQueue 500 :: map Spawn (seq 0 n)) ++ l3), [].
      destruct (Hstart _ eq_refl) as (Hp & Hl & _ & _).
      rewrite H3, Hev2, app_nil_r, <- !app_assoc.
      repeat split; auto; contradiction. }
  cbn [world_of] in H3.
  rewrite (bind_Cont _ _ _ _ _ E3).
  destruct (work_emits o paired (snd (seq 0 n, seq 0 n))
              (fst (seq 0 n, seq 0 n)) w3) as (l4 & H4 & F4).
  exists (l1 ++ (NewQueue 500 :: map Spawn (seq 0 n)) ++ l3), l4.
  destruct (Hstart _ eq_refl) as (Hp & Hl & Hq & Hs).
  split; [rewrite H4, H3, Hev2, <- !app_assoc; reflexivity|].
  split; [exact Hp|]. split; [exact Hl|].
  split.
  { apply flat_map_nil. eapply Forall_impl; [| exact F4].
    intros e [He|He]; destruct e; simpl in *;
      solve [reflexivity | contradiction]. }
  split; [apply Forall_forall; exact F4|].
  intros _. split; [exact Hq|]. exists n. split; [exact Hn | exact Hs].
Qed.

(** ** What every Work Item satisfies *)

Lemma forallb_filter_same {A} (f : A -> bool) (l : list A) :
  forallb f (filter f l) = true.
Proof.
  induction l as [|x l IH]; simpl; [reflexivity|].
  destruct (f x) eqn:E; simpl; [rewrite E|]; exact IH.
Qed.

Lemma until_newline_clean r : no_newline (fst (until_newline r)) = true.
Proof.
  induction r as [|c r IH]; simpl; [reflexivity|].
  destruct (Ascii.eqb c newline) eqn:E; [reflexivity|].
  destruct (until_newline r) as [l o]. simpl in *. rewrite E. exact IH.
Qed.

Lemma getline_success_clean s str :
  failbit (fst (getline s str)) = false ->
  no_newline (snd (getline s str)) = true.
Proof.
  unfold getline. destruct (good s); [| simpl; discriminate].
  pose proof (until_newline_clean (rest s)) as H.
  destruct (until_newline (rest s)) as [l [r|]]; intros _; exact H.
Qed.

Lemma read_record_letters isFastQ w h l :
  line_from_file w = h :: l ->
  exists w' sq,
    read_record isFastQ w = Cont tt w' /\
    events w' = events w ++ [Push (new_ReadItem l sq)] /\
    forallb isalpha sq = true.
Proof.
  intros Hline. unfold read_record. destruct isFastQ.
  - unfold erase_begin, bind at 1 2 3 4 5 6 7 8 9, get at 1 2.
    rewrite Hline. unfold set_line at 1, set_name at 1.
    cbn [line_from_file with_line].
    rewrite getline_in1_run.
    unfold bind, get, set_line, set_sequence1, ignore_in1, emit, set_in1.
    cbn [in1_file with_in1 with_line with_name with_sequence1 line_from_file
           name sequence1 in2_file].
    eexists _, _. split; [reflexivity|].
    cbn [events log in1_file in2_file with_in1 with_line with_name
           with_sequence1].
    split; [reflexivity|].
    rewrite strip_filter. apply forallb_filter_same.
  - unfold erase_begin, bind at 1 2 3 4 5 6 7, get at 1 2 3.
    rewrite Hline.
    unfold set_line at 1, set_name at 1, set_sequence1 at 1.
    cbn [line_from_file with_line with_name with_sequence1 in1_file].
    match goal with
    | |- context [bind (fasta_lines ?F) _ ?W] =>
        destruct (fasta_lines_total F W)
          as (w1 & E1 & Hev & Hname & _ & _)
    end.
    { cbn [in1_file with_sequence1 with_name with_line]. lia. }
    rewrite (bind_Cont _ _ _ _ _ E1). unfold bind, get, set_sequence1, emit.
    cbn [name sequence1 with_sequence1].
    eexists _, _. split; [reflexivity|].
    cbn [events in1_file in2_file log with_sequence1].
    rewrite Hev, Hname. simpl.
    split; [reflexivity|].
    rewrite strip_filter. apply forallb_filter_same.
Qed.

Lemma record_loop_clean (getline_in : M bool) (in_file : World -> ifstream)
    (with_in : ifstream -> World -> World)
    (loop : nat -> bool -> M unit) :
  (forall w,
      getline_in w
      = Cont (negb (failbit (fst (getline (in_file w) (line_from_file w)))))
             (with_line (snd (getline (in_file w) (line_from_file w)))
                (with_in (fst (getline (in_file w) (line_from_file w))) w))) ->
  (forall s w, events (with_in s w) = events w) ->
  (forall fuel isFastQ,
      loop (S fuel) isFastQ
      = bind getline_in
          (fun more => if more
                       then bind (read_record isFastQ)
                                 (fun _ => loop fuel isFastQ)
                       else ret tt)) ->
  (forall isFastQ, loop O isFastQ = halt Starved) ->
  forall isFastQ fuel, emits is_clean_push (loop fuel isFastQ).
Proof.
  intros Hget Hev Hstep Hzero isFastQ fuel.
  induction fuel as [|fuel IH]; intros w.
  - rewrite Hzero. exists []. simpl. rewrite app_nil_r. auto.
  - rewrite Hstep. rewrite (bind_Cont _ _ _ _ _ (Hget w)).
    pose proof (getline_success_clean (in_file w) (line_from_file w)) as Hc.
    destruct (failbit (fst (getline (in_file w) (line_from_file w))));
      cbn [negb].
    + exists []. simpl. rewrite Hev, app_nil_r. auto.
    + specialize (Hc eq_refl).
      destruct (snd (getline (in_file w) (line_from_file w)))
        as [|h l] eqn:Hl.
      * match goal with
        | |- context [bind (read_record isFastQ) _ ?W] =>
            rewrite (bind_Halt _ _ _ _ _ (read_record_empty isFastQ W eq_refl))
        end.
        exists []. simpl. rewrite Hev, app_nil_r. auto.
      * match goal with
        | |- context [bind (read_record isFastQ) _ ?W] =>
            destruct (read_record_letters isFastQ W h l eq_refl)
              as (w2 & sq & E2 & Hev2 & Hsq)
        end.
        rewrite (bind_Cont _ _ _ _ _ E2).
        destruct (IH w2) as (l2 & Hl2 & F2).
        exists (Push (new_ReadItem l sq) :: l2).
        rewrite Hl2, Hev2. simpl. rewrite Hev, <- app_assoc.
        split; [reflexivity|].
        constructor; [| exact F2].
        simpl. split; [exact Hsq|].
        simpl in Hc. apply andb_true_iff in Hc. tauto.
Qed.

Lemma file1_loop_clean isFastQ fuel :
  emits is_clean_push (file1_loop fuel isFastQ).
Proof.
  apply (record_loop_clean getline_in1 in1_file with_in1 file1_loop);
    try reflexivity.
  apply getline_in1_run.
Qed.

Lemma file2_loop_clean isFastQ fuel :
  emits is_clean_push (file2_loop fuel isFastQ).
Proof.
  apply (record_loop_clean getline_in2 in2_file with_in2 file2_loop);
    try reflexivity.
  apply getline_in2_run.
Qed.

Lemma main_emits_clean env args : emits is_clean_push (main env args).
Proof.
  unfold main.
  apply emits_bind;
    [eapply emits_weaken; [| apply configure_emits];
     intros e; destruct e; simpl; tauto | intros o].
  apply emits_bind;
    [eapply emits_weaken; [| apply start_workers_emits];
     intros e; destruct e; simpl; tauto | intros pool].
  apply emits_bind;
    [eapply emits_weaken; [| apply open_inputs_emits];
     intros e; destruct e; simpl; tauto | intros paired].
  apply emits_bind.
  { unfold ingest, read_files.
    apply emits_bind; [apply detect_format_emits; intros d; exact I|].
    intros isFastQ.
    apply emits_bind; [emits_auto|]. intros _.
    apply emits_bind; [apply emits_get | intros w].
    apply emits_bind; [apply file1_loop_clean | intros _].
    destruct paired; [| apply emits_ret].
    apply emits_bind; [apply emits_get | intros w0].
    apply file2_loop_clean. }
  intros _.
  eapply emits_weaken; [| apply shutdown_emits].
  intros e; destruct e; simpl; tauto.
Qed.

(** X12: whatever the input files hold, in single and in paired mode, the
    sequence of every Work Item that is pushed consists of ASCII letters
    only and its identifier holds no newline. *)
Theorem pushed_items_are_clean env args :
  Forall clean_item (pushed (snd (run_main env args))).
Proof.
  unfold run_main. simpl.
  destruct (main_emits_clean env args initial_World) as (l & E & F).
  rewrite E. simpl. clear E.
  induction F as [|e l He _ IH]; simpl; [constructor|].
  destruct e; simpl; try exact IH.
  constructor; [exact He | exact IH].
Qed.

(** ** FASTQ texts that are not well formed *)

Lemma getline_raw_line s str l r :
  good s = true -> rest s = l ++ newline :: r -> no_newline l = true ->
  getline s str = (advance s r, l).
Proof.
  intros Hg Hr Hl. unfold getline.
  rewrite Hg, Hr, (until_newline_line l r Hl). reflexivity.
Qed.

Lemma ignore_raw_line s l r :
  good s = true -> rest s = l ++ newline :: r -> no_newline l = true ->
  ignore_line s = advance s r.
Proof.
  intros Hg Hr Hl. unfold ignore_line.
  rewrite Hg, Hr, (until_newline_line l r Hl). reflexivity.
Qed.

Lemma good_advance s r : good (advance s r) = good s.
Proof. reflexivity. Qed.

Lemma read_record_fastq_raw w h id sq sep qual r :
  line_from_file w = h :: id ->
  good (in1_file w) = true ->
  rest (in1_file w) = sq ++ newline :: sep ++ newline :: qual ++ newline :: r ->
  no_newline sq = true -> no_newline sep = true -> no_newline qual = true ->
  exists w',
    read_record true w = Cont tt w' /\
    events w' = events w ++ [Push (new_ReadItem id (filter isalpha sq))] /\
    good (in1_file w') = true /\ rest (in1_file w') = r /\
    in2_file w' = in2_file w.
Proof.
  intros Hline Hg Hr Hsq Hsep Hqual.
  unfold read_record, erase_begin, bind at 1 2 3 4 5 6 7 8 9, get at 1 2.
  rewrite Hline. unfold set_line at 1, set_name at 1.
  cbn [line_from_file with_line].
  rewrite getline_in1_run.
  cbn [in1_file with_name with_line line_from_file].
  rewrite (getline_raw_line _ id sq _ Hg Hr Hsq).
  unfold ignore_in1.
  unfold bind, get, set_line, set_sequence1, emit, set_in1.
  cbn [fst snd in1_file with_in1 with_line with_name with_sequence1
         line_from_file name sequence1 in2_file].
  rewrite (ignore_raw_line (advance (in1_file w) _) sep
             (qual ++ newline :: r) Hg eq_refl Hsep).
  rewrite (ignore_raw_line (advance (advance (in1_file w) _) _) qual r
             Hg eq_refl Hqual).
  eexists. split; [reflexivity|].
  cbn [events log in1_file in2_file with_in1 with_line with_name
         with_sequence1].
  rewrite strip_filter. repeat split. exact Hg.
Qed.

Lemma terminated_app l1 l2 :
  terminated (l1 ++ l2) = terminated l1 ++ terminated l2.
Proof. apply flat_map_app. Qed.

Lemma terminated_group g R :
  terminated (marked_group g) ++ R
  = (fst g :: fq_id (snd g)) ++ newline
      :: fq_sequence (snd g) ++ newline
      :: fq_separator (snd g) ++ newline
      :: fq_quality (snd g) ++ newline :: R.
Proof.
  unfold terminated, marked_group. simpl.
  rewrite app_nil_r, <- !app_assoc. simpl.
  repeat (rewrite <- !app_assoc; simpl).
  reflexivity.
Qed.

(** The loop on a stream that stands before some groups and then any text
    at all: the groups are read and pushed, and the loop goes on from the
    text that follows them. *)
Lemma file1_loop_marked_groups gs :
  forall w tail,
    Forall valid_marked_group gs ->
    good (in1_file w) = true ->
    rest (in1_file w) = terminated (marked_lines gs) ++ tail ->
    exists w2,
      (forall k, file1_loop (length gs + k) true w = file1_loop k true w2) /\
      events w2 = events w ++ map Push (marked_items gs) /\
      good (in1_file w2) = true /\ rest (in1_file w2) = tail /\
      in2_file w2 = in2_file w.
Proof.
  induction gs as [|g gs IH]; intros w tail Hv Hg Hr.
  - exists w. simpl in Hr. simpl. rewrite app_nil_r. repeat split; auto.
  - inversion Hv as [|g0 gs0 (Hm & Hid & Hsq & Hsep & Hqual) Hv' E0]; subst.
    change (marked_lines (g :: gs))
      with (marked_group g ++ marked_lines gs) in Hr.
    rewrite terminated_app, <- app_assoc, terminated_group in Hr.
    assert (Hhdr : no_newline (fst g :: fq_id (snd g)) = true).
    { simpl. rewrite Hid.
      destruct (Ascii.eqb_spec (fst g) newline); [contradiction|reflexivity]. }
    pose proof (getline_raw_line (in1_file w) (line_from_file w) _ _
                  Hg Hr Hhdr) as Hget.
    match type of Hget with
    | _ = (advance _ ?R, _) =>
        destruct (read_record_fastq_raw
                    (with_line (fst g :: fq_id (snd g))
                       (with_in1 (advance (in1_file w) R) w))
                    (fst g) (fq_id (snd g)) (fq_sequence (snd g))
                    (fq_separator (snd g)) (fq_quality (snd g))
                    (terminated (marked_lines gs) ++ tail)
                    eq_refl Hg eq_refl Hsq Hsep Hqual)
          as (w1 & E1 & Hev1 & Hg1 & Hr1 & Hin1)
    end.
    destruct (IH w1 tail Hv' Hg1 Hr1) as (w2 & E2 & Hev2 & Hg2 & Hr2 & Hin2).
    exists w2. split; [| split; [| split; [exact Hg2 | split;
                                            [exact Hr2|]]]].
    + intros k. simpl length. cbn [Nat.add file1_loop].
      rewrite (bind_Cont _ _ _ _ _ (getline_in1_run w)).
      rewrite Hget. cbn [fst snd failbit advance negb].
      destruct (good_flags _ Hg) as [_ Hf]. rewrite Hf. cbn [negb].
      rewrite (bind_Cont _ _ _ _ _ E1). apply E2.
    + rewrite Hev2, Hev1. simpl. rewrite <- app_assoc. reflexivity.
    + rewrite Hin2, Hin1. reflexivity.
Qed.

Lemma file1_loop_at_end isFastQ fuel w :
  good (in1_file w) = false \/
  (good (in1_file w) = true /\ rest (in1_file w) = []) ->
  exists w',
    file1_loop (S fuel) isFastQ w = Cont tt w' /\
    events w' = events w /\ in2_file w' = in2_file w.
Proof.
  intros H. cbn [file1_loop].
  rewrite (bind_Cont _ _ _ _ _ (getline_in1_run w)).
  assert (Hf : failbit (fst (getline (in1_file w) (line_from_file w))) = true).
  { unfold getline. destruct H as [Hg|[Hg Hr]]; rewrite Hg.
    - reflexivity.
    - rewrite Hr. simpl. apply orb_true_r. }
  rewrite Hf. cbn [negb]. eexists. split; [reflexivity|].
  split; reflexivity.
Qed.

Lemma ignore_bad s : good s = false -> good (ignore_line s) = false.
Proof.
  intros Hg. unfold ignore_line. rewrite Hg. apply set_failbit_bad.
Qed.

Lemma getline_bad s str :
  good s = false -> good (fst (getline s str)) = false.
Proof.
  intros Hg. unfold getline. rewrite Hg. apply set_failbit_bad.
Qed.

Lemma getline_empty s str :
  rest s = [] -> good (fst (getline s str)) = false.
Proof.
  intros Hr. unfold getline. destruct (good s).
  - rewrite Hr. reflexivity.
  - apply set_failbit_bad.
Qed.

(** A header line after which the stream yields nothing more. *)
Lemma read_record_fastq_header_only w h id :
  line_from_file w = h :: id ->
  exists w',
    read_record true w = Cont tt w' /\
    events w' = events w
                ++ [Push (new_ReadItem id
                            (if good (in1_file w)
                             then filter isalpha
                                    (fst (until_newline (rest (in1_file w))))
                             else filter isalpha id))] /\
    in2_file w' = in2_file w /\
    (good (in1_file w) = false -> good (in1_file w') = false) /\
    (rest (in1_file w) = [] -> good (in1_file w') = false).
Proof.
  intros Hline.
  unfold read_record, erase_begin, bind at 1 2 3 4 5 6 7 8 9, get at 1 2.
  rewrite Hline. unfold set_line at 1, set_name at 1.
  cbn [line_from_file with_line].
  rewrite getline_in1_run.
  cbn [in1_file with_name with_line line_from_file].
  unfold ignore_in1.
  unfold bind, get, set_line, set_sequence1, emit, set_in1.
  cbn [fst snd in1_file with_in1 with_line with_name with_sequence1
         line_from_file name sequence1 in2_file].
  eexists. split; [reflexivity|].
  cbn [events log in1_file in2_file with_in1 with_line with_name
         with_sequence1].
  rewrite strip_filter.
  split; [| split; [reflexivity|]].
  - unfold getline. destruct (good (in1_file w)); [| reflexivity].
    destruct (until_newline (rest (in1_file w))) as [l [r|]]; reflexivity.
  - split.
    + intros Hg. apply ignore_bad, ignore_bad, getline_bad, Hg.
    + intros Hr. apply ignore_bad, ignore_bad, getline_empty, Hr.
Qed.

Lemma terminated_marked_length gs :
  (length gs <= length (terminated (marked_lines gs)))%nat.
Proof.
  induction gs as [|g gs IH]; [simpl; lia|].
  change (marked_lines (g :: gs)) with (marked_group g ++ marked_lines gs).
  rewrite terminated_app, length_app.
  unfold terminated at 1, marked_group. simpl. lia.
Qed.

(** A run whose configuration succeeds, whose primary input opens, whose
    format is detected and whose first record loop stops. *)
Lemma primary_stream_halt env args o w1 c isFastQ items s :
  configure env args initial_World = Cont o w1 ->
  readable env (in1_filename o) = Some c ->
  (is_paired o = true -> readable env (in2_filename o) <> None) ->
  (forall w, in1_file w = opened c ->
             exists l, detect_format o w = Cont isFastQ (with_line l w)) ->
  (forall w, in1_file w = opened c ->
             exists w', file1_loop (S (length c)) isFastQ w = Halt s w' /\
                        events w' = events w ++ map Push items) ->
  fst (run_main env args) = Stopped s /\
  pushed (snd (run_main env args)) = items.
Proof.
  unfold is_paired. intros E1 Hr1 Hr2 Hdetect Hloop.
  destruct (configure_logs env args initial_World) as (l1 & Hw1 & F1).
  rewrite E1 in Hw1. simpl in Hw1.
  unfold run_main, main.
  rewrite (bind_Cont _ _ _ _ _ E1).
  rewrite (bind_Cont _ _ _ _ _ (start_workers_run o w1)).
  set (n := Z.to_nat (num_threads o)).
  set (w2 := log (NewQueue 500 :: map Spawn (seq 0 n)) w1).
  assert (Hev2 : events w2 = l1 ++ NewQueue 500 :: map Spawn (seq 0 n)).
  { unfold w2. rewrite Hw1. reflexivity. }
  assert (Hs2 : is_open (in2_file w2) = false)
    by (unfold w2; rewrite Hw1; reflexivity).
  destruct (open_inputs_readable env o w2 c Hr1 Hs2)
    as [(w3 & _ & _ & Hp & Hnone)
       | (paired & w3 & E3 & Hin1 & Hpaired & _ & Hev3)];
    [exfalso; apply (Hr2 Hp Hnone)|].
  rewrite (bind_Cont _ _ _ _ _ E3).
  unfold ingest, read_files. rewrite !bind_assoc.
  destruct (Hdetect w3 Hin1) as (l & Ed).
  rewrite (bind_Cont _ _ _ _ _ Ed).
  rewrite !bind_assoc.
  rewrite (bind_Cont _ _ _ _ _ (when_run _ _ _)).
  set (w4 := log (if verbose o then [Cerr (StartSearch (num_threads o))]
                  else []) (with_line l w3)).
  rewrite !bind_assoc.
  rewrite (bind_Cont get _ w4 w4 w4 eq_refl).
  assert (Hin4 : in1_file w4 = opened c) by exact Hin1.
  rewrite !bind_assoc.
  destruct (Hloop w4 Hin4) as (w5 & E5 & Hev5).
  rewrite Hin4. change (rest (opened c)) with c.
  rewrite (bind_Halt _ _ _ _ _ E5). simpl.
  split; [reflexivity|].
  rewrite Hev5, pushed_app, pushed_map_Push.
  replace (pushed (events w4)) with (@nil ReadItem); [reflexivity|].
  unfold w4. simpl. rewrite Hev3, Hev2, !pushed_app.
  replace (pushed l1) with (@nil ReadItem) by (symmetry; reader_nil F1).
  simpl.
  replace (pushed (map Spawn (seq 0 n))) with (@nil ReadItem);
    [destruct paired, (verbose o); reflexivity|].
  clear. induction (seq 0 n); simpl; auto.
Qed.

(** X13: in FASTQ mode an empty line where a header line is expected, for
    instance a blank line after the last record, takes the run to [erase] on
    an empty string: the run is undefined from there on.  The records before
    the empty line have been pushed, whatever character their header lines
    start with. *)
Theorem blank_line_after_fastq_records env args o w1 r0 gs tail :
  configure env args initial_World = Cont o w1 ->
  (is_paired o = true -> readable env (in2_filename o) <> None) ->
  Forall valid_marked_group (("@"%char, r0) :: gs) ->
  readable env (in1_filename o)
  = Some (terminated (marked_lines (("@"%char, r0) :: gs))
            ++ newline :: tail) ->
  fst (run_main env args) = Stopped Undefined /\
  pushed (snd (run_main env args)) = marked_items (("@"%char, r0) :: gs).
Proof.
  intros E1 Hr2 Hv Hr1.
  apply (primary_stream_halt env args o w1 _ true _ Undefined E1 Hr1 Hr2).
  - intros w Hin. eexists. apply detect_format_fastq. rewrite Hin.
    reflexivity.
  - intros w Hin.
    destruct (file1_loop_marked_groups (("@"%char, r0) :: gs) w
                (newline :: tail) Hv)
      as (w2 & E2 & Hev2 & Hg2 & Hrest2 & _);
      [rewrite Hin; reflexivity | rewrite Hin; reflexivity|].
    pose proof (terminated_marked_length (("@"%char, r0) :: gs)) as Hlen.
    replace (S (length (terminated (marked_lines (("@"%char, r0) :: gs))
                          ++ newline :: tail)))
      with (length (("@"%char, r0) :: gs)
            + S (S (length (terminated (marked_lines (("@"%char, r0) :: gs))
                              ++ newline :: tail))
                 - length (("@"%char, r0) :: gs) - 1))%nat
      by (rewrite length_app in *; simpl length in *; lia).
    rewrite E2. cbn [file1_loop].
    rewrite (bind_Cont _ _ _ _ _ (getline_in1_run w2)).
    assert (Hget : getline (in1_file w2) (line_from_file w2)
                   = (advance (in1_file w2) tail, [])).
    { apply (getline_raw_line _ _ [] tail Hg2 Hrest2). reflexivity. }
    rewrite Hget. cbn [fst snd failbit advance].
    destruct (good_flags _ Hg2) as [_ Hf]. rewrite Hf. cbn [negb].
    match goal with
    | |- context [bind (read_record true) _ ?W] =>
        rewrite (bind_Halt _ _ _ _ _ (read_record_empty true W eq_refl))
    end.
    eexists. split; [reflexivity|]. exact Hev2.
Qed.

Lemma blank_line_after_fastq_records_witness :
  fst (run_main
         (sample_env (Some (sample_fastq1 ++ [newline])) None) single_args)
  = Stopped Undefined /\
  pushed (snd (run_main
                 (sample_env (Some (sample_fastq1 ++ [newline])) None)
                 single_args))
  = marked_items [("@"%char, mk_fastq_record (str "r1") (str "ACGT")
                               (str "+") (str "IIII"))].
Proof.
  apply (blank_line_after_fastq_records
           (sample_env (Some (sample_fastq1 ++ [newline])) None) single_args
           single_options
           (log [ReadIndexes "proteins.fmi"; ConfigInit] initial_World)
           (mk_fastq_record (str "r1") (str "ACGT") (str "+") (str "IIII"))
           [] []).
  - reflexivity.
  - intros H. discriminate H.
  - repeat constructor. discriminate.
  - reflexivity.
Defined.

Lemma file1_loop_after_groups gs w tail :
  Forall valid_marked_group gs ->
  in1_file w = opened (terminated (marked_lines gs) ++ tail) ->
  exists w2 k,
    file1_loop (S (length (terminated (marked_lines gs) ++ tail))) true w
    = file1_loop (S k) true w2 /\
    (length tail <= k)%nat /\
    events w2 = events w ++ map Push (marked_items gs) /\
    good (in1_file w2) = true /\ rest (in1_file w2) = tail /\
    in2_file w2 = in2_file w.
Proof.
  intros Hv Hin.
  destruct (file1_loop_marked_groups gs w tail Hv)
    as (w2 & E2 & Hev2 & Hg2 & Hrest2 & Hin2);
    [rewrite Hin; reflexivity | rewrite Hin; reflexivity|].
  pose proof (terminated_marked_length gs) as Hlen.
  exists w2, (length (terminated (marked_lines gs) ++ tail) - length gs)%nat.
  split; [| split; [rewrite length_app; lia | auto]].
  rewrite <- E2. f_equal. rewrite length_app. lia.
Qed.

Lemma hd_error_app_cons {A} (X : list A) (h a : A) (R : list A) :
  hd_error (X ++ [h]) = Some a -> exists t, X ++ h :: R = a :: t.
Proof.
  destruct X as [|x X]; simpl; intros H; injection H as ->;
    eexists; reflexivity.
Qed.

(** X14: in FASTQ mode, once the format is detected, the first character of
    a header line is dropped whatever it is: records whose header lines
    start with any character are read like those that start with [@]. *)
Theorem later_markers_are_not_checked env args o w1 r0 gs :
  configure env args initial_World = Cont o w1 ->
  is_paired o = false ->
  Forall valid_marked_group (("@"%char, r0) :: gs) ->
  readable env (in1_filename o)
  = Some (terminated (marked_lines (("@"%char, r0) :: gs))) ->
  fst (run_main env args) = Returned EXIT_SUCCESS /\
  pushed (snd (run_main env args)) = marked_items (("@"%char, r0) :: gs).
Proof.
  intros E1 Hp Hv Hr1.
  destruct (primary_stream_run env args o w1 _ true
              (marked_items (("@"%char, r0) :: gs)) E1 Hr1)
    as (extra & Hpushed & Hsingle).
  - intros H. rewrite Hp in H. discriminate H.
  - intros w Hin. eexists. apply detect_format_fastq. rewrite Hin.
    reflexivity.
  - intros w Hin.
    destruct (file1_loop_after_groups (("@"%char, r0) :: gs) w [] Hv)
      as (w2 & k & E2 & _ & Hev2 & Hg2 & Hrest2 & _);
      [rewrite Hin, app_nil_r; reflexivity|].
    rewrite app_nil_r in E2. rewrite E2.
    destruct (file1_loop_at_end true k w2) as (w3 & E3 & Hev3 & _);
      [right; split; assumption|].
    exists w3. split; [exact E3 | rewrite Hev3; exact Hev2].
  - destruct (Hsingle Hp) as [-> Hret].
    rewrite app_nil_r in Hpushed. split; assumption.
Qed.

Lemma later_markers_are_not_checked_witness :
  fst (run_main
         (sample_env (Some (text_of_lines ["@r1"; "ACGT"; "+"; "IIII";
                                           ">r2"; "GG"; "x"; "y"]%string))
                     None)
         single_args)
  = Returned EXIT_SUCCESS /\
  pushed (snd (run_main
                 (sample_env
                    (Some (text_of_lines ["@r1"; "ACGT"; "+"; "IIII";
                                          ">r2"; "GG"; "x"; "y"]%string))
                    None)
                 single_args))
  = marked_items
      [("@"%char, mk_fastq_record (str "r1") (str "ACGT") (str "+")
                                  (str "IIII"));
       (">"%char, mk_fastq_record (str "r2") (str "GG") (str "x") (str "y"))].
Proof.
  apply (later_markers_are_not_checked
           (sample_env (Some (text_of_lines ["@r1"; "ACGT"; "+"; "IIII";
                                             ">r2"; "GG"; "x"; "y"]%string))
                       None)
           single_args single_options
           (log [ReadIndexes "proteins.fmi"; ConfigInit] initial_World)
           (mk_fastq_record (str "r1") (str "ACGT") (str "+") (str "IIII"))
           [(">"%char, mk_fastq_record (str "r2") (str "GG") (str "x")
                                       (str "y"))]).
  - reflexivity.
  - reflexivity.
  - repeat constructor; discriminate.
  - reflexivity.
Defined.

Lemma file1_loop_step fuel isFastQ w :
  file1_loop (S fuel) isFastQ w
  = bind getline_in1
      (fun more => if more
                   then bind (read_record isFastQ)
                             (fun _ => file1_loop fuel isFastQ)
                   else ret tt) w.
Proof. reflexivity. Qed.

Lemma header_only_loop w2 k h id (terminated_header : bool) :
  h <> newline -> no_newline id = true ->
  good (in1_file w2) = true ->
  rest (in1_file w2)
  = (if terminated_header then (h :: id) ++ [newline] else h :: id) ->
  exists w3,
    file1_loop (S (S k)) true w2 = Cont tt w3 /\
    events w3
    = events w2
      ++ [Push (new_ReadItem id
                  (if terminated_header then [] else filter isalpha id))].
Proof.
  intros Hh Hid Hg Hr.
  assert (Hhdr : no_newline (h :: id) = true).
  { simpl. rewrite Hid.
    destruct (Ascii.eqb_spec h newline); [contradiction|reflexivity]. }
  rewrite file1_loop_step.
  rewrite (bind_Cont _ _ _ _ _ (getline_in1_run w2)).
  destruct (good_flags _ Hg) as [_ Hf].
  destruct terminated_header.
  - rewrite (getline_raw_line _ _ (h :: id) [] Hg Hr Hhdr).
    cbn [fst snd failbit advance]. rewrite Hf. cbn [negb].
    match goal with
    | |- context [bind (read_record true) _ ?W] =>
        destruct (read_record_fastq_header_only W h id eq_refl)
          as (w' & E' & Hev' & _ & _ & Hbad)
    end.
    rewrite (bind_Cont _ _ _ _ _ E').
    destruct (file1_loop_at_end true k w') as (w3 & E3 & Hev3 & _);
      [left; apply Hbad; reflexivity|].
    rewrite E3.
    exists w3. split; [reflexivity|]. rewrite Hev3, Hev'.
    cbn [in1_file with_line with_in1 good advance eofbit failbit rest].
    change (good (advance (in1_file w2) [])) with (good (in1_file w2)).
    rewrite Hg. reflexivity.
  - assert (Hget : getline (in1_file w2) (line_from_file w2)
                   = (at_end (in1_file w2) false, h :: id)).
    { unfold getline. rewrite Hg, Hr, (until_newline_last _ Hhdr).
      reflexivity. }
    rewrite Hget. cbn [fst snd failbit at_end]. rewrite Hf. cbn [orb negb].
    match goal with
    | |- context [bind (read_record true) _ ?W] =>
        destruct (read_record_fastq_header_only W h id eq_refl)
          as (w' & E' & Hev' & _ & Hbad & _)
    end.
    rewrite (bind_Cont _ _ _ _ _ E').
    destruct (file1_loop_at_end true k w') as (w3 & E3 & Hev3 & _);
      [left; apply Hbad; reflexivity|].
    rewrite E3.
    exists w3. split; [reflexivity|]. rewrite Hev3, Hev'. reflexivity.
Qed.

(** X15: a FASTQ text that ends in a header line with nothing after it
    still gives a Work Item for that line.  When the header line is ended by
    a newline the sequence of the item is empty; when the text stops right
    after the identifier, the sequence [getline] fails to read is what
    [line_from_file] still holds, so the item carries the letters of its
    own identifier as its sequence. *)
Theorem header_only_record_is_pushed env args o w1 gs h id
    (terminated_header : bool) :
  configure env args initial_World = Cont o w1 ->
  is_paired o = false ->
  Forall valid_marked_group gs ->
  h <> newline -> no_newline id = true ->
  hd_error (terminated (marked_lines gs) ++ [h]) = Some "@"%char ->
  readable env (in1_filename o)
  = Some (terminated (marked_lines gs)
            ++ (if terminated_header then (h :: id) ++ [newline]
                else h :: id)) ->
  fst (run_main env args) = Returned EXIT_SUCCESS /\
  pushed (snd (run_main env args))
  = marked_items gs
    ++ [new_ReadItem id
          (if terminated_header then [] else filter isalpha id)].
Proof.
  intros E1 Hp Hv Hh Hid Hhd Hr1.
  destruct (primary_stream_run env args o w1 _ true
              (marked_items gs
                 ++ [new_ReadItem id (if terminated_header then []
                                      else filter isalpha id)])
              E1 Hr1)
    as (extra & Hpushed & Hsingle).
  - intros H. rewrite Hp in H. discriminate H.
  - intros w Hin.
    assert (Ht : exists t,
               terminated (marked_lines gs)
                 ++ (if terminated_header then (h :: id) ++ [newline]
                     else h :: id) = "@"%char :: t).
    { destruct terminated_header.
      - apply (hd_error_app_cons _ h "@"%char (id ++ [newline]) Hhd).
      - apply (hd_error_app_cons _ h "@"%char id Hhd). }
    destruct Ht as (t & Ht). eexists. apply detect_format_fastq.
    rewrite Hin, Ht. reflexivity.
  - intros w Hin.
    destruct (file1_loop_after_groups gs w _ Hv Hin)
      as (w2 & k & E2 & Hk & Hev2 & Hg2 & Hrest2 & _).
    rewrite E2.
    destruct k as [|k];
      [destruct terminated_header; simpl in Hk; lia|].
    destruct (header_only_loop w2 k h id terminated_header Hh Hid Hg2 Hrest2)
      as (w3 & E3 & Hev3).
    exists w3. split; [exact E3|].
    rewrite Hev3, Hev2, map_app, <- app_assoc. reflexivity.
  - destruct (Hsingle Hp) as [-> Hret].
    rewrite app_nil_r in Hpushed. split; assumption.
Qed.

Lemma header_only_record_is_pushed_witness :
  fst (run_main (sample_env (Some (sample_fastq1 ++ str "@r2x9")) None)
                single_args)
  = Returned EXIT_SUCCESS /\
  pushed (snd (run_main (sample_env (Some (sample_fastq1 ++ str "@r2x9")) None)
                        single_args))
  = marked_items [("@"%char, mk_fastq_record (str "r1") (str "ACGT")
                               (str "+") (str "IIII"))]
    ++ [new_ReadItem (str "r2x9") (filter isalpha (str "r2x9"))].
Proof.
  apply (header_only_record_is_pushed
           (sample_env (Some (sample_fastq1 ++ str "@r2x9")) None)
           single_args single_options
           (log [ReadIndexes "proteins.fmi"; ConfigInit] initial_World)
           [("@"%char, mk_fastq_record (str "r1") (str "ACGT") (str "+")
                                       (str "IIII"))]
           "@" (str "r2x9") false).
  - reflexivity.
  - reflexivity.
  - repeat constructor; discriminate.
  - discriminate.
  - reflexivity.
  - reflexivity.
  - reflexivity.
Defined.

(** ** [strip] and [stoi], once more *)

Lemma filter_idempotent {A} (f : A -> bool) (l : list A) :
  filter f (filter f l) = filter f l.
Proof.
  induction l as [|x l IH]; simpl; [reflexivity|].
  destruct (f x) eqn:E; simpl; [rewrite E, IH|]; auto.
Qed.

Lemma filter_concat {A} (f : A -> bool) (ls : list (list A)) :
  filter f (concat ls) = concat (map (filter f) ls).
Proof.
  induction ls as [|l ls IH]; simpl; [reflexivity|].
  rewrite filter_app, IH. reflexivity.
Qed.

(** X16: [strip] is idempotent, it never lengthens a string, and stripping a
    concatenation gives the concatenation of the stripped parts: the FASTA
    branch, which strips once after it has appended all the lines of a
    block, gets the same sequence as if it had stripped line by line, as the
    FASTQ branch does. *)
Theorem strip_composes (a b : text) (ls : list text) :
  strip (strip a) = strip a /\
  (length (strip a) <= length a)%nat /\
  strip (a ++ b) = strip a ++ strip b /\
  strip (concat ls) = concat (map strip ls).
Proof.
  rewrite !strip_filter.
  split; [apply filter_idempotent|].
  split; [apply filter_length_le|].
  split; [apply filter_app|].
  rewrite filter_concat. f_equal.
  apply map_ext. intros l. symmetry. apply strip_filter.
Qed.

Lemma str_app (a b : string) : str (a ++ b) = str a ++ str b.
Proof.
  unfold str. induction a as [|c a IH]; simpl; [reflexivity|].
  rewrite IH. reflexivity.
Qed.

Lemma skip_spaces_app x y :
  skip_spaces x <> [] -> skip_spaces (x ++ y) = skip_spaces x ++ y.
Proof.
  induction x as [|c x IH]; simpl; intros H; [contradiction|].
  destruct (isspace c); [apply IH, H | reflexivity].
Qed.

Lemma read_digits_app s t :
  match t with
  | [] => True
  | c :: _ => digit_of c = None
  end ->
  forall acc, read_digits (s ++ t) acc = read_digits s acc.
Proof.
  intros Ht. induction s as [|c s IH]; intros acc; simpl.
  - destruct t as [|c t]; [reflexivity|]. simpl. rewrite Ht. reflexivity.
  - destruct (digit_of c); [apply IH | reflexivity].
Qed.

Lemma stoi_trailing a b v :
  stoi a = StoiValue v ->
  starts_with_digit b = false ->
  stoi (a ++ b) = StoiValue v.
Proof.
  intros Ha Hb.
  assert (Hb' : match str b with
                | [] => True
                | c :: _ => digit_of c = None
                end).
  { destruct b as [|c b]; simpl; [exact I|].
    simpl in Hb. destruct (digit_of c); [discriminate | reflexivity]. }
  unfold stoi in *. rewrite str_app.
  destruct (skip_spaces (str a)) as [|c t] eqn:Es;
    [simpl in Ha; discriminate Ha|].
  rewrite skip_spaces_app by (rewrite Es; discriminate).
  rewrite Es.
  destruct (Ascii.eqb_spec c "-") as [->|Hm].
  { simpl in Ha |- *. rewrite (read_digits_app t (str b) Hb'). exact Ha. }
  destruct (Ascii.eqb_spec c "+") as [->|Hp].
  { simpl in Ha |- *. rewrite (read_digits_app t (str b) Hb'). exact Ha. }
  clear Es.
  destruct c as [[] [] [] [] [] [] [] []];
    try solve [exfalso; apply Hm; reflexivity
              | exfalso; apply Hp; reflexivity];
    cbn [app]; cbv beta iota in Ha |- *;
    rewrite app_comm_cons, (read_digits_app (_ :: t) (str b) Hb'); exact Ha.
Qed.

(** X17: a numeric option's argument is read up to its last leading digit:
    when [stoi] accepts [a], it accepts [a] followed by any text that does
    not start with a digit and gives the same value, so that [-z 4x] sets
    the same number of threads as [-z 4] and prints nothing. *)
Theorem trailing_text_is_ignored o c a b v w :
  is_numeric_option c = true ->
  stoi a = StoiValue v ->
  starts_with_digit b = false ->
  stoi (a ++ b) = StoiValue v /\
  handle_option o c (a ++ b) w = handle_option o c a w /\
  exists o', handle_option o c a w = Cont o' w /\ option_value c o' = v.
Proof.
  intros Hc Ha Hb.
  pose proof (stoi_trailing a b v Ha Hb) as Hab.
  split; [exact Hab|].
  split; [| apply handle_numeric_value; assumption].
  apply numeric_cases in Hc.
  destruct Hc as [->|[->|[->|[->| ->]]]];
    unfold handle_option, numeric_option; simpl; rewrite Ha, Hab;
    reflexivity.
Qed.

Lemma trailing_text_is_ignored_witness :
  stoi ("4" ++ "x") = StoiValue 4 /\
  handle_option default_Options "z" ("4" ++ "x") initial_World
  = handle_option default_Options "z" "4" initial_World /\
  exists o', handle_option default_Options "z" "4" initial_World
             = Cont o' initial_World /\ option_value "z" o' = 4.
Proof.
  apply (trailing_text_is_ignored default_Options "z" "4" "x" 4 initial_World).
  - reflexivity.
  - reflexivity.
  - reflexivity.
Defined.

(** ** The second loop, line by line *)

Lemma failbit_bad s : failbit s = true -> good s = false.
Proof. intros H. unfold good. rewrite H. apply andb_false_r. Qed.

Lemma file1_loop_ends_failed isFastQ fuel :
  forall w w',
    file1_loop fuel isFastQ w = Cont tt w' ->
    good (in1_file w') = false /\ in2_file w' = in2_file w.
Proof.
  induction fuel as [|fuel IH]; intros w w' H; [discriminate H|].
  rewrite file1_loop_step in H.
  rewrite (bind_Cont _ _ _ _ _ (getline_in1_run w)) in H.
  destruct (failbit (fst (getline (in1_file w) (line_from_file w)))) eqn:Hf;
    cbn [negb] in H.
  - injection H as <-. split; [| reflexivity].
    apply failbit_bad. exact Hf.
  - apply bind_inv in H. destruct H as ([] & w1 & E1 & H).
    destruct (IH _ _ H) as [Hg Hin2]. split; [exact Hg|].
    rewrite Hin2.
    match type of E1 with
    | read_record _ ?W = _ =>
        pose proof (read_record_keeps_in2 isFastQ W) as Hk
    end.
    rewrite E1 in Hk. exact Hk.
Qed.

Lemma read_record_fasta_at_end w h id :
  line_from_file w = h :: id ->
  good (in1_file w) = false ->
  exists w',
    read_record false w = Cont tt w' /\
    events w' = events w ++ [Push (new_ReadItem id [])] /\
    in2_file w' = in2_file w /\
    good (in1_file w') = false.
Proof.
  intros Hline Hg.
  unfold read_record, erase_begin, bind at 1 2 3 4 5 6 7, get at 1 2 3.
  rewrite Hline.
  unfold set_line at 1, set_name at 1, set_sequence1 at 1.
  cbn [line_from_file with_line with_name with_sequence1 in1_file].
  cbn [fasta_lines].
  rewrite !bind_assoc.
  rewrite (bind_Cont _ _ _ _ _ (peek_in1_run _)).
  cbn [in1_file with_sequence1 with_name with_line].
  unfold peek at 1 2. rewrite Hg. cbn [fst snd].
  rewrite EOF_is_not_marker. rewrite !bind_assoc.
  rewrite (bind_Cont _ _ _ _ _ (peek_in1_run _)).
  cbn [in1_file with_in1].
  unfold peek at 1 2. rewrite set_failbit_bad. cbn [fst snd].
  rewrite Z.eqb_refl.
  unfold bind, get, ret, set_sequence1, emit.
  cbn [name sequence1 with_sequence1 with_in1 with_name with_line].
  eexists. split; [reflexivity|].
  cbn [events in1_file in2_file log with_sequence1 with_in1 with_name
         with_line].
  split; [reflexivity|]. split; [reflexivity|]. apply set_failbit_bad.
Qed.

Lemma read_record_at_end isFastQ w h id :
  line_from_file w = h :: id ->
  good (in1_file w) = false ->
  exists w',
    read_record isFastQ w = Cont tt w' /\
    events w' = events w ++ [Push (second_file_item isFastQ (h :: id))] /\
    in2_file w' = in2_file w /\
    good (in1_file w') = false.
Proof.
  intros Hline Hg. destruct isFastQ.
  - destruct (read_record_fastq_header_only w h id Hline)
      as (w' & E & Hev & Hin2 & Hbad & _).
    exists w'. rewrite Hg in Hev. repeat split; auto.
  - apply (read_record_fasta_at_end w h id Hline Hg).
Qed.

Lemma file2_loop_step fuel isFastQ w :
  file2_loop (S fuel) isFastQ w
  = bind getline_in2
      (fun more => if more
                   then bind (read_record isFastQ)
                             (fun _ => file2_loop fuel isFastQ)
                   else ret tt) w.
Proof. reflexivity. Qed.

Lemma file2_loop_lines isFastQ ls :
  forall fuel w,
    before (in2_file w) ls ->
    Forall (fun l => l <> []) ls ->
    good (in1_file w) = false ->
    (length ls < fuel)%nat ->
    exists w',
      file2_loop fuel isFastQ w = Cont tt w' /\
      events w' = events w ++ map Push (map (second_file_item isFastQ) ls).
Proof.
  induction ls as [|l ls IH]; intros fuel w Hb Hne Hg Hfuel;
    (destruct fuel as [|fuel]; [simpl in Hfuel; lia|]);
    rewrite file2_loop_step;
    rewrite (bind_Cont _ _ _ _ _ (getline_in2_run w)).
  - destruct (getline_before_end _ (line_from_file w) Hb) as [Hf _].
    rewrite Hf. cbn [negb]. eexists. split; [reflexivity|].
    simpl. rewrite app_nil_r. reflexivity.
  - inversion Hne as [|l0 ls0 Hl Hne' E0]; subst.
    destruct (getline_before_line _ _ _ Hb) as (s1 & Hg1 & Hf1 & Hb1).
    rewrite Hg1. cbn [fst snd]. rewrite Hf1. cbn [negb].
    destruct l as [|h id]; [contradiction|].
    match goal with
    | |- context [bind (read_record isFastQ) _ ?W] =>
        destruct (read_record_at_end isFastQ W h id eq_refl Hg)
          as (w2 & E2 & Hev2 & Hin2 & Hg2)
    end.
    rewrite (bind_Cont _ _ _ _ _ E2).
    destruct (IH fuel w2) as (w3 & E3 & Hev3); auto.
    { rewrite Hin2. exact Hb1. }
    { simpl in Hfuel. lia. }
    exists w3. split; [exact E3|].
    rewrite Hev3, Hev2. simpl. rewrite <- app_assoc. reflexivity.
Qed.

(** A paired run whose two record loops run to their ends. *)
Lemma paired_run env args o w1 c1 c2 isFastQ items1 items2 :
  configure env args initial_World = Cont o w1 ->
  is_paired o = true ->
  readable env (in1_filename o) = Some c1 ->
  readable env (in2_filename o) = Some c2 ->
  (forall w, in1_file w = opened c1 ->
             exists l, detect_format o w = Cont isFastQ (with_line l w)) ->
  (forall w, in1_file w = opened c1 ->
             exists w', file1_loop (S (length c1)) isFastQ w = Cont tt w' /\
                        events w' = events w ++ map Push items1) ->
  (forall w, in2_file w = opened c2 -> good (in1_file w) = false ->
             exists w', file2_loop (S (length c2)) isFastQ w = Cont tt w' /\
                        events w' = events w ++ map Push items2) ->
  fst (run_main env args) = Returned EXIT_SUCCESS /\
  pushed (snd (run_main env args)) = items1 ++ items2.
Proof.
  unfold is_paired. intros E1 Hp Hr1 Hr2 Hdetect Hloop1 Hloop2.
  destruct (configure_logs env args initial_World) as (l1 & Hw1 & F1).
  rewrite E1 in Hw1. simpl in Hw1.
  unfold run_main, main.
  rewrite (bind_Cont _ _ _ _ _ E1).
  rewrite (bind_Cont _ _ _ _ _ (start_workers_run o w1)).
  set (n := Z.to_nat (num_threads o)).
  set (w2 := log (NewQueue 500 :: map Spawn (seq 0 n)) w1).
  assert (Hev2 : events w2 = l1 ++ NewQueue 500 :: map Spawn (seq 0 n)).
  { unfold w2. rewrite Hw1. reflexivity. }
  assert (Hs2 : is_open (in2_file w2) = false)
    by (unfold w2; rewrite Hw1; reflexivity).
  destruct (open_inputs_readable env o w2 c1 Hr1 Hs2)
    as [(w3 & _ & _ & _ & Hnone)
       | (paired & w3 & E3 & Hin1 & Hpaired & Hin2 & Hev3)];
    [rewrite Hr2 in Hnone; discriminate Hnone|].
  rewrite Hp in Hpaired. subst paired.
  destruct Hin2 as (c2' & Hc2' & Hin2). rewrite Hr2 in Hc2'.
  injection Hc2' as <-.
  rewrite (bind_Cont _ _ _ _ _ E3).
  unfold ingest, read_files. rewrite !bind_assoc.
  destruct (Hdetect w3 Hin1) as (l & Ed).
  rewrite (bind_Cont _ _ _ _ _ Ed).
  rewrite !bind_assoc.
  rewrite (bind_Cont _ _ _ _ _ (when_run _ _ _)).
  set (w4 := log (if verbose o then [Cerr (StartSearch (num_threads o))]
                  else []) (with_line l w3)).
  rewrite !bind_assoc.
  rewrite (bind_Cont get _ w4 w4 w4 eq_refl).
  assert (Hin4 : in1_file w4 = opened c1) by exact Hin1.
  rewrite !bind_assoc.
  destruct (Hloop1 w4 Hin4) as (w5 & E5 & Hev5).
  rewrite Hin4. change (rest (opened c1)) with c1.
  rewrite (bind_Cont _ _ _ _ _ E5).
  destruct (file1_loop_ends_failed _ _ _ _ E5) as [Hg5 Hin5].
  assert (Hin25 : in2_file w5 = opened c2) by (rewrite Hin5; exact Hin2).
  rewrite !bind_assoc.
  rewrite (bind_Cont get _ w5 w5 w5 eq_refl).
  destruct (Hloop2 w5 Hin25 Hg5) as (w6 & E6 & Hev6).
  rewrite Hin25. change (rest (opened c2)) with c2.
  rewrite (bind_Cont _ _ _ _ _ E6).
  destruct (shutdown_run o true (seq 0 n) w6)
    as (w7 & closing & finishing & E7 & Hev7 & Fc & Ff).
  change (snd (seq 0 n, seq 0 n)) with (seq 0 n).
  change (fst (seq 0 n, seq 0 n)) with (seq 0 n).
  rewrite E7. simpl.
  split; [reflexivity|].
  rewrite Hev7, Hev6, Hev5.
  change (PushedLast :: closing ++ joins (seq 0 n) ++ finishing
            ++ [DeleteQueue; DeleteConfig])
    with ([PushedLast] ++ closing ++ joins (seq 0 n) ++ finishing
            ++ [DeleteQueue; DeleteConfig]).
  rewrite !pushed_app, !pushed_map_Push.
  replace (pushed closing) with (@nil ReadItem) by (symmetry; reader_nil Fc).
  replace (pushed finishing) with (@nil ReadItem)
    by (symmetry; reader_nil Ff).
  replace (pushed (joins (seq 0 n))) with (@nil ReadItem)
    by (symmetry; reader_nil (joins_class (seq 0 n))).
  replace (pushed (events w4)) with (@nil ReadItem).
  { simpl. rewrite app_nil_r. reflexivity. }
  unfold w4. simpl. rewrite Hev3, Hev2, !pushed_app.
  replace (pushed l1) with (@nil ReadItem) by (symmetry; reader_nil F1).
  simpl.
  replace (pushed (map Spawn (seq 0 n))) with (@nil ReadItem);
    [destruct (verbose o); reflexivity|].
  clear. induction (seq 0 n); simpl; auto.
Qed.

(** X18: in a paired FASTQ run whose first file is well formed, the second
    loop makes a Work Item of every line of the second file, header,
    sequence, separator and quality lines alike: the identifier is the line
    without its first character and the sequence is the letters of that
    identifier.  These items follow those of the first file, and the run
    returns.  (The second file holds no empty line.) *)
Theorem paired_fastq_second_file_lines env args o w1 recs nl1 ls2 nl2 :
  configure env args initial_World = Cont o w1 ->
  is_paired o = true ->
  recs <> [] ->
  Forall valid_fastq_record recs ->
  well_ended nl1 (flat_map fastq_group recs) ->
  readable env (in1_filename o)
  = Some (join_lines nl1 (flat_map fastq_group recs)) ->
  Forall (fun l => no_newline l = true) ls2 ->
  Forall (fun l => l <> []) ls2 ->
  well_ended nl2 ls2 ->
  readable env (in2_filename o) = Some (join_lines nl2 ls2) ->
  fst (run_main env args) = Returned EXIT_SUCCESS /\
  pushed (snd (run_main env args))
  = map fastq_item recs ++ map (second_file_item true) ls2.
Proof.
  intros E1 Hp Hne Hv Hend1 Hr1 Hnl2 Hne2 Hend2 Hr2.
  pose proof (fastq_groups_no_newline recs Hv) as Hnl1.
  apply (paired_run env args o w1 _ _ true _ _ E1 Hp Hr1 Hr2).
  - intros w Hin. destruct recs as [|r recs]; [contradiction|].
    destruct (join_lines_head nl1 "@" (fq_id r)
                ([fq_sequence r; fq_separator r; fq_quality r]
                   ++ flat_map fastq_group recs)) as (t & Ht).
    exists ("@"%char :: fst (until_newline t)).
    apply detect_format_fastq. rewrite Hin. f_equal. exact Ht.
  - intros w Hin.
    assert (Hb : before (in1_file w) (flat_map fastq_group recs)).
    { rewrite Hin. apply opened_before; assumption. }
    destruct (file1_loop_fastq recs
                (S (length (join_lines nl1 (flat_map fastq_group recs))))
                w Hb) as (w' & E & Hev & _ & _).
    { pose proof (fastq_group_count recs).
      apply before_length in Hb. rewrite Hin in Hb. simpl in Hb. lia. }
    exists w'. split; assumption.
  - intros w Hin Hg.
    assert (Hb : before (in2_file w) ls2).
    { rewrite Hin. apply opened_before; assumption. }
    apply (file2_loop_lines true ls2 _ w Hb Hne2 Hg).
    apply before_length in Hb. rewrite Hin in Hb. simpl in Hb. lia.
Qed.

Lemma paired_fastq_second_file_lines_witness :
  fst (run_main (sample_env (Some sample_fastq1) (Some sample_fastq2))
                paired_args)
  = Returned EXIT_SUCCESS /\
  pushed (snd (run_main (sample_env (Some sample_fastq1) (Some sample_fastq2))
                        paired_args))
  = map fastq_item sample_fastq_records
    ++ map (second_file_item true)
         [str "@m1"; str "TTTT"; str "+"; str "IIII"].
Proof.
  apply (paired_fastq_second_file_lines
           (sample_env (Some sample_fastq1) (Some sample_fastq2)) paired_args
           (set_in2_filename single_options "reads2")
           (log [ReadIndexes "proteins.fmi"; ConfigInit] initial_World)
           sample_fastq_records true
           [str "@m1"; str "TTTT"; str "+"; str "IIII"] true).
  - reflexivity.
  - reflexivity.
  - discriminate.
  - repeat constructor.
  - intros H. discriminate H.
  - reflexivity.
  - repeat constructor.
  - repeat constructor; discriminate.
  - intros H. discriminate H.
  - reflexivity.
Defined.

(** X19: in a paired FASTA run whose first file is well formed, the second
    loop makes a Work Item of every line of the second file, with the line
    without its first character as identifier and an empty sequence: no
    sequence of the second file reaches the queue. *)
Theorem paired_fasta_second_file_lines env args o w1 recs nl1 ls2 nl2 :
  configure env args initial_World = Cont o w1 ->
  is_paired o = true ->
  recs <> [] ->
  Forall valid_fasta_record recs ->
  well_ended nl1 (flat_map fasta_block recs) ->
  readable env (in1_filename o)
  = Some (join_lines nl1 (flat_map fasta_block recs)) ->
  Forall (fun l => no_newline l = true) ls2 ->
  Forall (fun l => l <> []) ls2 ->
  well_ended nl2 ls2 ->
  readable env (in2_filename o) = Some (join_lines nl2 ls2) ->
  fst (run_main env args) = Returned EXIT_SUCCESS /\
  pushed (snd (run_main env args))
  = map fasta_item recs ++ map (second_file_item false) ls2.
Proof.
  intros E1 Hp Hne Hv Hend1 Hr1 Hnl2 Hne2 Hend2 Hr2.
  pose proof (fasta_blocks_no_newline recs Hv) as Hnl1.
  apply (paired_run env args o w1 _ _ false _ _ E1 Hp Hr1 Hr2).
  - intros w Hin. destruct recs as [|r recs]; [contradiction|].
    destruct (join_lines_head nl1 ">" (fa_id r)
                (fa_lines r ++ flat_map fasta_block recs)) as (t & Ht).
    exists (">"%char :: fst (until_newline t)).
    apply detect_format_fasta. rewrite Hin. f_equal. exact Ht.
  - intros w Hin.
    assert (Hb : before (in1_file w) (flat_map fasta_block recs)).
    { rewrite Hin. apply opened_before; assumption. }
    destruct (file1_loop_fasta recs
                (S (length (join_lines nl1 (flat_map fasta_block recs))))
                w Hv Hb) as (w' & E & Hev & _ & _).
    { pose proof (fasta_block_count recs).
      apply before_length in Hb. rewrite Hin in Hb. simpl in Hb. lia. }
    exists w'. split; assumption.
  - intros w Hin Hg.
    assert (Hb : before (in2_file w) ls2).
    { rewrite Hin. apply opened_before; assumption. }
    apply (file2_loop_lines false ls2 _ w Hb Hne2 Hg).
    apply before_length in Hb. rewrite Hin in Hb. simpl in Hb. lia.
Qed.

Lemma paired_fasta_second_file_lines_witness :
  fst (run_main (sample_env (Some sample_fasta)
                            (Some (text_of_lines [">m1"; "GGGG"]%string)))
                paired_args)
  = Returned EXIT_SUCCESS /\
  pushed (snd (run_main (sample_env (Some sample_fasta)
                                    (Some (text_of_lines [">m1"; "GGGG"]%string)))
                        paired_args))
  = map fasta_item sample_fasta_records
    ++ map (second_file_item false) [str ">m1"; str "GGGG"].
Proof.
  apply (paired_fasta_second_file_lines
           (sample_env (Some sample_fasta)
                       (Some (text_of_lines [">m1"; "GGGG"]%string)))
           paired_args
           (set_in2_filename single_options "reads2")
           (log [ReadIndexes "proteins.fmi"; ConfigInit] initial_World)
           sample_fasta_records true
           [str ">m1"; str "GGGG"] true).
  - reflexivity.
  - reflexivity.
  - discriminate.
  - repeat constructor.
  - intros H. discriminate H.
  - reflexivity.
  - repeat constructor.
  - repeat constructor; discriminate.
  - intros H. discriminate H.
  - reflexivity.
Defined.
